(** * NebulaiNode: the high-speed worker (nebula_highspeed.py)

    A shallow embedding of the matrix engine, the compute pipeline, the
    task client, the per-token worker loop and the start-up that reads the
    token file, followed by the properties proved about them.

    Python values are modelled as follows.
    - [int] is [Z]; [%] with a positive modulus is [Z.modulo].
    - [float] (and [np.float64]) is IEEE binary64, taken from the standard
      library's [spec_float] at precision 53 and exponent bound 1024.
    - [str] is [string]; [bytes] is [list byte].
    - A raised exception is the [Raise] branch of [result]. *)

From Stdlib Require Import ZArith Lia List Bool String Ascii Permutation.
From Stdlib.Strings Require Import Byte.
From Stdlib Require Import Floats.SpecFloat.
From Stdlib Require Import DecimalString.
From stdpp Require Import base list strings.

Local Open Scope Z_scope.

(** ** Exceptions and results *)

Inductive exn : Type :=
  | ZeroDivisionError
  | OverflowError
  | ValueError
  | IndexError
  | KeyError (key : string)
  | TypeError
  | AttributeError
  | TimeoutError
  | ClientConnectionError
  | JSONDecodeError.

Inductive result (A : Type) : Type :=
  | Ok (a : A)
  | Raise (e : exn).
Arguments Ok {A} a.
Arguments Raise {A} e.

#[global] Instance result_ret : MRet result := fun _ a => Ok a.
#[global] Instance result_bind : MBind result := fun _ _ k r =>
  match r with
  | Ok a => k a
  | Raise e => Raise e
  end.

(** [for x in xs: body], threading the loop state and stopping at the
    first exception. *)
Fixpoint for_each {A S : Type} (xs : list A) (body : A -> S -> result S)
    (s : S) : result S :=
  match xs with
  | [] => Ok s
  | x :: rest => s' ← body x s; for_each rest body s'
  end.

(** [range(n)] for a machine-sized [n]; empty when [n <= 0]. *)
Definition range (n : Z) : list nat := seq 0 (Z.to_nat n).

(** ** Binary64 floating point *)

Definition prec : Z := 53.
Definition emax : Z := 1024.

Abbreviation float := spec_float.

Definition fadd : float -> float -> float := SFadd prec emax.
Definition fsub : float -> float -> float := SFsub prec emax.
Definition fmul : float -> float -> float := SFmul prec emax.
Definition fdiv : float -> float -> float := SFdiv prec emax.
Definition feqb : float -> float -> bool := SFeqb.

Definition fzero : float := S754_zero false.

Definition is_finite (x : float) : bool :=
  match x with
  | S754_zero _ | S754_finite _ _ _ => true
  | _ => false
  end.

(** A well-formed binary64 datum: finite, with a canonical mantissa and
    exponent. *)
Definition finite64 (x : float) : bool :=
  is_finite x && valid_binary prec emax x.

(** The correctly rounded binary64 of an integer. *)
Definition float_of_Z (z : Z) : float := binary_normalize prec emax z 0 false.

(** [float(n)] for a Python [int]: raises when the rounded value would
    overflow. *)
Definition py_float (z : Z) : result float :=
  match float_of_Z z with
  | S754_infinity _ => Raise OverflowError
  | x => Ok x
  end.

(** The integer a float denotes, when it is finite and whole. *)
Definition float_whole (x : float) : option Z :=
  match x with
  | S754_zero _ => Some 0
  | S754_finite s m e =>
      let v := if s then Z.neg m else Z.pos m in
      if 0 <=? e then Some (v * 2 ^ e)
      else if (Z.pos m) mod 2 ^ (- e) =? 0 then Some (v / 2 ^ (- e))
      else None
  | _ => None
  end.

(** ** Matrix engine *)

Abbreviation matrix := (list (list float)).

(** [np.empty((size, size))] with 8-byte cells. A negative dimension is
    refused, and so is a shape whose byte count [size * size * 8] does not
    fit a signed 64-bit integer, which is the case from size [2^30] on;
    both raise [ValueError]. The cells hold no promised value (here: zero)
    until written. Whether a shape that passes these checks can be
    allocated depends on the machine: where memory is short the code
    raises [MemoryError], and nothing here says that a matrix is
    returned; the properties of a matrix are stated of a returned one. *)
Definition np_empty (size : Z) : result matrix :=
  if (size <? 0) || (2 ^ 63 - 1 <? size * size * 8) then Raise ValueError
  else Ok (replicate (Z.to_nat size) (replicate (Z.to_nat size) fzero)).

(** [matrix[i][j] = x] *)
Definition mat_set (m : matrix) (i j : nat) (x : float) : result matrix :=
  match m !! i with
  | Some row =>
      if decide (j < length row)%nat then Ok (<[i := <[j := x]> row]> m)
      else Raise IndexError
  | None => Raise IndexError
  end.

Definition lcg_a : Z := 0x4b72e682d.
Definition lcg_b : Z := 0x2675dcd22.

Definition generate_cell (i j : nat) (st : matrix * Z) : result (matrix * Z) :=
  let '(m, current_seed) := st in
  let value := (lcg_a * current_seed + lcg_b) mod 1000 in
  x ← py_float value;
  m' ← mat_set m i j x;
  Ok (m', value).

Definition generate_matrix (seed size : Z) : result matrix :=
  m0 ← np_empty size;
  st ← for_each (range size)
          (fun i => for_each (range size) (fun j => generate_cell i j))
          (m0, seed);
  Ok (fst st).

(** [matrix.flat]: the entries in row-major order. *)
Definition flat (m : matrix) : list float := concat m.

(** ** Bytes and text *)

Definition byte_of_Z (z : Z) : byte :=
  match Byte.of_N (Z.to_N (z mod 256)) with
  | Some b => b
  | None => x00
  end.

Definition Z_of_byte (b : byte) : Z := Z.of_N (Byte.to_N b).

Definition code_point (c : ascii) : Z := Z.of_N (N_of_ascii c).

(** [s.encode()]: UTF-8 of a string of code points below 256. *)
Definition utf8_char (c : ascii) : list byte :=
  let n := code_point c in
  if n <? 128 then [byte_of_Z n]
  else [byte_of_Z (Z.lor 192 (Z.shiftr n 6));
        byte_of_Z (Z.lor 128 (Z.land n 63))].

Fixpoint encode (s : string) : list byte :=
  match s with
  | EmptyString => []
  | String c rest => utf8_char c ++ encode rest
  end.

Definition hex_digit (d : Z) : ascii :=
  if d <? 10 then ascii_of_N (Z.to_N (48 + d))
  else ascii_of_N (Z.to_N (87 + d)).

(** The value of one character in base 16, as [int(s, 16)] reads it. *)
Definition hex_value (c : ascii) : option Z :=
  let n := code_point c in
  if (48 <=? n) && (n <=? 57) then Some (n - 48)
  else if (97 <=? n) && (n <=? 102) then Some (n - 87)
  else if (65 <=? n) && (n <=? 70) then Some (n - 55)
  else None.

Fixpoint int_of_hex_from (acc : Z) (s : string) : result Z :=
  match s with
  | EmptyString => Ok acc
  | String c rest =>
      match hex_value c with
      | Some d => int_of_hex_from (16 * acc + d) rest
      | None => Raise ValueError
      end
  end.

(** [int(s, 16)] on a string of hexadecimal digits; anything else, and the
    empty string, is a [ValueError]. *)
Definition int_of_hex (s : string) : result Z :=
  match s with
  | EmptyString => Raise ValueError
  | _ => int_of_hex_from 0 s
  end.

(** [a % b] on Python integers. *)
Definition py_mod (a b : Z) : result Z :=
  if b =? 0 then Raise ZeroDivisionError else Ok (a mod b).

(** ** SHA-256 (hashlib.sha256), after FIPS 180-4 *)

Definition w32 (x : Z) : Z := x mod 2 ^ 32.
Definition add32 (x y : Z) : Z := w32 (x + y).
Definition rotr (n x : Z) : Z :=
  Z.lor (Z.shiftr x n) (w32 (Z.shiftl x (32 - n))).
Definition not32 (x : Z) : Z := Z.lxor x (2 ^ 32 - 1).

Definition Ch (x y z : Z) : Z := Z.lxor (Z.land x y) (Z.land (not32 x) z).
Definition Maj (x y z : Z) : Z :=
  Z.lxor (Z.lxor (Z.land x y) (Z.land x z)) (Z.land y z).
Definition big_sigma0 (x : Z) : Z :=
  Z.lxor (Z.lxor (rotr 2 x) (rotr 13 x)) (rotr 22 x).
Definition big_sigma1 (x : Z) : Z :=
  Z.lxor (Z.lxor (rotr 6 x) (rotr 11 x)) (rotr 25 x).
Definition small_sigma0 (x : Z) : Z :=
  Z.lxor (Z.lxor (rotr 7 x) (rotr 18 x)) (Z.shiftr x 3).
Definition small_sigma1 (x : Z) : Z :=
  Z.lxor (Z.lxor (rotr 17 x) (rotr 19 x)) (Z.shiftr x 10).

Definition first_primes : list Z :=
  [2; 3; 5; 7; 11; 13; 17; 19; 23; 29; 31; 37; 41; 43; 47; 53;
   59; 61; 67; 71; 73; 79; 83; 89; 97; 101; 103; 107; 109; 113; 127; 131;
   137; 139; 149; 151; 157; 163; 167; 173; 179; 181; 191; 193; 197; 199;
   211; 223; 227; 229; 233; 239; 241; 251; 257; 263; 269; 271; 277; 281;
   283; 293; 307; 311].

(** Integer cube root, one bit at a time from the top. *)
Fixpoint cube_root_bits (bits : nat) (n r : Z) : Z :=
  match bits with
  | O => r
  | S b =>
      let r' := r + 2 ^ Z.of_nat b in
      cube_root_bits b n (if r' * r' * r' <=? n then r' else r)
  end.

(** The round constants: the first 32 bits of the fractional parts of the
    cube roots of the first 64 primes. *)
Definition sha256_K : list Z :=
  Eval vm_compute in
    map (fun p => w32 (cube_root_bits 40 (p * 2 ^ 96) 0)) first_primes.

(** The initial hash value: the same for the square roots of the first 8
    primes. *)
Definition sha256_H0 : list Z :=
  Eval vm_compute in
    map (fun p => w32 (Z.sqrt (p * 2 ^ 64))) (take 8 first_primes).

(** A big-endian integer from bytes, and back at a fixed width. *)
Definition be_int (bs : list byte) : Z :=
  fold_left (fun acc b => 256 * acc + Z_of_byte b) bs 0.

Fixpoint be_bytes (width : nat) (x : Z) : list byte :=
  match width with
  | O => []
  | S w => byte_of_Z (Z.shiftr x (8 * Z.of_nat w)) :: be_bytes w x
  end.

(** Padding: a one bit, zeros up to 56 mod 64 bytes, the bit length on 64
    bits. *)
Definition sha256_pad (msg : list byte) : list byte :=
  let len := Z.of_nat (length msg) in
  let zeros := Z.to_nat ((55 - len) mod 64) in
  msg ++ [byte_of_Z 128] ++ replicate zeros x00 ++ be_bytes 8 (8 * len).

Fixpoint chunks {A} (fuel size : nat) (l : list A) : list (list A) :=
  match fuel with
  | O => []
  | S f =>
      match l with
      | [] => []
      | _ => take size l :: chunks f size (drop size l)
      end
  end.

Definition block_words (block : list byte) : list Z :=
  map be_int (chunks 16 4 block).

Fixpoint schedule (n : nat) (w : list Z) : list Z :=
  match n with
  | O => w
  | S n' =>
      let t := length w in
      let x := add32 (add32 (small_sigma1 (nth (t - 2) w 0)) (nth (t - 7) w 0))
                     (add32 (small_sigma0 (nth (t - 15) w 0)) (nth (t - 16) w 0)) in
      schedule n' (w ++ [x])
  end.

Definition sha256_round (st : list Z) (kw : Z * Z) : list Z :=
  match st with
  | [a; b; c; d; e; f; g; h] =>
      let t1 := add32 (add32 (add32 h (big_sigma1 e)) (Ch e f g))
                      (add32 (fst kw) (snd kw)) in
      let t2 := add32 (big_sigma0 a) (Maj a b c) in
      [add32 t1 t2; a; b; c; add32 d t1; e; f; g]
  | _ => st
  end.

Definition sha256_block (H : list Z) (block : list byte) : list Z :=
  let w := schedule 48 (block_words block) in
  let st := fold_left sha256_round (combine sha256_K w) H in
  zip_with add32 H st.

Definition sha256 (msg : list byte) : list byte :=
  let padded := sha256_pad msg in
  let blocks := chunks (length padded) 64 padded in
  let H := fold_left sha256_block blocks sha256_H0 in
  flat_map (be_bytes 4) H.

(** [.hexdigest()]: two lower-case hexadecimal digits per byte. *)
Fixpoint hex_of_bytes (bs : list byte) : string :=
  match bs with
  | [] => EmptyString
  | b :: rest =>
      String (hex_digit (Z_of_byte b / 16))
        (String (hex_digit (Z_of_byte b mod 16)) (hex_of_bytes rest))
  end.

Definition hexdigest (msg : list byte) : string := hex_of_bytes (sha256 msg).

(** ** Fixed-point formatting: [f"{x:.{p}f}"] *)

(** [num / den] rounded to the nearest integer, ties to even
    ([0 <= num], [0 < den]). *)
Definition round_half_even (num den : Z) : Z :=
  let q := num / den in
  let r := num mod den in
  match Z.compare (2 * r) den with
  | Lt => q
  | Gt => q + 1
  | Eq => if Z.even q then q else q + 1
  end.

(** The decimal digits of a natural number, as [str] prints them. *)
Definition dec_text (n : Z) : string :=
  NilZero.string_of_uint (N.to_uint (Z.to_N n)).

Fixpoint zeros (n : nat) : string :=
  match n with
  | O => EmptyString
  | S n' => String "0" (zeros n')
  end.

(** [q] read as a count of [10^-p]: at least one digit before the point,
    exactly [p] after it, and no point when [p = 0]. *)
Definition fixed_digits (p : nat) (q : Z) : string :=
  let ds := dec_text q in
  let padded := (zeros (S p - String.length ds) ++ ds)%string in
  match p with
  | O => padded
  | _ =>
      let whole := (String.length padded - p)%nat in
      (substring 0 whole padded ++ "." ++ substring whole p padded)%string
  end.

Definition sign_text (s : bool) : string := if s then "-" else "".

(** The magnitude of a finite float in units of [10^-p], correctly
    rounded. *)
Definition scaled_magnitude (p : nat) (m : positive) (e : Z) : Z :=
  if 0 <=? e then Z.pos m * 2 ^ e * 10 ^ Z.of_nat p
  else round_half_even (Z.pos m * 10 ^ Z.of_nat p) (2 ^ (- e)).

Definition format_f (p : nat) (x : float) : string :=
  match x with
  | S754_nan => "nan"
  | S754_infinity s => (sign_text s ++ "inf")%string
  | S754_zero s => (sign_text s ++ fixed_digits p 0)%string
  | S754_finite s m e =>
      (sign_text s ++ fixed_digits p (scaled_magnitude p m e))%string
  end.

(** ** Matrix product and fingerprint *)

Definition ncols (m : matrix) : nat :=
  match m with
  | [] => O
  | row :: _ => length row
  end.

Definition column (j : nat) (m : matrix) : list float :=
  map (fun row => nth j row fzero) m.

(** The inner product, summed from the left. numpy does not promise an
    order for the additions; on whole entries whose sums stay below 2^53,
    which is what [generate_matrix] produces, every order gives the same
    exact result. *)
Definition dot (u v : list float) : float :=
  fold_left (fun acc xy => fadd acc (fmul (fst xy) (snd xy))) (combine u v) fzero.

(** [a @ b]: the inner dimensions must agree. *)
Definition multiply_matrices (a b : matrix) : result matrix :=
  if decide (ncols a = length b) then
    Ok (map (fun row => map (fun j => dot row (column j b)) (seq 0 (ncols b))) a)
  else Raise ValueError.

Definition join (parts : list string) : string :=
  fold_right String.append EmptyString parts.

Definition flatten_matrix (m : matrix) : string :=
  join (map (format_f 0) (flat m)).

Definition compute_hash_mod (m : matrix) (modulus : Z) : result Z :=
  let flat_str := flatten_matrix m in
  let sha256_hex := hexdigest (encode flat_str) in
  n ← int_of_hex sha256_hex;
  py_mod n modulus.

Definition default_mod : Z := 10 ^ 7.

(** ** JSON values, as [resp.json()] returns them

    Numbers on the wire are integers (the interface carries no fractional
    field). An object is an association list read from the left. *)

#[warnings="-register-all"] Inductive json : Type :=
  | JNull
  | JBool (b : bool)
  | JInt (z : Z)
  | JStr (s : string)
  | JList (items : list json)
  | JObj (fields : list (string * json)).

Fixpoint assoc (key : string) (fields : list (string * json)) : option json :=
  match fields with
  | [] => None
  | (k, v) :: rest => if String.eqb k key then Some v else assoc key rest
  end.

(** [d.get(key, default)]: only a dict has [get]. *)
Definition py_get (d : json) (key : string) (default : json) : result json :=
  match d with
  | JObj fields => Ok (from_option id default (assoc key fields))
  | _ => Raise AttributeError
  end.

(** [d[key]] with a string key. *)
Definition py_getitem (d : json) (key : string) : result json :=
  match d with
  | JObj fields =>
      match assoc key fields with
      | Some v => Ok v
      | None => Raise (KeyError key)
      end
  | _ => Raise TypeError
  end.

(** [v == n] for an integer literal [n]; [True] and [False] compare as 1
    and 0. *)
Definition eq_int (v : json) (n : Z) : bool :=
  match v with
  | JInt z => z =? n
  | JBool b => Z.b2z b =? n
  | _ => false
  end.

(** [v == s] for a string literal [s]. *)
Definition eq_str (v : json) (s : string) : bool :=
  match v with
  | JStr t => String.eqb t s
  | _ => false
  end.

Definition truthy (v : json) : bool :=
  match v with
  | JNull => false
  | JBool b => b
  | JInt z => negb (z =? 0)
  | JStr s => negb (String.eqb s "")
  | JList items => match items with [] => false | _ => true end
  | JObj fields => match fields with [] => false | _ => true end
  end.

(** A value used as a number in the generator's arithmetic: [True] and
    [False] count as 1 and 0, and anything else that is not an integer
    makes the first cell raise [TypeError]. (A non-empty string or list is
    first repeated [a] times, which takes some 20 GB for each character
    or item, before the sum raises; the model describes a machine that
    can hold it.) *)
Definition as_int (v : json) : result Z :=
  match v with
  | JInt z => Ok z
  | JBool b => Ok (Z.b2z b)
  | _ => Raise TypeError
  end.

(** A value used as a dimension: [np.empty] takes integers only, and
    refuses [True] and [False] with them. *)
Definition as_size (v : json) : result Z :=
  match v with
  | JInt z => Ok z
  | _ => Raise TypeError
  end.

(** [generate_matrix(seed, size)] on the values of a task as they come:
    the annotations are not checked. [np.empty] meets the size first; the
    seed enters the arithmetic when the first cell is computed, and never
    when there is none. *)
Definition generate_matrix_on (seed size : json) : result matrix :=
  n ← as_size size;
  m0 ← np_empty n;
  if n =? 0 then Ok m0
  else s ← as_int seed; generate_matrix s n.

(** ** The world a worker runs in

    The remote service is a script of answers per operation, consumed in
    order; once a script is used up the connection fails. An answer is
    either the decoded JSON body or the exception the request raised. *)

Definition response : Type := result json.

Record request : Type := mk_request {
  req_token : string;
  req_body : json
}.

Inductive log_line : Type :=
  | LogJwtExpired (tok8 : string)
  | LogFetch429 (tok8 : string)
  | LogFetchError (tok8 : string) (e : exn)
  | LogSubmit429 (tok8 : string)
  | LogSubmitOK (tok8 : string) (loops : json)
  | LogSubmitFailed (tok8 : string) (data : json)
  | LogSubmitError (tok8 : string) (e : exn)
  | LogComputeError (tok8 : string) (e : exn)
  | LogSummary (tok8 : string) (success fail total : Z) (runtime earned : float).

Record world : Type := mk_world {
  fetch_script : list response;
  submit_script : list response;
  clock : nat -> float;           (* successive readings of [time.time()] *)
  ticks : nat;                    (* readings taken so far *)
  sent : list request;            (* requests posted, oldest first *)
  sleeps : list Z;                (* [asyncio.sleep] calls, in milliseconds *)
  expired_file : list string;     (* writes appended to expired_tokens.txt *)
  console : list log_line         (* printed lines, oldest first *)
}.

Definition io (A : Type) : Type := world -> result A * world.

#[global] Instance io_ret : MRet io := fun _ a w => (Ok a, w).
#[global] Instance io_bind : MBind io := fun _ _ k m w =>
  match m w with
  | (Ok a, w') => k a w'
  | (Raise e, w') => (Raise e, w')
  end.

Definition lift {A} (r : result A) : io A := fun w => (r, w).

(** [try: body / except Exception as e: handler(e)] *)
Definition try_except {A} (body : io A) (handler : exn -> io A) : io A :=
  fun w =>
    match body w with
    | (Ok a, w') => (Ok a, w')
    | (Raise e, w') => handler e w'
    end.

Definition set_fetch_script (x : list response) (w : world) : world :=
  mk_world x (submit_script w) (clock w) (ticks w) (sent w) (sleeps w)
           (expired_file w) (console w).
Definition set_submit_script (x : list response) (w : world) : world :=
  mk_world (fetch_script w) x (clock w) (ticks w) (sent w) (sleeps w)
           (expired_file w) (console w).
Definition set_ticks (x : nat) (w : world) : world :=
  mk_world (fetch_script w) (submit_script w) (clock w) x (sent w) (sleeps w)
           (expired_file w) (console w).
Definition set_sent (x : list request) (w : world) : world :=
  mk_world (fetch_script w) (submit_script w) (clock w) (ticks w) x (sleeps w)
           (expired_file w) (console w).
Definition set_sleeps (x : list Z) (w : world) : world :=
  mk_world (fetch_script w) (submit_script w) (clock w) (ticks w) (sent w) x
           (expired_file w) (console w).
Definition set_expired_file (x : list string) (w : world) : world :=
  mk_world (fetch_script w) (submit_script w) (clock w) (ticks w) (sent w)
           (sleeps w) x (console w).
Definition set_console (x : list log_line) (w : world) : world :=
  mk_world (fetch_script w) (submit_script w) (clock w) (ticks w) (sent w)
           (sleeps w) (expired_file w) x.

(** [time.time()] *)
Definition time_time : io float := fun w =>
  (Ok (clock w (ticks w)), set_ticks (S (ticks w)) w).

Definition print (l : log_line) : io unit := fun w =>
  (Ok tt, set_console (console w ++ [l]) w).

(** [await asyncio.sleep(ms / 1000)] *)
Definition sleep_ms (ms : Z) : io unit := fun w =>
  (Ok tt, set_sleeps (sleeps w ++ [ms]) w).

(** [with open("expired_tokens.txt", "a") as f: f.write(text)] *)
Definition append_expired (text : string) : io unit := fun w =>
  (Ok tt, set_expired_file (expired_file w ++ [text]) w).

(** [session.post(...)] followed by [resp.json()], for a fetch. *)
Definition post_fetch (rq : request) : io json := fun w =>
  let w' := set_sent (sent w ++ [rq]) w in
  match fetch_script w with
  | [] => (Raise ClientConnectionError, w')
  | r :: rest => (r, set_fetch_script rest w')
  end.

(** The same for a submission. *)
Definition post_submit (rq : request) : io json := fun w =>
  let w' := set_sent (sent w ++ [rq]) w in
  match submit_script w with
  | [] => (Raise ClientConnectionError, w')
  | r :: rest => (r, set_submit_script rest w')
  end.

Definition newline : string := String (ascii_of_N 10) EmptyString.

(** [token[:8]] *)
Definition tok8 (token : string) : string := substring 0 8 token.

(** ** Task client *)

Definition fetch_task (token : string) : io (json * bool * bool) :=
  try_except
    (data ← post_fetch (mk_request token (JObj []));
     err ← lift (py_get data "error" JNull);
     if eq_str err "jwt auth err" then
       _ ← print (LogJwtExpired (tok8 token));
       _ ← append_expired (token ++ newline);
       mret (JNull, false, false)
     else
       code ← lift (py_get data "code" JNull);
       if eq_int code (-429) then
         _ ← print (LogFetch429 (tok8 token));
         mret (JNull, false, true)
       else
         code ← lift (py_get data "code" JNull);
         if eq_int code 0 then
           task ← lift (py_getitem data "data");
           mret (task, true, false)
         else mret (JNull, false, false))
    (fun e =>
       _ ← print (LogFetchError (tok8 token) e);
       mret (JNull, false, false)).

(** A Python number: [process_task] returns a float or the integer [0] as
    its second value. *)
Inductive pynum : Type :=
  | PyFloat (x : float)
  | PyInt (z : Z).

(** [f"{v:.{p}f}"] for a number: an integer is converted to a float
    first. *)
Definition format_num (p : nat) (v : pynum) : result string :=
  match v with
  | PyFloat x => Ok (format_f p x)
  | PyInt z => x ← py_float z; Ok (format_f p x)
  end.

Definition submit_results (token : string) (r1 : float) (r2 : pynum)
    (task_id : json) : io (bool * bool) :=
  s1 ← lift (format_num 10 (PyFloat r1));
  s2 ← lift (format_num 10 r2);
  let payload :=
    JObj [("result_1", JStr s1); ("result_2", JStr s2); ("task_id", task_id)] in
  try_except
    (data ← post_submit (mk_request token payload);
     inner ← lift (py_get data "data" (JObj []));
     loops ← lift (py_get inner "loops" (JInt 0));
     code ← lift (py_get data "code" JNull);
     if eq_int code (-429) then
       _ ← print (LogSubmit429 (tok8 token));
       mret (false, true)
     else
       code ← lift (py_get data "code" JNull);
       accepted ←
         (if eq_int code 0 then
            inner ← lift (py_get data "data" (JObj []));
            status ← lift (py_get inner "calc_status" (JBool false));
            mret (truthy status)
          else mret false);
       if (accepted : bool) then
         _ ← print (LogSubmitOK (tok8 token) loops);
         mret (true, false)
       else
         _ ← print (LogSubmitFailed (tok8 token) data);
         mret (false, false))
    (fun e =>
       _ ← print (LogSubmitError (tok8 token) e);
       mret (false, false)).

(** ** Compute pipeline *)

(** [x / n] and [n / x] for a float [x] and an integer [n]. *)
Definition float_div_int (x : float) (n : Z) : result float :=
  y ← py_float n;
  if feqb y fzero then Raise ZeroDivisionError else Ok (fdiv x y).

Definition int_div_float (n : Z) (x : float) : result float :=
  y ← py_float n;
  if feqb x fzero then Raise ZeroDivisionError else Ok (fdiv y x).

(** [time.time() * 1000] *)
Definition now_ms : io float :=
  now ← time_time;
  mret (fmul now (float_of_Z 1000)).

Definition process_task (token : string) (task_data : json)
    : io (option (float * pynum * float)) :=
  seed1 ← lift (py_getitem task_data "seed1");
  seed2 ← lift (py_getitem task_data "seed2");
  size ← lift (py_getitem task_data "matrix_size");
  try_except
    (t0 ← now_ms;
     A ← lift (generate_matrix_on seed1 size);
     B ← lift (generate_matrix_on seed2 size);
     C ← lift (multiply_matrices A B);
     f ← lift (compute_hash_mod C default_mod);
     t1 ← now_ms;
     r1 ← lift (float_div_int t0 f);
     r2 ← (if negb (feqb (fsub t1 t0) fzero)
           then x ← lift (int_div_float f (fsub t1 t0)); mret (PyFloat x)
           else mret (PyInt 0));
     dur ← lift (float_div_int (fsub t1 t0) 1000);
     mret (Some (r1, r2, dur)))
    (fun e =>
       _ ← print (LogComputeError (tok8 token) e);
       mret None).

(** ** Worker loop *)

Record stats : Type := mk_stats {
  success : Z;
  fail : Z;
  total : Z;
  total_time : float
}.

(** [fail += 1], [success += 1], and [total += 1; total_time += dur]. *)
Definition count_failure (st : stats) : stats :=
  mk_stats (success st) (fail st + 1) (total st) (total_time st).
Definition count_success (st : stats) : stats :=
  mk_stats (success st + 1) (fail st) (total st) (total_time st).
Definition count_attempt (dur : float) (st : stats) : stats :=
  mk_stats (success st) (fail st) (total st + 1) (fadd (total_time st) dur).

Inductive loop_step : Type :=
  | Continue (st : stats)
  | Break (st : stats).

(** One pass through the body of [while True]. *)
Definition loop_body (token : string) (st : stats) : io loop_step :=
  '(task_data, ok, rate_limit) ← fetch_task token;
  if (rate_limit : bool) then
    _ ← sleep_ms 3000;
    mret (Continue st)
  else if negb ok then mret (Break st)
  else
    result ← process_task token task_data;
    match result with
    | None => mret (Continue (count_failure st))
    | Some (r1, r2, dur) =>
        let st := count_attempt dur st in
        task_id ← lift (py_getitem task_data "task_id");
        '(submitted, rate_limit) ← submit_results token r1 r2 task_id;
        if (rate_limit : bool) then
          _ ← sleep_ms 3000;
          mret (Continue st)
        else
          let st := if (submitted : bool) then count_success st
                    else count_failure st in
          _ ← sleep_ms 50;
          mret (Continue st)
    end.

(** The loop, cut off after [fuel] passes: [None] means the cut was
    reached. *)
Fixpoint iterate (fuel : nat) (token : string) (st : stats) (w : world)
    : option (result stats * world) :=
  match fuel with
  | O => None
  | S fuel' =>
      match loop_body token st w with
      | (Ok (Continue st'), w') => iterate fuel' token st' w'
      | (Ok (Break st'), w') => Some (Ok st', w')
      | (Raise e, w') => Some (Raise e, w')
      end
  end.

Definition initial_stats : stats := mk_stats 0 0 0 fzero.

(** The reward per accepted task, [0.003]. *)
Definition reward : float := fdiv (float_of_Z 3) (float_of_Z 1000).

Definition report (token : string) (start_time : float) (st : stats) : io stats :=
  now ← time_time;
  let runtime := fsub now start_time in
  let earned := fmul (float_of_Z (success st)) reward in
  _ ← print (LogSummary (tok8 token) (success st) (fail st) (total st)
                        runtime earned);
  mret st.

(** [worker_loop(token)]. Every pass takes one answer from the fetch
    script, or finds it used up and stops, so one pass more than the
    script is long is always enough. *)
Definition worker_loop (token : string) (w : world)
    : option (result stats * world) :=
  match time_time w with
  | (Ok start_time, w1) =>
      match iterate (S (length (fetch_script w1))) token initial_stats w1 with
      | Some (Ok st, w2) => Some (report token start_time st w2)
      | other => other
      end
  | (Raise e, w1) => Some (Raise e, w1)
  end.

(** ** Closed forms used by the properties *)

(** The recurrence of the specification: [x -> (a*x + b) mod 1000]. *)
Definition lcg_step (x : Z) : Z := (lcg_a * x + lcg_b) mod 1000.

Definition lcg_iterate (n : nat) (seed : Z) : Z := Nat.iter n lcg_step seed.

(** The floats the generator writes, starting after [s]: the first [len]
    iterates of the recurrence. *)
Fixpoint row_vals (s : Z) (len : nat) : list float :=
  match len with
  | O => []
  | S len' => float_of_Z (lcg_step s) :: row_vals (lcg_step s) len'
  end.

Definition small_int_ok (v : Z) : bool :=
  is_finite (float_of_Z v) &&
  match float_whole (float_of_Z v) with
  | Some w => w =? v
  | None => false
  end.

(** The rows the outer loop produces from row [i0] on. *)
Fixpoint rows_vals (s : Z) (n rows : nat) : list (list float) :=
  match rows with
  | O => []
  | S r => row_vals s n :: rows_vals (lcg_iterate n s) n r
  end.

(** ** The fingerprint as the specification words it *)

(** The integer nearest to [num / den], a tie going to the even
    neighbour. *)
Definition nearest_even (num den : Z) : Z :=
  let q := (2 * num + den) / (2 * den) in
  if ((2 * num + den) mod (2 * den) =? 0) && Z.odd q then q - 1 else q.

(** The integer nearest to the magnitude [m * 2^e]. *)
Definition nearest_integer (m : positive) (e : Z) : Z :=
  if 0 <=? e then Z.pos m * 2 ^ e else nearest_even (Z.pos m) (2 ^ (- e)).

(** An entry's nearest-integer decimal text: the sign, then the digits of
    the nearest integer; infinities and NaN print by name. *)
Definition integer_text (x : float) : string :=
  match x with
  | S754_nan => "nan"
  | S754_infinity s => (sign_text s ++ "inf")%string
  | S754_zero s => (sign_text s ++ "0")%string
  | S754_finite s m e => (sign_text s ++ dec_text (nearest_integer m e))%string
  end.

(** Hash the concatenated texts, read the digest as a big-endian integer,
    reduce. *)
Definition fingerprint_spec (M : matrix) (m : Z) : Z :=
  be_int (sha256 (list_byte_of_string (join (map integer_text (concat M)))))
    mod m.

(** Every character is below 128. *)
Fixpoint ascii7 (s : string) : bool :=
  match s with
  | EmptyString => true
  | String c rest => (code_point c <? 128) && ascii7 rest
  end.

(** ** The client's outcomes as the specification names them *)

Inductive fetch_outcome : Type :=
  | AuthExpired
  | RateLimited
  | Success (task : json)
  | GenericFailure (raised : option exn).

(** The answer the next fetch will get. *)
Definition next_fetch (w : world) : response :=
  match fetch_script w with
  | [] => Raise ClientConnectionError
  | r :: _ => r
  end.

Definition classify_fetch (r : response) : fetch_outcome :=
  match r with
  | Raise e => GenericFailure (Some e)
  | Ok (JObj fields) =>
      if eq_str (from_option id JNull (assoc "error" fields)) "jwt auth err"
      then AuthExpired
      else if eq_int (from_option id JNull (assoc "code" fields)) (-429)
      then RateLimited
      else if eq_int (from_option id JNull (assoc "code" fields)) 0
      then match assoc "data" fields with
           | Some task => Success task
           | None => GenericFailure (Some (KeyError "data"))
           end
      else GenericFailure None
  | Ok _ => GenericFailure (Some AttributeError)
  end.

(** The world once a fetch has been posted and answered. *)
Definition fetched (token : string) (w : world) : world :=
  set_fetch_script (tail (fetch_script w))
    (set_sent (sent w ++ [mk_request token (JObj [])]) w).

Definition log (lines : list log_line) (w : world) : world :=
  set_console (console w ++ lines) w.

Inductive submit_outcome : Type :=
  | SubmitRateLimited
  | Accepted (loops : json)
  | Rejected (data : json)
  | SubmitFailure (raised : exn).

Definition next_submit (w : world) : response :=
  match submit_script w with
  | [] => Raise ClientConnectionError
  | r :: _ => r
  end.

Definition classify_submit (r : response) : submit_outcome :=
  match r with
  | Raise e => SubmitFailure e
  | Ok (JObj fields) =>
      match from_option id (JObj []) (assoc "data" fields) with
      | JObj inner =>
          if eq_int (from_option id JNull (assoc "code" fields)) (-429)
          then SubmitRateLimited
          else if eq_int (from_option id JNull (assoc "code" fields)) 0
                  && truthy (from_option id (JBool false)
                               (assoc "calc_status" inner))
          then Accepted (from_option id (JInt 0) (assoc "loops" inner))
          else Rejected (JObj fields)
      | _ => SubmitFailure AttributeError
      end
  | Ok _ => SubmitFailure AttributeError
  end.

Definition payload (r1 r2 : string) (task_id : json) : json :=
  JObj [("result_1", JStr r1); ("result_2", JStr r2); ("task_id", task_id)].

Definition submitted (token : string) (body : json) (w : world) : world :=
  set_submit_script (tail (submit_script w))
    (set_sent (sent w ++ [mk_request token body]) w).

(** The three values [process_task] derives from the timestamps and the
    fingerprint. *)
Definition submission_values (t0 t1 : float) (f : Z)
    : result (float * pynum * float) :=
  r1 ← float_div_int t0 f;
  r2 ← (if negb (feqb (fsub t1 t0) fzero)
        then x ← int_div_float f (fsub t1 t0); Ok (PyFloat x)
        else Ok (PyInt 0));
  dur ← float_div_int (fsub t1 t0) 1000;
  Ok (r1, r2, dur).

(** The fingerprint of a task's product matrix. *)
Definition task_fingerprint (task_data : json) : result Z :=
  seed1 ← py_getitem task_data "seed1";
  seed2 ← py_getitem task_data "seed2";
  size ← py_getitem task_data "matrix_size";
  A ← generate_matrix_on seed1 size;
  B ← generate_matrix_on seed2 size;
  C ← multiply_matrices A B;
  compute_hash_mod C default_mod.

(** The millisecond timestamp taken at reading [k] of the clock. *)
Definition stamp (w : world) (k : nat) : float :=
  fmul (clock w k) (float_of_Z 1000).

Definition pause (ms : Z) (w : world) : world :=
  set_sleeps (sleeps w ++ [ms]) w.

(** What a pass does with a task in hand, in a world where the fetch has
    been answered. *)
Definition compute_and_submit (token : string) (st : stats) (task : json)
    (w : world) : result loop_step * world :=
  match process_task token task w with
  | (Raise e, w1) => (Raise e, w1)
  | (Ok None, w1) => (Ok (Continue (count_failure st)), w1)
  | (Ok (Some (r1, r2, dur)), w1) =>
      match py_getitem task "task_id" with
      | Raise e => (Raise e, w1)
      | Ok task_id =>
          match submit_results token r1 r2 task_id w1 with
          | (Raise e, w2) => (Raise e, w2)
          | (Ok (_, true), w2) =>
              (Ok (Continue (count_attempt dur st)), pause 3000 w2)
          | (Ok (true, false), w2) =>
              (Ok (Continue (count_success (count_attempt dur st))),
               pause 50 w2)
          | (Ok (false, false), w2) =>
              (Ok (Continue (count_failure (count_attempt dur st))),
               pause 50 w2)
          end
      end
  end.

(** The world after an answered fetch of each kind. *)
Definition after_fetch (token : string) (w : world) : world :=
  match classify_fetch (next_fetch w) with
  | AuthExpired =>
      set_expired_file (expired_file w ++ [(token ++ newline)%string])
        (log [LogJwtExpired (tok8 token)] (fetched token w))
  | RateLimited => log [LogFetch429 (tok8 token)] (fetched token w)
  | Success _ | GenericFailure None => fetched token w
  | GenericFailure (Some e) =>
      log [LogFetchError (tok8 token) e] (fetched token w)
  end.

(** ** Sample inputs *)

Definition make_task (seed1 seed2 size : Z) (task_id : string) : json :=
  JObj [("seed1", JInt seed1); ("seed2", JInt seed2);
        ("matrix_size", JInt size); ("task_id", JStr task_id)].

(** A task whose product matrix has fingerprint 0. *)
Definition zero_task : json := make_task 526 16 12 "task-0".

Definition small_task : json := make_task 1 2 2 "task-1".

Definition answer_task (task : json) : response :=
  Ok (JObj [("code", JInt 0); ("data", task)]).

Definition answer_429 : response := Ok (JObj [("code", JInt (-429))]).

Definition answer_accepted : response :=
  Ok (JObj [("code", JInt 0);
            ("data", JObj [("calc_status", JBool true); ("loops", JInt 3)])]).

Definition answer_jwt_expired : response :=
  Ok (JObj [("error", JStr "jwt auth err")]).

(** A clock that starts at 1762209300.123 s and advances a quarter of a
    second per reading. *)
Definition sample_clock (k : nat) : float :=
  fdiv (float_of_Z (1762209300123 + 250 * Z.of_nat k)) (float_of_Z 1000).

Definition sample_world (fetches submits : list response) : world :=
  mk_world fetches submits sample_clock 0 [] [] [] [].

Definition sample_token : string := "tok-0001-abcdef".

(** ** Reading a run off the console *)

Fixpoint tally (p : log_line -> bool) (lines : list log_line) : Z :=
  match lines with
  | [] => 0
  | l :: rest => (if p l then 1 else 0) + tally p rest
  end.

Definition is_compute_error (l : log_line) : bool :=
  match l with LogComputeError _ _ => true | _ => false end.

Definition is_submit_429 (l : log_line) : bool :=
  match l with LogSubmit429 _ => true | _ => false end.

Definition is_submit_ok (l : log_line) : bool :=
  match l with LogSubmitOK _ _ => true | _ => false end.

Definition is_submit_refused (l : log_line) : bool :=
  match l with
  | LogSubmitFailed _ _ | LogSubmitError _ _ => true
  | _ => false
  end.

(** Lines printed by a submission: one per result posted. *)
Definition is_submit_line (l : log_line) : bool :=
  is_submit_429 l || is_submit_ok l || is_submit_refused l.


Definition stats_of (step : loop_step) : stats :=
  match step with
  | Continue st | Break st => st
  end.

(** The counters measured against the console: what each counter holds
    beyond the lines that account for it. *)
Definition ledger (st : stats) (w : world) : Z * Z * Z :=
  (total st - tally is_submit_line (console w),
   success st - tally is_submit_ok (console w),
   fail st - tally is_compute_error (console w)
           - tally is_submit_refused (console w)).

Definition fetch_request (token : string) : request :=
  mk_request token (JObj []).


(** The world when a result is posted: the fetch answered, the clock read
    twice, the submission answered. *)
Definition posted (token : string) (body : json) (w : world) : world :=
  submitted token body (set_ticks (S (S (ticks w))) (fetched token w)).

(** ** Statements of the specification that the loop is tested against *)


(** "A network error during a fetch is counted in the failure statistics
    and the loop continues past it to its next iteration": one failure at
    least is counted, and a further request is posted. *)
Definition fetch_error_counted_and_passed (token : string) (w : world) : Prop :=
  forall st w',
    worker_loop token w = Some (Ok st, w') ->
    1 <= fail st /\ (2 <= length (sent w'))%nat.

(** Two worlds that differ in the expired-token file at most (and in the
    clock, which no fetch touches). *)
Definition differ_in_expired_file_only (w1 w2 : world) : Prop :=
  fetch_script w1 = fetch_script w2 /\
  submit_script w1 = submit_script w2 /\
  ticks w1 = ticks w2 /\
  sent w1 = sent w2 /\
  sleeps w1 = sleeps w2 /\
  console w1 = console w2.

Definition answer_unexpected : response := Ok (JObj [("code", JInt 1)]).

(** The lines a run added to the console that satisfy [p]. *)
Definition added (p : log_line -> bool) (w w' : world) : Z :=
  tally p (console w') - tally p (console w).

(** ** A pass of the loop, case by case *)

Definition fetch_lines (token : string) (raised : option exn) : list log_line :=
  match raised with
  | Some e => [LogFetchError (tok8 token) e]
  | None => []
  end.

Definition submit_counts (o : submit_outcome) (st : stats) : stats :=
  match o with
  | SubmitRateLimited => st
  | Accepted _ => count_success st
  | Rejected _ | SubmitFailure _ => count_failure st
  end.

Definition submit_pause (o : submit_outcome) : Z :=
  match o with
  | SubmitRateLimited => 3000
  | _ => 50
  end.

Definition submit_line (token : string) (o : submit_outcome) : log_line :=
  match o with
  | SubmitRateLimited => LogSubmit429 (tok8 token)
  | Accepted loops => LogSubmitOK (tok8 token) loops
  | Rejected data => LogSubmitFailed (tok8 token) data
  | SubmitFailure e => LogSubmitError (tok8 token) e
  end.

(** The three keys [process_task] reads before its [try]. *)
Definition seed_keys_error (task : json) : option exn :=
  match py_getitem task "seed1" with
  | Raise e => Some e
  | Ok _ =>
      match py_getitem task "seed2" with
      | Raise e => Some e
      | Ok _ =>
          match py_getitem task "matrix_size" with
          | Raise e => Some e
          | Ok _ => None
          end
      end
  end.

(** Every way a pass can go, with the result and the world it leaves. *)
Inductive pass (token : string) (st : stats) (w : world)
    : result loop_step * world -> Prop :=
  | pass_rate_limited :
      classify_fetch (next_fetch w) = RateLimited ->
      pass token st w
        (Ok (Continue st),
         pause 3000 (log [LogFetch429 (tok8 token)] (fetched token w)))
  | pass_auth_expired :
      classify_fetch (next_fetch w) = AuthExpired ->
      pass token st w
        (Ok (Break st),
         set_expired_file (expired_file w ++ [(token ++ newline)%string])
           (log [LogJwtExpired (tok8 token)] (fetched token w)))
  | pass_no_task raised :
      classify_fetch (next_fetch w) = GenericFailure raised ->
      pass token st w
        (Ok (Break st), log (fetch_lines token raised) (fetched token w))
  | pass_bad_task task e :
      classify_fetch (next_fetch w) = Success task ->
      seed_keys_error task = Some e ->
      pass token st w (Raise e, fetched token w)
  | pass_compute_error task e n :
      classify_fetch (next_fetch w) = Success task ->
      seed_keys_error task = None ->
      (1 <= n <= 2)%nat ->
      pass token st w
        (Ok (Continue (count_failure st)),
         log [LogComputeError (tok8 token) e]
           (set_ticks (ticks w + n) (fetched token w)))
  | pass_no_task_id task e :
      classify_fetch (next_fetch w) = Success task ->
      seed_keys_error task = None ->
      py_getitem task "task_id" = Raise e ->
      pass token st w
        (Raise e, set_ticks (S (S (ticks w))) (fetched token w))
  | pass_submitted task tid r1 s2 dur :
      classify_fetch (next_fetch w) = Success task ->
      seed_keys_error task = None ->
      py_getitem task "task_id" = Ok tid ->
      let o := classify_submit (next_submit w) in
      pass token st w
        (Ok (Continue (submit_counts o (count_attempt dur st))),
         pause (submit_pause o)
           (log [submit_line token o]
              (posted token (payload (format_f 10 r1) s2 tid) w))).

(** ** Book-keeping over a run *)

Fixpoint count_ms (v : Z) (l : list Z) : Z :=
  match l with
  | [] => 0
  | x :: rest => (if x =? v then 1 else 0) + count_ms v rest
  end.

Definition is_fetch_429 (l : log_line) : bool :=
  match l with LogFetch429 _ => true | _ => false end.

Definition is_summary (l : log_line) : bool :=
  match l with LogSummary _ _ _ _ _ _ => true | _ => false end.

(** A request that carries a result: a fetch posts the empty object. *)
Definition is_submission (rq : request) : bool :=
  match req_body rq with
  | JObj [] => false
  | _ => true
  end.

Fixpoint count_submissions (l : list request) : Z :=
  match l with
  | [] => 0
  | rq :: rest => (if is_submission rq then 1 else 0) + count_submissions rest
  end.

(** Sleeps and requests measured against the console: each component is
    what is not accounted for by the lines printed. *)
Definition books (w : world) : Z * Z * Z * Z :=
  (count_ms 3000 (sleeps w)
     - tally is_fetch_429 (console w) - tally is_submit_429 (console w),
   count_ms 50 (sleeps w)
     - tally is_submit_ok (console w) - tally is_submit_refused (console w),
   Z.of_nat (length (sleeps w))
     - count_ms 3000 (sleeps w) - count_ms 50 (sleeps w),
   count_submissions (sent w) - tally is_submit_line (console w)).

Definition is_ok {A} (r : result A) : bool :=
  match r with Ok _ => true | Raise _ => false end.

(** A fetched task that makes the worker raise [e]: one of the seed keys
    or the task id cannot be read. *)
Definition unreadable_task (task : json) (e : exn) : Prop :=
  seed_keys_error task = Some e \/ py_getitem task "task_id" = Raise e.

(** ** The pipeline over the integers *)

(** The values [generate_matrix] writes, as integers. *)
Fixpoint int_row (s : Z) (len : nat) : list Z :=
  match len with
  | O => []
  | S len' => lcg_step s :: int_row (lcg_step s) len'
  end.

Fixpoint int_rows (s : Z) (n rows : nat) : list (list Z) :=
  match rows with
  | O => []
  | S r => int_row s n :: int_rows (lcg_iterate n s) n r
  end.

Definition int_column (j : nat) (m : list (list Z)) : list Z :=
  map (fun row => nth j row 0) m.

Definition int_dot (u v : list Z) : Z :=
  fold_left (fun acc xy => acc + fst xy * snd xy) (combine u v) 0.

Definition int_ncols (m : list (list Z)) : nat :=
  match m with
  | [] => O
  | row :: _ => length row
  end.

(** The matrix product in integer arithmetic. *)
Definition int_product (a b : list (list Z)) : list (list Z) :=
  map (fun row => map (fun j => int_dot row (int_column j b))
                      (seq 0 (int_ncols b))) a.

Definition to_floats (m : list (list Z)) : matrix := map (map float_of_Z) m.

(** The fingerprint of a task computed without any floating point: the
    digits of the entries of the integer product, hashed and reduced. *)
Definition exact_fingerprint (seed1 seed2 size : Z) : Z :=
  let n := Z.to_nat size in
  let product := int_product (int_rows seed1 n n) (int_rows seed2 n n) in
  be_int (sha256 (list_byte_of_string (join (map dec_text (concat product)))))
    mod 10 ^ 7.

(** A value the generator can write. *)
Definition small_entry (x : Z) : Prop := 0 <= x < 1000.

(** ** Orders of summation *)

(** A way of adding up the terms of an inner product: numpy leaves the
    order, and the grouping, of the additions to the kernel it calls. *)
Inductive summation : Type :=
  | NoTerm
  | Term (x y : float)
  | Plus (l r : summation).

Fixpoint terms (t : summation) : list (float * float) :=
  match t with
  | NoTerm => []
  | Term x y => [(x, y)]
  | Plus l r => terms l ++ terms r
  end.

Fixpoint sum_in_order (t : summation) : float :=
  match t with
  | NoTerm => fzero
  | Term x y => fmul x y
  | Plus l r => fadd (sum_in_order l) (sum_in_order r)
  end.

(** The exact value of an inner product, from its pairs of factors. *)
Definition int_sum (l : list (Z * Z)) : Z :=
  fold_left (fun a xy => a + fst xy * snd xy) l 0.

(** ** Start-up: reading the token file *)

(** [c.isspace()] for a code point below 256: the ASCII controls 9 to 13
    and 28 to 31, the space, NEL and the no-break space. *)
Definition isspace (c : ascii) : bool :=
  let n := code_point c in
  ((9 <=? n) && (n <=? 13)) || ((28 <=? n) && (n <=? 32)) ||
  (n =? 133) || (n =? 160).

Fixpoint lstrip (s : string) : string :=
  match s with
  | EmptyString => EmptyString
  | String c rest => if isspace c then lstrip rest else s
  end.

Fixpoint rstrip (s : string) : string :=
  match s with
  | EmptyString => EmptyString
  | String c rest =>
      match rstrip rest with
      | EmptyString => if isspace c then EmptyString else String c EmptyString
      | kept => String c kept
      end
  end.

(** [s.strip()] *)
Definition strip (s : string) : string := lstrip (rstrip s).

(** Reading in text mode: a carriage return, alone or followed by a line
    feed, is delivered as one line feed. [pending_cr] tells that the
    character before was a carriage return. *)
Fixpoint newline_decoder (pending_cr : bool) (s : string) : string :=
  match s with
  | EmptyString => EmptyString
  | String c rest =>
      if (c =? "013")%char then String "010" (newline_decoder true rest)
      else if (c =? "010")%char && pending_cr then newline_decoder false rest
      else String c (newline_decoder false rest)
  end.

Definition universal_newlines (s : string) : string :=
  newline_decoder false s.

(** [for line in f], on the text the file object delivers: each line
    keeps its line feed, the last one may lack it. *)
Fixpoint readlines (text : string) : list string :=
  match text with
  | EmptyString => []
  | String c rest =>
      if (c =? "010")%char then String c EmptyString :: readlines rest
      else match readlines rest with
           | [] => [String c EmptyString]
           | line :: lines => String c line :: lines
           end
  end.

Definition nonempty (s : string) : bool :=
  match s with
  | EmptyString => false
  | String _ _ => true
  end.

(** How [main] ends: with one of its two messages, or by running
    [worker_loop token] for every token, all of them gathered. *)
Inductive startup : Type :=
  | NotFound                         (* "tokens.txt not found!" *)
  | NoValidTokens                    (* "No valid tokens in tokens.txt!" *)
  | Launch (tokens : list string).

(** [tokens_txt] is [None] when the path does not exist; otherwise it is
    what opening and reading the file gives, its characters or an
    exception. *)
Definition main (tokens_txt : option (result string)) : result startup :=
  match tokens_txt with
  | None => Ok NotFound
  | Some opened =>
      content ← opened;
      let tokens :=
        map strip
          (List.filter (fun line => nonempty (strip line))
             (readlines (universal_newlines content))) in
      match tokens with
      | [] => Ok NoValidTokens
      | _ :: _ => Ok (Launch tokens)
      end
  end.

(** Only white space. *)
Definition blank (s : string) : bool :=
  forallb isspace (list_ascii_of_string s).

(** A token as [main] hands it to a worker: not empty, no white space at
    either end, no line feed and no carriage return inside. *)
Definition clean_token (t : string) : Prop :=
  t <> EmptyString /\ strip t = t /\
  ~ In "010"%char (list_ascii_of_string t) /\
  ~ In "013"%char (list_ascii_of_string t).

Definition carriage_return : string := String "013" EmptyString.

(** One token per line, each line ended by [eol]. *)
Definition token_lines (eol : string) (tokens : list string) : string :=
  join (map (fun t => (t ++ eol)%string) tokens).

(* ================================================================== *)
(** * Properties *)

Section Generate.

Lemma lcg_step_range x : 0 <= lcg_step x < 1000.
Proof. unfold lcg_step. apply Z.mod_pos_bound. lia. Qed.

Lemma lcg_iterate_S n s : lcg_iterate (S n) s = lcg_step (lcg_iterate n s).
Proof. reflexivity. Qed.

Lemma lcg_iterate_shift n s : lcg_iterate n (lcg_step s) = lcg_iterate (S n) s.
Proof.
  induction n as [|n IH]; [reflexivity|].
  rewrite lcg_iterate_S, IH. reflexivity.
Qed.

Lemma lcg_iterate_add a b s :
  lcg_iterate (a + b) s = lcg_iterate b (lcg_iterate a s).
Proof.
  induction b as [|b IH].
  - rewrite Nat.add_0_r. reflexivity.
  - rewrite Nat.add_succ_r, !lcg_iterate_S, IH. reflexivity.
Qed.

Lemma small_ints_checked :
  forallb small_int_ok (map Z.of_nat (seq 0 1000)) = true.
Proof. vm_compute. reflexivity. Qed.

Lemma small_int_ok_range v : 0 <= v < 1000 -> small_int_ok v = true.
Proof.
  intros Hv.
  pose proof small_ints_checked as Hall.
  rewrite forallb_forall in Hall. apply Hall.
  apply in_map_iff. exists (Z.to_nat v). split; [lia|].
  apply in_seq. lia.
Qed.

Lemma py_float_small v : 0 <= v < 1000 -> py_float v = Ok (float_of_Z v).
Proof.
  intros Hv. apply small_int_ok_range in Hv.
  unfold small_int_ok in Hv. apply andb_true_iff in Hv as [Hfin _].
  unfold py_float. destruct (float_of_Z v); try reflexivity; discriminate.
Qed.

Lemma float_whole_small v :
  0 <= v < 1000 -> float_whole (float_of_Z v) = Some v.
Proof.
  intros Hv. apply small_int_ok_range in Hv.
  unfold small_int_ok in Hv. apply andb_true_iff in Hv as [_ Hw].
  destruct (float_whole (float_of_Z v)) as [w|]; [|discriminate].
  apply Z.eqb_eq in Hw. congruence.
Qed.

Lemma row_vals_length s len : length (row_vals s len) = len.
Proof. revert s; induction len as [|len IH]; intros s; simpl; [|rewrite IH]; reflexivity. Qed.

Lemma row_vals_app s a b :
  row_vals s (a + b) = row_vals s a ++ row_vals (lcg_iterate a s) b.
Proof.
  revert s; induction a as [|a IH]; intros s; [reflexivity|].
  simpl. rewrite IH, lcg_iterate_shift. reflexivity.
Qed.

Lemma row_vals_lookup s len k :
  (k < len)%nat ->
  row_vals s len !! k = Some (float_of_Z (lcg_iterate (S k) s)).
Proof.
  revert s k; induction len as [|len IH]; intros s k Hk; [lia|].
  destruct k as [|k]; [reflexivity|].
  simpl. rewrite IH by lia. rewrite lcg_iterate_shift. reflexivity.
Qed.

Lemma generate_cell_ok i j (m : matrix) row s :
  m !! i = Some row ->
  (j < length row)%nat ->
  generate_cell i j (m, s) =
    Ok (<[i := <[j := float_of_Z (lcg_step s)]> row]> m, lcg_step s).
Proof.
  intros Hrow Hj. unfold generate_cell. fold (lcg_step s).
  rewrite py_float_small by apply lcg_step_range.
  unfold mat_set. rewrite Hrow.
  destruct (decide (j < length row)%nat) as [_|]; [reflexivity|lia].
Qed.

(** The inner loop fills columns [j0 .. j0+len) of row [i]. *)
Lemma inner_loop i : forall len j0 (m : matrix) row s,
  m !! i = Some row ->
  (j0 + len <= length row)%nat ->
  for_each (seq j0 len) (generate_cell i) (m, s) =
    Ok (<[i := take j0 row ++ row_vals s len ++ drop (j0 + len) row]> m,
        lcg_iterate len s).
Proof.
  induction len as [|len IH]; intros j0 m row s Hrow Hlen.
  - cbn [seq for_each row_vals app].
    rewrite Nat.add_0_r, take_drop, list_insert_id by done. reflexivity.
  - cbn [seq for_each row_vals].
    rewrite (generate_cell_ok i j0 m row s Hrow) by lia.
    cbn [mbind result_bind].
    set (x := float_of_Z (lcg_step s)).
    assert (Hi : (i < length m)%nat) by (eapply lookup_lt_Some; eauto).
    rewrite (IH (S j0) _ (<[j0 := x]> row) (lcg_step s)).
    + rewrite list_insert_insert_eq. f_equal. f_equal.
      * rewrite take_insert_lt by lia.
        rewrite drop_insert_lt by lia.
        destruct (row !! j0) as [y|] eqn:Hy.
        -- rewrite (take_S_r row j0 y) by done.
           rewrite insert_app_r_alt by (rewrite length_take; lia).
           rewrite length_take, Nat.min_l, Nat.sub_diag by lia.
           cbn [insert list_insert].
           rewrite <- app_assoc.
           replace (j0 + S len)%nat with (S j0 + len)%nat by lia. reflexivity.
        -- apply lookup_ge_None in Hy. lia.
      * apply lcg_iterate_shift.
    + apply list_lookup_insert_eq. done.
    + rewrite length_insert. lia.
Qed.

Lemma inner_loop_full i (m : matrix) row s :
  m !! i = Some row ->
  for_each (seq 0 (length row)) (generate_cell i) (m, s) =
    Ok (<[i := row_vals s (length row)]> m, lcg_iterate (length row) s).
Proof.
  intros Hrow. rewrite (inner_loop i _ 0%nat m row s Hrow) by lia.
  rewrite take_0, Nat.add_0_l, drop_all, app_nil_r. reflexivity.
Qed.

Lemma rows_vals_length s n r : length (rows_vals s n r) = r.
Proof. revert s; induction r as [|r IH]; intros s; simpl; [|rewrite IH]; reflexivity. Qed.

Lemma rows_vals_concat s n r : concat (rows_vals s n r) = row_vals s (r * n).
Proof.
  revert s; induction r as [|r IH]; intros s; [reflexivity|].
  simpl. rewrite IH, row_vals_app. reflexivity.
Qed.

Lemma rows_vals_row s n r row : row ∈ rows_vals s n r -> length row = n.
Proof.
  revert s; induction r as [|r IH]; intros s Hin; simpl in Hin.
  - by apply elem_of_nil in Hin.
  - apply elem_of_cons in Hin as [->|Hin]; [apply row_vals_length|eauto].
Qed.

Lemma outer_loop n : forall len i0 (m : matrix) s,
  (i0 + len <= length m)%nat ->
  (forall i row, m !! i = Some row -> length row = n) ->
  for_each (seq i0 len) (fun i => for_each (seq 0 n) (generate_cell i)) (m, s) =
    Ok (take i0 m ++ rows_vals s n len ++ drop (i0 + len) m,
        lcg_iterate (len * n) s).
Proof.
  induction len as [|len IH]; intros i0 m s Hlen Hrows.
  - cbn [seq for_each rows_vals app].
    rewrite Nat.add_0_r, take_drop. reflexivity.
  - cbn [seq for_each rows_vals].
    destruct (m !! i0) as [row|] eqn:Hrow;
      [|apply lookup_ge_None in Hrow; lia].
    pose proof (Hrows _ _ Hrow) as Hn. subst n.
    rewrite (inner_loop_full i0 m row s Hrow).
    cbn [mbind result_bind].
    rewrite IH.
    + f_equal. f_equal.
      * rewrite take_insert_lt by lia. rewrite drop_insert_lt by lia.
        rewrite (take_S_r m i0 row) by done.
        rewrite insert_app_r_alt by (rewrite length_take; lia).
        rewrite length_take, Nat.min_l, Nat.sub_diag by lia.
        cbn [insert list_insert].
        rewrite <- app_assoc.
        replace (i0 + S len)%nat with (S i0 + len)%nat by lia. reflexivity.
      * rewrite <- lcg_iterate_add. f_equal; lia.
    + rewrite length_insert. lia.
    + intros i r Hi.
      destruct (decide (i = i0)) as [->|Hne].
      * rewrite list_lookup_insert_eq in Hi by (eapply lookup_lt_Some; eauto).
        injection Hi as <-. apply row_vals_length.
      * rewrite list_lookup_insert_ne in Hi by done. eauto.
Qed.

(** The shapes [np.empty] refuses. *)
Lemma np_empty_refused size :
  (size <? 0) || (2 ^ 63 - 1 <? size * size * 8) = true <->
  size < 0 \/ 2 ^ 30 <= size.
Proof.
  assert (H63 : 2 ^ 63 = 9223372036854775808) by reflexivity.
  assert (H30 : 2 ^ 30 = 1073741824) by reflexivity.
  rewrite orb_true_iff, Z.ltb_lt, Z.ltb_lt, H63, H30. split.
  - intros [H|H]; [now left|].
    destruct (Z.lt_ge_cases size 0) as [Hneg|Hpos]; [now left|right].
    destruct (Z.lt_ge_cases size 1073741824) as [Hlt|Hge]; [|exact Hge].
    assert (size * size <= 1073741823 * 1073741823) by nia. lia.
  - intros [H|H]; [now left|]. right.
    assert (1073741824 * 1073741824 <= size * size) by nia. lia.
Qed.

(** What [generate_matrix] returns, in closed form. *)
Lemma generate_matrix_closed seed size :
  0 <= size < 2 ^ 30 ->
  generate_matrix seed size =
    Ok (rows_vals seed (Z.to_nat size) (Z.to_nat size)).
Proof.
  intros Hsize. unfold generate_matrix, np_empty, range.
  destruct ((size <? 0) || (2 ^ 63 - 1 <? size * size * 8)) eqn:Hneg;
    [apply np_empty_refused in Hneg; lia|].
  cbn [mbind result_bind].
  set (n := Z.to_nat size).
  rewrite (outer_loop n n 0%nat).
  - cbn [mbind result_bind fst].
    rewrite take_0, Nat.add_0_l.
    rewrite drop_ge by (rewrite length_replicate; lia).
    rewrite app_nil_r. reflexivity.
  - rewrite length_replicate. lia.
  - intros i row Hi. apply lookup_replicate in Hi as [-> _].
    apply length_replicate.
Qed.

Lemma generate_matrix_refused seed size :
  size < 0 \/ 2 ^ 30 <= size -> generate_matrix seed size = Raise ValueError.
Proof.
  intros Hsize. unfold generate_matrix, np_empty.
  apply np_empty_refused in Hsize. rewrite Hsize. reflexivity.
Qed.

Lemma generate_matrix_negative seed size :
  size < 0 -> generate_matrix seed size = Raise ValueError.
Proof. intros Hsize. apply generate_matrix_refused. now left. Qed.

(** A matrix is returned for the accepted shapes only, and it is the
    closed form. *)
Lemma generate_matrix_returned seed size (M : matrix) :
  generate_matrix seed size = Ok M ->
  0 <= size < 2 ^ 30 /\
  M = rows_vals seed (Z.to_nat size) (Z.to_nat size).
Proof.
  intros Hgen.
  destruct (Z.lt_ge_cases size 0) as [Hneg|Hpos];
    [rewrite generate_matrix_refused in Hgen by (now left); discriminate|].
  destruct (Z.lt_ge_cases size (2 ^ 30)) as [Hlt|Hbig];
    [|rewrite generate_matrix_refused in Hgen by (now right); discriminate].
  rewrite generate_matrix_closed in Hgen by lia.
  injection Hgen as <-. split; [lia|reflexivity].
Qed.

(** On integers the call is the typed function. *)
Lemma generate_matrix_on_int seed size :
  generate_matrix_on (JInt seed) (JInt size) = generate_matrix seed size.
Proof.
  unfold generate_matrix_on. cbn [as_size as_int mbind result_bind].
  destruct (Z.eqb_spec size 0) as [->|Hne]; [reflexivity|].
  unfold generate_matrix. destruct (np_empty size); reflexivity.
Qed.

(** With no cell to fill the seed is never looked at. *)
Lemma generate_matrix_on_empty seed :
  generate_matrix_on seed (JInt 0) = Ok [].
Proof. reflexivity. Qed.

(** Nor is it when the shape is refused. *)
Lemma generate_matrix_on_refused seed size :
  size < 0 \/ 2 ^ 30 <= size ->
  generate_matrix_on seed (JInt size) = Raise ValueError.
Proof.
  intros Hsize. unfold generate_matrix_on, np_empty.
  cbn [as_size mbind result_bind].
  apply np_empty_refused in Hsize. rewrite Hsize. reflexivity.
Qed.

End Generate.

(** ** Claims about the matrix engine *)

Lemma rows_vals_lookup s n r i :
  (i < r)%nat ->
  rows_vals s n r !! i = Some (row_vals (lcg_iterate (i * n) s) n).
Proof.
  revert s i; induction r as [|r IH]; intros s i Hi; [lia|].
  destruct i as [|i]; [reflexivity|].
  cbn [rows_vals]. rewrite lookup_cons. rewrite IH by lia.
  rewrite <- lcg_iterate_add. reflexivity.
Qed.

(** C2. For every seed and every size >= 1, a matrix that
    [generate_matrix] returns is size x size and its k-th entry in
    row-major order is the float of the (k+1)-th iterate of
    [x -> (a*x + b) mod 1000] from the seed: each written value feeds the
    next step, and the chain runs on across row boundaries (cell (i, j)
    holds iterate i*size + j + 1). *)
Theorem generate_matrix_chain (seed size : Z) (M : matrix) :
  1 <= size ->
  generate_matrix seed size = Ok M ->
  length M = Z.to_nat size /\
  length (flat M) = (Z.to_nat size * Z.to_nat size)%nat /\
  (forall k, (k < Z.to_nat size * Z.to_nat size)%nat ->
     flat M !! k = Some (float_of_Z (lcg_iterate (S k) seed)) /\
     float_whole (float_of_Z (lcg_iterate (S k) seed)) =
       Some (lcg_iterate (S k) seed)) /\
  (forall i j, (i < Z.to_nat size)%nat -> (j < Z.to_nat size)%nat ->
     M !! i ≫= (.!! j) = flat M !! (i * Z.to_nat size + j)%nat).
Proof.
  intros Hsize Hgen. set (n := Z.to_nat size).
  apply generate_matrix_returned in Hgen as [_ ->]. fold n.
  split; [apply rows_vals_length|].
  unfold flat. rewrite rows_vals_concat.
  split; [apply row_vals_length|].
  split.
  - intros k Hk. split; [apply row_vals_lookup; exact Hk|].
    apply float_whole_small. rewrite lcg_iterate_S. apply lcg_step_range.
  - intros i j Hi Hj.
    rewrite rows_vals_lookup by exact Hi. cbn [mbind option_bind].
    rewrite !row_vals_lookup by nia.
    rewrite <- lcg_iterate_add. do 3 f_equal. lia.
Qed.

Lemma generate_matrix_chain_witness :
  1 <= 2 /\
  generate_matrix 1 2 =
    Ok [[float_of_Z 239; float_of_Z 45]; [float_of_Z 867; float_of_Z 281]] /\
  flat [[float_of_Z 239; float_of_Z 45]; [float_of_Z 867; float_of_Z 281]]
    !! 2%nat = Some (float_of_Z (lcg_iterate 3 1)).
Proof.
  assert (H1 : 1 <= 2) by lia.
  assert (H2 : generate_matrix 1 2 =
    Ok [[float_of_Z 239; float_of_Z 45]; [float_of_Z 867; float_of_Z 281]])
    by (vm_compute; reflexivity).
  split; [exact H1|]. split; [exact H2|].
  destruct (generate_matrix_chain 1 2 _ H1 H2) as (_ & _ & Hk & _).
  exact (proj1 (Hk 2%nat ltac:(cbn; lia))).
Defined.

(** C5. For every integer seed (zero and negative ones too) and every size,
    every entry of a matrix returned by [generate_matrix] is a whole number
    in [0, 1000). *)
Theorem generate_matrix_range (seed size : Z) (M : matrix) (x : float) :
  generate_matrix seed size = Ok M ->
  x ∈ flat M ->
  exists v : Z, float_whole x = Some v /\ 0 <= v < 1000.
Proof.
  intros Hgen Hx.
  apply generate_matrix_returned in Hgen as [_ ->].
  unfold flat in Hx. rewrite rows_vals_concat in Hx.
  apply list_elem_of_lookup in Hx as [k Hk].
  pose proof (lookup_lt_Some _ _ _ Hk) as Hlt.
  rewrite row_vals_length in Hlt.
  rewrite row_vals_lookup in Hk by exact Hlt. injection Hk as <-.
  exists (lcg_iterate (S k) seed).
  rewrite lcg_iterate_S.
  split; [apply float_whole_small|]; apply lcg_step_range.
Qed.

Lemma generate_matrix_range_witness :
  exists v : Z,
    float_whole (float_of_Z 17) = Some v /\ 0 <= v < 1000.
Proof.
  apply (generate_matrix_range (-5) 3
           (rows_vals (-5) 3 3) (float_of_Z 17)).
  - vm_compute. reflexivity.
  - apply list_elem_of_lookup. exists 0%nat. vm_compute. reflexivity.
Defined.

(** ** Claims about the fingerprint *)

Section Fingerprint.

Lemma Z_of_byte_range b : 0 <= Z_of_byte b < 256.
Proof.
  unfold Z_of_byte. pose proof (Byte.to_N_bounded b) as Hb. lia.
Qed.

Lemma hex_digits_checked :
  forallb (fun d => match hex_value (hex_digit d) with
                    | Some d' => d' =? d
                    | None => false
                    end) (map Z.of_nat (seq 0 16)) = true.
Proof. vm_compute. reflexivity. Qed.

Lemma hex_value_digit d : 0 <= d < 16 -> hex_value (hex_digit d) = Some d.
Proof.
  intros Hd. pose proof hex_digits_checked as Hall.
  rewrite forallb_forall in Hall.
  specialize (Hall d). cbv beta in Hall.
  destruct (hex_value (hex_digit d)) as [d'|].
  - f_equal. apply Z.eqb_eq. apply Hall.
    apply in_map_iff. exists (Z.to_nat d). split; [lia|]. apply in_seq. lia.
  - assert (false = true); [|discriminate]. apply Hall.
    apply in_map_iff. exists (Z.to_nat d). split; [lia|]. apply in_seq. lia.
Qed.

(** Reading a hex dump back gives the big-endian integer of the bytes. *)
Lemma int_of_hex_from_bytes bs : forall acc,
  int_of_hex_from acc (hex_of_bytes bs) =
    Ok (fold_left (fun a b => 256 * a + Z_of_byte b) bs acc).
Proof.
  induction bs as [|b bs IH]; intros acc; [reflexivity|].
  pose proof (Z_of_byte_range b) as Hb.
  cbn [hex_of_bytes int_of_hex_from fold_left].
  rewrite hex_value_digit
    by (split; [apply Z.div_pos; lia | apply Z.div_lt_upper_bound; lia]).
  rewrite hex_value_digit by (apply Z.mod_pos_bound; lia).
  rewrite IH. do 2 f_equal.
  pose proof (Z.div_mod (Z_of_byte b) 16 ltac:(lia)). lia.
Qed.

Lemma int_of_hex_bytes bs :
  bs <> [] -> int_of_hex (hex_of_bytes bs) = Ok (be_int bs).
Proof.
  intros Hne. destruct bs as [|b bs]; [congruence|].
  unfold int_of_hex, be_int.
  rewrite <- int_of_hex_from_bytes. reflexivity.
Qed.

Lemma sha256_round_length st kw :
  length st = 8%nat -> length (sha256_round st kw) = 8%nat.
Proof.
  intros Hlen. do 9 (destruct st as [|? st]; try discriminate). reflexivity.
Qed.

Lemma sha256_rounds_length kws : forall st,
  length st = 8%nat -> length (fold_left sha256_round kws st) = 8%nat.
Proof.
  induction kws as [|kw kws IH]; intros st Hlen; [exact Hlen|].
  cbn [fold_left]. apply IH, sha256_round_length, Hlen.
Qed.

Lemma sha256_block_length H block :
  length H = 8%nat -> length (sha256_block H block) = 8%nat.
Proof.
  intros Hlen. unfold sha256_block.
  rewrite length_zip_with, sha256_rounds_length by exact Hlen. lia.
Qed.

Lemma sha256_blocks_length blocks : forall H,
  length H = 8%nat -> length (fold_left sha256_block blocks H) = 8%nat.
Proof.
  induction blocks as [|b blocks IH]; intros H Hlen; [exact Hlen|].
  cbn [fold_left]. apply IH, sha256_block_length, Hlen.
Qed.

(** A digest is 32 bytes long. *)
Lemma sha256_length msg : length (sha256 msg) = 32%nat.
Proof.
  unfold sha256.
  pose proof (sha256_blocks_length
                (chunks (length (sha256_pad msg)) 64 (sha256_pad msg))
                sha256_H0 eq_refl) as Hlen.
  destruct (fold_left sha256_block _ sha256_H0) as [|h0 H]; [discriminate|].
  do 8 (destruct H as [|? H]; try discriminate). reflexivity.
Qed.

Lemma int_of_hexdigest msg :
  int_of_hex (hexdigest msg) = Ok (be_int (sha256 msg)).
Proof.
  apply int_of_hex_bytes. intros Hnil.
  pose proof (sha256_length msg) as Hlen. rewrite Hnil in Hlen. discriminate.
Qed.

Lemma byte_of_code_point c : byte_of_Z (code_point c) = byte_of_ascii c.
Proof.
  unfold byte_of_Z, code_point.
  assert (Hlt : (N_of_ascii c < 256)%N) by apply N_ascii_bounded.
  rewrite Z.mod_small by lia. rewrite N2Z.id.
  rewrite <- byte_of_ascii_via_N. reflexivity.
Qed.

(** On 7-bit text, UTF-8 is one byte per character. *)
Lemma encode_ascii7 s : ascii7 s = true -> encode s = list_byte_of_string s.
Proof.
  induction s as [|c s IH]; intros Hs; [reflexivity|].
  cbn [ascii7] in Hs. apply andb_true_iff in Hs as [Hc Hs].
  cbn [encode]. unfold utf8_char. rewrite Hc.
  rewrite byte_of_code_point, IH by exact Hs. reflexivity.
Qed.

Lemma append_cons c (s t : string) :
  (String c s ++ t)%string = String c (s ++ t).
Proof. reflexivity. Qed.

Lemma ascii7_app s t : ascii7 (s ++ t) = ascii7 s && ascii7 t.
Proof.
  induction s as [|c s IH]; [reflexivity|].
  rewrite append_cons. cbn [ascii7]. rewrite IH, andb_assoc. reflexivity.
Qed.

Lemma ascii7_uint d : ascii7 (NilEmpty.string_of_uint d) = true.
Proof. induction d; cbn [NilEmpty.string_of_uint ascii7]; rewrite ?IHd; reflexivity. Qed.

Lemma ascii7_dec_text n : ascii7 (dec_text n) = true.
Proof.
  unfold dec_text, NilZero.string_of_uint.
  destruct (N.to_uint (Z.to_N n)) eqn:Hd; try reflexivity;
    rewrite <- Hd; apply ascii7_uint.
Qed.

Lemma ascii7_sign s : ascii7 (sign_text s) = true.
Proof. destruct s; reflexivity. Qed.

Lemma ascii7_integer_text x : ascii7 (integer_text x) = true.
Proof.
  destruct x as [s|s| |s m e]; cbn [integer_text];
    rewrite ?ascii7_app, ?ascii7_sign, ?ascii7_dec_text; reflexivity.
Qed.

Lemma ascii7_join parts :
  (forall p, In p parts -> ascii7 p = true) -> ascii7 (join parts) = true.
Proof.
  induction parts as [|p parts IH]; intros Hall; [reflexivity|].
  cbn [join fold_right]. rewrite ascii7_app.
  rewrite (Hall p) by (left; reflexivity).
  apply IH. intros q Hq. apply Hall. right. exact Hq.
Qed.

(** The two roundings agree. *)
Lemma round_half_even_nearest num den :
  0 <= num -> 0 < den -> round_half_even num den = nearest_even num den.
Proof.
  intros Hnum Hden. unfold round_half_even, nearest_even.
  pose proof (Z.div_mod num den ltac:(lia)) as Hdm.
  pose proof (Z.mod_pos_bound num den Hden) as Hr.
  set (q := num / den) in *. set (r := num mod den) in *.
  destruct (Z.compare_spec (2 * r) den) as [Heq|Hlt|Hgt].
  - assert (Hq : (2 * num + den) / (2 * den) = q + 1)
      by (symmetry; apply (Z.div_unique _ _ _ 0); lia).
    assert (Hm : (2 * num + den) mod (2 * den) = 0)
      by (symmetry; apply (Z.mod_unique _ _ (q + 1)); lia).
    rewrite Hq, Hm. cbn [Z.eqb andb].
    rewrite Z.add_1_r, Z.odd_succ.
    destruct (Z.even q); [lia|reflexivity].
  - assert (Hq : (2 * num + den) / (2 * den) = q)
      by (symmetry; apply (Z.div_unique _ _ _ (2 * r + den)); lia).
    assert (Hm : (2 * num + den) mod (2 * den) = 2 * r + den)
      by (symmetry; apply (Z.mod_unique _ _ q); lia).
    rewrite Hq, Hm.
    destruct (Z.eqb_spec (2 * r + den) 0); [lia|reflexivity].
  - assert (Hq : (2 * num + den) / (2 * den) = q + 1)
      by (symmetry; apply (Z.div_unique _ _ _ (2 * r - den)); lia).
    assert (Hm : (2 * num + den) mod (2 * den) = 2 * r - den)
      by (symmetry; apply (Z.mod_unique _ _ (q + 1)); lia).
    rewrite Hq, Hm.
    destruct (Z.eqb_spec (2 * r - den) 0); [lia|reflexivity].
Qed.

(** [nearest_even] is within one half of the quotient, and even on a
    tie. *)
Lemma nearest_even_spec num den :
  0 <= num -> 0 < den ->
  let n := nearest_even num den in
  Z.abs (2 * num - 2 * den * n) <= den /\
  (Z.abs (2 * num - 2 * den * n) = den -> Z.even n = true).
Proof.
  intros Hnum Hden n. subst n.
  rewrite <- round_half_even_nearest by assumption.
  unfold round_half_even.
  pose proof (Z.div_mod num den ltac:(lia)) as Hdm.
  pose proof (Z.mod_pos_bound num den Hden) as Hr.
  set (q := num / den) in *. set (r := num mod den) in *.
  destruct (Z.compare_spec (2 * r) den) as [Heq|Hlt|Hgt].
  - destruct (Z.even q) eqn:Hev.
    + split; [lia|]. intros _. exact Hev.
    + split; [lia|]. intros _. rewrite Z.even_add, Hev. reflexivity.
  - split; [lia|lia].
  - split; [lia|lia].
Qed.

Lemma dec_text_nonempty n : (1 <= String.length (dec_text n))%nat.
Proof.
  unfold dec_text, NilZero.string_of_uint.
  destruct (N.to_uint (Z.to_N n)); cbn [NilEmpty.string_of_uint String.length]; lia.
Qed.

Lemma fixed_digits_0 q : fixed_digits 0 q = dec_text q.
Proof.
  unfold fixed_digits.
  pose proof (dec_text_nonempty q) as Hlen.
  replace (1 - String.length (dec_text q))%nat with 0%nat by lia.
  reflexivity.
Qed.

(** With no fractional digits, the formatter prints the nearest integer. *)
Lemma format_f_0 x : format_f 0 x = integer_text x.
Proof.
  destruct x as [s|s| |s m e]; cbn [format_f integer_text]; try reflexivity.
  rewrite fixed_digits_0. f_equal. f_equal.
  unfold scaled_magnitude, nearest_integer.
  destruct (0 <=? e) eqn:He.
  - change (10 ^ Z.of_nat 0) with 1. lia.
  - change (10 ^ Z.of_nat 0) with 1. rewrite Z.mul_1_r.
    apply round_half_even_nearest; [lia|].
    apply Z.pow_pos_nonneg; lia.
Qed.

Lemma flatten_matrix_spec M :
  flatten_matrix M = join (map integer_text (flat M)).
Proof.
  unfold flatten_matrix. f_equal. apply map_ext. intros x. apply format_f_0.
Qed.

End Fingerprint.

Lemma compute_hash_mod_eq (M : matrix) (m : Z) :
  m <> 0 -> compute_hash_mod M m = Ok (fingerprint_spec M m).
Proof.
  intros Hm. unfold compute_hash_mod, fingerprint_spec.
  rewrite flatten_matrix_spec.
  rewrite encode_ascii7.
  - rewrite int_of_hexdigest. cbn [mbind result_bind].
    unfold py_mod. destruct (Z.eqb_spec m 0); [contradiction|reflexivity].
  - apply ascii7_join. intros p Hp.
    apply in_map_iff in Hp as [x [<- _]]. apply ascii7_integer_text.
Qed.

Lemma compute_hash_mod_range (M : matrix) (m f : Z) :
  0 < m -> compute_hash_mod M m = Ok f -> 0 <= f < m.
Proof.
  intros Hm Hf. rewrite compute_hash_mod_eq in Hf by lia.
  injection Hf as <-. unfold fingerprint_spec. apply Z.mod_pos_bound, Hm.
Qed.

(** Row-major order: with [c] columns, entry [(i, j)] is number
    [i * c + j] of [matrix.flat]. *)
Lemma flat_row_major (M : matrix) (c : nat) :
  Forall (fun row => length row = c) M ->
  length (flat M) = (length M * c)%nat /\
  forall i j, (j < c)%nat ->
    flat M !! (i * c + j)%nat = M !! i ≫= (.!! j).
Proof.
  unfold flat. induction 1 as [|row M Hrow _ [IHlen IH]].
  - split; [reflexivity|]. intros i j _. reflexivity.
  - cbn [concat length]. rewrite length_app, IHlen, Hrow.
    split; [reflexivity|]. intros [|i] j Hj.
    + cbn [Nat.mul Nat.add]. rewrite lookup_app_l by lia. reflexivity.
    + rewrite lookup_app_r by (rewrite Hrow; cbn [Nat.mul]; lia).
      replace (S i * c + j - length row)%nat with (i * c + j)%nat
        by (rewrite Hrow; cbn [Nat.mul]; lia).
      rewrite IH by exact Hj. reflexivity.
Qed.

(** C3. For every matrix and every modulus [m > 0], [compute_hash_mod]
    returns the SHA-256 digest of the bytes of the concatenated
    nearest-integer texts of the entries (row-major, no separator), read as
    a big-endian integer and reduced modulo [m]; the result lies in
    [0, m). Row-major means that entry [(i, j)] of a matrix with [c]
    columns is number [i * c + j] of the entries that are printed. The
    integer printed for a finite entry of magnitude [mant * 2^e] is that
    magnitude itself when [e >= 0], and otherwise lies within one half of
    it, the even neighbour being taken on a tie. The digest function is
    SHA-256: it gives the standard's digests of the empty message, of
    "abc" and of the standard's two-block message. *)
Theorem compute_hash_mod_spec (M : matrix) (m : Z) :
  0 < m ->
  compute_hash_mod M m = Ok (fingerprint_spec M m) /\
  0 <= fingerprint_spec M m < m /\
  flatten_matrix M = join (map integer_text (flat M)) /\
  (forall c, Forall (fun row => length row = c) M ->
     length (flat M) = (length M * c)%nat /\
     forall i j, (j < c)%nat ->
       flat M !! (i * c + j)%nat = M !! i ≫= (.!! j)) /\
  (forall mant e, 0 <= e -> nearest_integer mant e = Z.pos mant * 2 ^ e) /\
  (forall mant e, e < 0 ->
     let n := nearest_integer mant e in
     let gap := Z.abs (2 * Z.pos mant - 2 * 2 ^ (- e) * n) in
     gap <= 2 ^ (- e) /\ (gap = 2 ^ (- e) -> Z.even n = true)) /\
  hex_of_bytes (sha256 (list_byte_of_string "")) =
    "e3b0c44298fc1c149afbf4c8996fb92427ae41e4649b934ca495991b7852b855" /\
  hex_of_bytes (sha256 (list_byte_of_string "abc")) =
    "ba7816bf8f01cfea414140de5dae2223b00361a396177a9cb410ff61f20015ad" /\
  hex_of_bytes
    (sha256 (list_byte_of_string
               "abcdbcdecdefdefgefghfghighijhijkijkljklmklmnlmnomnopnopq")) =
    "248d6a61d20638b8e5c026930c3e6039a33ce45964ff2167f6ecedd419db06c1".
Proof.
  intros Hm. split; [|split; [|split; [|split; [|split; [|split]]]]].
  - apply compute_hash_mod_eq. lia.
  - unfold fingerprint_spec. apply Z.mod_pos_bound. exact Hm.
  - apply flatten_matrix_spec.
  - intros c. apply flat_row_major.
  - intros mant e He. unfold nearest_integer.
    destruct (Z.leb_spec 0 e); [reflexivity|lia].
  - intros mant e He. unfold nearest_integer.
    destruct (Z.leb_spec 0 e); [lia|].
    apply nearest_even_spec; [lia|]. apply Z.pow_pos_nonneg; lia.
  - split; [|split]; vm_compute; reflexivity.
Qed.

(** The matrix [[2.5, 3.5], [-0.4, 1000.0]] prints as [24-01000]: both
    ties go to the even neighbour and the sign of the third entry
    survives its rounding to zero. *)
Lemma compute_hash_mod_spec_witness :
  0 < 10 ^ 7 /\
  flatten_matrix
    [[S754_finite false 5629499534213120 (-51);
      S754_finite false 7881299347898368 (-51)];
     [S754_finite true 7205759403792794 (-54); float_of_Z 1000]] =
    "24-01000" /\
  compute_hash_mod
    [[S754_finite false 5629499534213120 (-51);
      S754_finite false 7881299347898368 (-51)];
     [S754_finite true 7205759403792794 (-54); float_of_Z 1000]]
    (10 ^ 7) = Ok 2353433 /\
  compute_hash_mod
    [[float_of_Z 1; float_of_Z 2]; [float_of_Z 3; float_of_Z 4]] (10 ^ 7) =
    Ok 6371700.
Proof.
  assert (Hm : 0 < 10 ^ 7) by lia.
  split; [exact Hm|]. split; [vm_compute; reflexivity|].
  split.
  - rewrite (proj1 (compute_hash_mod_spec _ (10 ^ 7) Hm)).
    vm_compute. reflexivity.
  - rewrite (proj1 (compute_hash_mod_spec _ (10 ^ 7) Hm)).
    vm_compute. reflexivity.
Defined.

(** ** The task client, outcome by outcome *)

Ltac run_io :=
  cbv [mbind io_bind result_bind lift mret io_ret result_ret try_except
       now_ms time_time print sleep_ms append_expired post_fetch post_submit
       set_fetch_script set_submit_script set_ticks set_sent set_sleeps
       set_expired_file set_console fetched submitted log pause
       next_fetch next_submit
       clock ticks fetch_script submit_script sent sleeps expired_file console].

Section Client.

Lemma fetch_task_eq token w :
  fetch_task token w =
    match classify_fetch (next_fetch w) with
    | AuthExpired =>
        (Ok (JNull, false, false),
         set_expired_file (expired_file w ++ [(token ++ newline)%string])
           (log [LogJwtExpired (tok8 token)] (fetched token w)))
    | RateLimited =>
        (Ok (JNull, false, true),
         log [LogFetch429 (tok8 token)] (fetched token w))
    | Success task => (Ok (task, true, false), fetched token w)
    | GenericFailure None => (Ok (JNull, false, false), fetched token w)
    | GenericFailure (Some e) =>
        (Ok (JNull, false, false),
         log [LogFetchError (tok8 token) e] (fetched token w))
    end.
Proof.
  destruct w as [fs ss clk tk snt sl ex con].
  unfold fetch_task. run_io.
  destruct fs as [|[data|e] fs]; cbn [tail classify_fetch]; try reflexivity.
  destruct data as [| | | | |fields]; cbn [py_get]; try reflexivity.
  destruct (eq_str _ "jwt auth err"); [reflexivity|].
  destruct (eq_int _ (-429)); [reflexivity|].
  destruct (eq_int _ 0); [|reflexivity].
  cbn [py_getitem]. destruct (assoc "data" fields); reflexivity.
Qed.

Lemma submit_results_eq token r1 r2 task_id w s2 :
  format_num 10 r2 = Ok s2 ->
  submit_results token r1 r2 task_id w =
    let w1 := submitted token (payload (format_f 10 r1) s2 task_id) w in
    match classify_submit (next_submit w) with
    | SubmitRateLimited =>
        (Ok (false, true), log [LogSubmit429 (tok8 token)] w1)
    | Accepted loops =>
        (Ok (true, false), log [LogSubmitOK (tok8 token) loops] w1)
    | Rejected data =>
        (Ok (false, false), log [LogSubmitFailed (tok8 token) data] w1)
    | SubmitFailure e =>
        (Ok (false, false), log [LogSubmitError (tok8 token) e] w1)
    end.
Proof.
  intros Hs2.
  destruct w as [fs ss clk tk snt sl ex con].
  unfold submit_results. cbn [format_num]. rewrite Hs2. run_io.
  unfold payload.
  destruct ss as [|[data|e] ss]; cbn [tail classify_submit]; try reflexivity.
  destruct data as [| | | | |fields]; cbn [py_get]; try reflexivity.
  destruct (from_option id (JObj []) (assoc "data" fields))
    as [| | | | |inner]; cbn [py_get]; try reflexivity.
  destruct (eq_int _ (-429)); [reflexivity|].
  destruct (eq_int _ 0); cbn [andb]; [|reflexivity].
  destruct (truthy _); reflexivity.
Qed.

End Client.

(** ** The compute pipeline *)

Section Pipeline.

(** Once the fingerprint is known, [process_task] reads the clock twice
    and returns the derived values, or logs the exception of the
    division and returns [None]. *)
Lemma process_task_eq token td f w :
  task_fingerprint td = Ok f ->
  process_task token td w =
    match submission_values (stamp w (ticks w)) (stamp w (S (ticks w))) f with
    | Ok v => (Ok (Some v), set_ticks (S (S (ticks w))) w)
    | Raise e =>
        (Ok None,
         log [LogComputeError (tok8 token) e] (set_ticks (S (S (ticks w))) w))
    end.
Proof.
  intros Hf. unfold task_fingerprint in Hf.
  cbv [mbind result_bind] in Hf.
  destruct w as [fs ss clk tk snt sl ex con].
  unfold process_task, submission_values, stamp.
  destruct (py_getitem td "seed1") as [sv1|]; [|discriminate].
  destruct (py_getitem td "seed2") as [sv2|]; [|discriminate].
  destruct (py_getitem td "matrix_size") as [sz|]; [|discriminate].
  run_io.
  destruct (generate_matrix_on sv1 sz) as [A|]; [|discriminate].
  destruct (generate_matrix_on sv2 sz) as [B|]; [|discriminate].
  destruct (multiply_matrices A B) as [C|]; [|discriminate].
  rewrite Hf.
  destruct (float_div_int _ f) as [r1|]; [|reflexivity].
  destruct (negb _).
  - destruct (int_div_float f _) as [x|]; [|reflexivity].
    destruct (float_div_int _ 1000); reflexivity.
  - destruct (float_div_int _ 1000); reflexivity.
Qed.

End Pipeline.

(** ** Binary64 facts the pipeline relies on *)

Section Binary64.

Lemma digits2_pos_bounds m :
  2 ^ (Z.pos (digits2_pos m) - 1) <= Z.pos m < 2 ^ Z.pos (digits2_pos m).
Proof.
  induction m as [m IH|m IH|]; cbn [digits2_pos].
  - rewrite Pos2Z.inj_succ. change (Z.pos m~1) with (2 * Z.pos m + 1).
    replace (Z.succ (Z.pos (digits2_pos m)) - 1)
      with (Z.succ (Z.pos (digits2_pos m) - 1)) by lia.
    rewrite !Z.pow_succ_r by lia. lia.
  - rewrite Pos2Z.inj_succ. change (Z.pos m~0) with (2 * Z.pos m).
    replace (Z.succ (Z.pos (digits2_pos m)) - 1)
      with (Z.succ (Z.pos (digits2_pos m) - 1)) by lia.
    rewrite !Z.pow_succ_r by lia. lia.
  - cbn. lia.
Qed.

(** The digit count is determined by the bounds. *)
Lemma digits2_pos_unique m d :
  2 ^ (d - 1) <= Z.pos m < 2 ^ d -> Z.pos (digits2_pos m) = d.
Proof.
  intros [Hlo Hhi]. pose proof (digits2_pos_bounds m) as [Hlo' Hhi'].
  set (d' := Z.pos (digits2_pos m)) in *.
  assert (Hd' : 0 < d') by (subst d'; lia).
  destruct (Z.lt_trichotomy d d') as [Hlt|[Heq|Hgt]]; [|exact (eq_sym Heq)|].
  - assert (2 ^ d <= 2 ^ (d' - 1)).
    { destruct (Z.le_gt_cases 0 d).
      - apply Z.pow_le_mono_r; lia.
      - rewrite (Z.pow_neg_r 2 d) by lia. apply Z.pow_nonneg. lia. }
    lia.
  - assert (2 ^ d' <= 2 ^ (d - 1)) by (apply Z.pow_le_mono_r; lia). lia.
Qed.

Lemma iter_xO_value m k : Z.pos (Pos.iter xO m k) = Z.pos m * 2 ^ Z.pos k.
Proof.
  induction k as [|k IH] using Pos.peano_ind.
  - cbn [Pos.iter]. change (Z.pos m~0) with (2 * Z.pos m). change (2 ^ 1) with 2. lia.
  - rewrite Pos.iter_succ.
    change (Z.pos (Pos.iter xO m k)~0) with (2 * Z.pos (Pos.iter xO m k)).
    rewrite IH, Pos2Z.inj_succ, Z.pow_succ_r by lia. lia.
Qed.

(** Aligning a mantissa to a lower exponent multiplies it by a power of
    two. *)
Lemma shl_align_value m e e' :
  e' <= e ->
  Z.pos (fst (shl_align m e e')) = Z.pos m * 2 ^ (e - e') /\
  snd (shl_align m e e') = e'.
Proof.
  intros Hle. unfold shl_align.
  destruct (e' - e) as [|k|k] eqn:Hk; cbn [fst snd].
  - replace (e - e') with 0 by lia. split; lia.
  - lia.
  - rewrite iter_xO_value. replace (e - e') with (Z.pos k) by lia. split; lia.
Qed.

Lemma shl_align_keep m e e' : e <= e' -> shl_align m e e' = (m, e).
Proof.
  intros Hle. unfold shl_align. destruct (e' - e) eqn:Hk; try reflexivity. lia.
Qed.

Lemma shr_1_m mrs : 0 <= shr_m mrs -> shr_m (shr_1 mrs) = shr_m mrs / 2.
Proof.
  destruct mrs as [m r s]. cbn [shr_m]. intros Hm.
  destruct m as [|p|p]; [reflexivity| |lia].
  destruct p as [p|p|]; cbn [shr_1 shr_m].
  - change (Z.pos p~1) with (2 * Z.pos p + 1).
    apply (Z.div_unique _ _ _ 1); lia.
  - change (Z.pos p~0) with (2 * Z.pos p).
    apply (Z.div_unique _ _ _ 0); lia.
  - reflexivity.
Qed.

Lemma shr_iter_m p : forall mrs,
  0 <= shr_m mrs ->
  shr_m (SpecFloat.iter_pos shr_1 p mrs) = shr_m mrs / 2 ^ Z.pos p.
Proof.
  induction p as [p IH|p IH|]; intros mrs Hm; cbn [SpecFloat.iter_pos].
  - assert (H1 : 0 <= shr_m (shr_1 mrs))
      by (rewrite shr_1_m by exact Hm; apply Z.div_pos; lia).
    assert (H2 : 0 <= shr_m (SpecFloat.iter_pos shr_1 p (shr_1 mrs)))
      by (rewrite IH by exact H1; apply Z.div_pos;
          [exact H1 | apply Z.pow_pos_nonneg; lia]).
    rewrite IH by exact H2. rewrite IH by exact H1. rewrite shr_1_m by exact Hm.
    assert (Hp : 0 < 2 ^ Z.pos p) by (apply Z.pow_pos_nonneg; lia).
    rewrite !Z.div_div by lia.
    f_equal. change (Z.pos p~1) with (2 * Z.pos p + 1).
    replace (2 * Z.pos p + 1) with (1 + Z.pos p + Z.pos p) by lia.
    rewrite !Z.pow_add_r by lia. lia.
  - assert (H2 : 0 <= shr_m (SpecFloat.iter_pos shr_1 p mrs))
      by (rewrite IH by exact Hm; apply Z.div_pos;
          [exact Hm | apply Z.pow_pos_nonneg; lia]).
    rewrite IH by exact H2. rewrite IH by exact Hm.
    assert (Hp : 0 < 2 ^ Z.pos p) by (apply Z.pow_pos_nonneg; lia).
    rewrite !Z.div_div by lia.
    f_equal. change (Z.pos p~0) with (2 * Z.pos p).
    replace (2 * Z.pos p) with (Z.pos p + Z.pos p) by lia.
    rewrite !Z.pow_add_r by lia. lia.
  - apply shr_1_m. exact Hm.
Qed.

(** Shifting right by fewer places than the mantissa has digits leaves a
    positive mantissa. *)
Lemma shr_keeps_positive m l e n :
  n < Z.pos (digits2_pos m) ->
  0 < shr_m (fst (shr (shr_record_of_loc (Z.pos m) l) e n)) /\
  (snd (shr (shr_record_of_loc (Z.pos m) l) e n) = e \/
   0 < n /\ snd (shr (shr_record_of_loc (Z.pos m) l) e n) = e + n).
Proof.
  intros Hn.
  assert (Hm : shr_m (shr_record_of_loc (Z.pos m) l) = Z.pos m)
    by (destruct l as [|[]]; reflexivity).
  unfold shr. destruct n as [|p|p]; cbn [fst snd].
  - rewrite Hm. split; [lia|left; reflexivity].
  - split; [|right; split; [lia|reflexivity]].
    rewrite shr_iter_m by (rewrite Hm; lia). rewrite Hm.
    pose proof (digits2_pos_bounds m) as [Hlo _].
    assert (2 ^ Z.pos p <= 2 ^ (Z.pos (digits2_pos m) - 1))
      by (apply Z.pow_le_mono_r; lia).
    assert (0 < 2 ^ Z.pos p) by (apply Z.pow_pos_nonneg; lia).
    apply Z.div_str_pos. lia.
  - rewrite Hm. split; [lia|left; reflexivity].
Qed.

Lemma fexp_shift d e :
  0 < d -> emin prec emax <= e -> fexp prec emax (d + e) - e < d.
Proof.
  intros Hd He. unfold fexp, emin, prec, emax in *. lia.
Qed.

Lemma shr_fexp_positive m e l :
  emin prec emax <= e ->
  0 < shr_m (fst (shr_fexp prec emax (Z.pos m) e l)) /\
  emin prec emax <= snd (shr_fexp prec emax (Z.pos m) e l).
Proof.
  intros He. unfold shr_fexp. cbn [Zdigits2].
  pose proof (shr_keeps_positive m l e
                (fexp prec emax (Z.pos (digits2_pos m) + e) - e)
                (fexp_shift (Z.pos (digits2_pos m)) e ltac:(lia) He)) as [Hpos Hexp].
  split; [exact Hpos|]. destruct Hexp as [->|[Hn ->]]; lia.
Qed.

Lemma round_nearest_even_ge m l : m <= round_nearest_even m l.
Proof. destruct l as [|[]]; cbn [round_nearest_even]; try destruct (Z.even m); lia. Qed.

(** Rounding a non-zero mantissa at an exponent not below the smallest
    one never gives zero or NaN. *)
Lemma binary_round_aux_nonzero s m e l :
  emin prec emax <= e ->
  (exists m' e', binary_round_aux prec emax s (Z.pos m) e l = S754_finite s m' e') \/
  binary_round_aux prec emax s (Z.pos m) e l = S754_infinity s.
Proof.
  intros He. unfold binary_round_aux.
  pose proof (shr_fexp_positive m e l He) as [Hpos He'].
  destruct (shr_fexp prec emax (Z.pos m) e l) as [mrs' e'].
  cbn [fst snd] in Hpos, He'.
  pose proof (round_nearest_even_ge (shr_m mrs') (loc_of_shr_record mrs')) as Hge.
  destruct (round_nearest_even (shr_m mrs') (loc_of_shr_record mrs'))
    as [|m1|m1]; try lia.
  pose proof (shr_fexp_positive m1 e' loc_Exact He') as [Hpos' _].
  destruct (shr_fexp prec emax (Z.pos m1) e' loc_Exact) as [mrs'' e''].
  cbn [fst] in Hpos'.
  destruct (shr_m mrs'') as [|m2|m2]; try lia.
  destruct (e'' <=? emax - prec); [left; eauto|right; reflexivity].
Qed.

Lemma binary_round_nonzero s m e :
  emin prec emax <= e ->
  (exists m' e', binary_round prec emax s m e = S754_finite s m' e') \/
  binary_round prec emax s m e = S754_infinity s.
Proof.
  intros He. unfold binary_round.
  set (e1 := fexp prec emax (Z.pos (digits2_pos m) + e)).
  assert (He1 : emin prec emax <= e1) by (subst e1; unfold fexp; lia).
  destruct (Z.le_gt_cases e e1) as [Hle|Hgt].
  - rewrite shl_align_keep by exact Hle. apply binary_round_aux_nonzero, He.
  - pose proof (shl_align_value m e e1 ltac:(lia)) as [_ Hsnd].
    destruct (shl_align m e e1) as [mz ez]. cbn [snd] in Hsnd. subst ez.
    apply binary_round_aux_nonzero, He1.
Qed.


Lemma binary_round_aux_canonical s m e :
  bounded prec emax m e = true ->
  binary_round_aux prec emax s (Z.pos m) e loc_Exact = S754_finite s m e.
Proof.
  unfold bounded, canonical_mantissa. intros Hb.
  apply andb_true_iff in Hb as [Hc Hle]. apply Z.eqb_eq in Hc.
  unfold binary_round_aux, shr_fexp. cbn [Zdigits2].
  rewrite Hc, Z.sub_diag.
  cbn [shr shr_record_of_loc shr_m loc_of_shr_record round_nearest_even Zdigits2].
  rewrite Hc, Z.sub_diag. cbn [shr shr_m]. rewrite Hle. reflexivity.
Qed.

(** An integer below [2^53] converts exactly, to a finite non-zero
    float. *)
Lemma float_of_Z_small z :
  0 < z < 2 ^ 53 -> exists m e, float_of_Z z = S754_finite false m e.
Proof.
  intros [Hpos Hlt]. destruct z as [|p|p]; try lia.
  unfold float_of_Z, binary_normalize, binary_round.
  pose proof (digits2_pos_bounds p) as [Hlo Hhi].
  set (d := Z.pos (digits2_pos p)) in *.
  assert (Hd : 0 < d <= 53).
  { split; [subst d; lia|].
    destruct (Z.le_gt_cases d 53) as [H|H]; [exact H|].
    assert (2 ^ 53 <= 2 ^ (d - 1)) by (apply Z.pow_le_mono_r; lia). lia. }
  assert (He1 : fexp prec emax (d + 0) = d - 53)
    by (unfold fexp, emin, prec, emax; lia).
  rewrite He1.
  destruct (Z.eq_dec d 53) as [Heq|Hne].
  - rewrite shl_align_keep by lia.
    exists p, 0. apply binary_round_aux_canonical.
    unfold bounded, canonical_mantissa. fold d.
    apply andb_true_iff. split; [apply Z.eqb_eq|apply Z.leb_le];
      unfold fexp, emin, prec, emax; lia.
  - pose proof (shl_align_value p 0 (d - 53) ltac:(lia)) as [Hval Hsnd].
    destruct (shl_align p 0 (d - 53)) as [mz ez]. cbn [fst snd] in Hval, Hsnd.
    subst ez. exists mz, (d - 53). apply binary_round_aux_canonical.
    assert (Hdz : Z.pos (digits2_pos mz) = 53).
    { apply digits2_pos_unique. rewrite Hval.
      replace (0 - (d - 53)) with (53 - d) by lia.
      assert (Hp : 0 < 2 ^ (53 - d)) by (apply Z.pow_pos_nonneg; lia).
      assert (H52 : 2 ^ (d - 1) * 2 ^ (53 - d) = 2 ^ (53 - 1))
        by (rewrite <- Z.pow_add_r by lia; f_equal; lia).
      assert (H53 : 2 ^ d * 2 ^ (53 - d) = 2 ^ 53)
        by (rewrite <- Z.pow_add_r by lia; f_equal; lia).
      nia. }
    unfold bounded, canonical_mantissa. rewrite Hdz.
    apply andb_true_iff. split; [apply Z.eqb_eq|apply Z.leb_le];
      unfold fexp, emin, prec, emax; lia.
Qed.

Lemma py_float_small_int z :
  0 < z < 2 ^ 53 ->
  py_float z = Ok (float_of_Z z) /\ feqb (float_of_Z z) fzero = false.
Proof.
  intros Hz. destruct (float_of_Z_small z Hz) as (m & e & Heq).
  unfold py_float. rewrite Heq. split; reflexivity.
Qed.

Lemma canonical_exponent m e :
  bounded prec emax m e = true ->
  fexp prec emax (Z.pos (digits2_pos m) + e) = e /\ emin prec emax <= e.
Proof.
  unfold bounded, canonical_mantissa. intros Hb.
  apply andb_true_iff in Hb as [Hc _]. apply Z.eqb_eq in Hc.
  split; [exact Hc|]. rewrite <- Hc. unfold fexp. lia.
Qed.

(** Two canonical floats whose aligned mantissas coincide are the same
    float. *)
Lemma aligned_equal mx ex my ey :
  bounded prec emax mx ex = true ->
  bounded prec emax my ey = true ->
  ex <= ey ->
  Z.pos mx = Z.pos my * 2 ^ (ey - ex) ->
  ex = ey /\ mx = my.
Proof.
  intros Hbx Hby Hle Hval.
  destruct (canonical_exponent _ _ Hbx) as [Hcx _].
  destruct (canonical_exponent _ _ Hby) as [Hcy _].
  pose proof (digits2_pos_bounds my) as [Hlo Hhi].
  set (dy := Z.pos (digits2_pos my)) in *.
  assert (Hdy : 0 < dy) by (subst dy; lia).
  assert (Hdx : Z.pos (digits2_pos mx) = dy + (ey - ex)).
  { apply digits2_pos_unique. rewrite Hval.
    assert (Hp : 0 < 2 ^ (ey - ex)) by (apply Z.pow_pos_nonneg; lia).
    replace (dy + (ey - ex) - 1) with ((dy - 1) + (ey - ex)) by lia.
    rewrite !Z.pow_add_r by lia. nia. }
  rewrite Hdx in Hcx.
  replace (dy + (ey - ex) + ex) with (dy + ey) in Hcx by lia.
  assert (Heq : ex = ey) by congruence.
  split; [exact Heq|].
  rewrite Heq, Z.sub_diag in Hval. change (2 ^ 0) with 1 in Hval. lia.
Qed.

Lemma SFeqb_finite_inv sx mx ex sy my ey :
  SFeqb (S754_finite sx mx ex) (S754_finite sy my ey) = true ->
  sx = sy /\ ex = ey /\ mx = my.
Proof.
  unfold SFeqb, SFcompare.
  destruct sx, sy; try discriminate;
    destruct (Z.compare_spec ex ey) as [He|He|He]; try discriminate;
    fold (Pos.compare mx my);
    destruct (Pos.compare_spec mx my) as [Hm|Hm|Hm]; try discriminate;
    intros _; auto.
Qed.

Lemma SFeqb_finite_refl s m e :
  SFeqb (S754_finite s m e) (S754_finite s m e) = true.
Proof.
  unfold SFeqb, SFcompare. rewrite Z.compare_refl.
  fold (Pos.compare m m). rewrite Pos.compare_refl. destruct s; reflexivity.
Qed.

(** On finite binary64 numbers, the difference is zero exactly when the
    operands compare equal. *)
Lemma fsub_zero_iff x y :
  finite64 x = true -> finite64 y = true ->
  feqb (fsub x y) fzero = feqb x y.
Proof.
  unfold finite64. intros Hx Hy.
  apply andb_true_iff in Hx as [Hfx Hvx].
  apply andb_true_iff in Hy as [Hfy Hvy].
  destruct x as [sx|sx| |sx mx ex]; try discriminate;
    destruct y as [sy|sy| |sy my ey]; try discriminate.
  - destruct sx, sy; reflexivity.
  - destruct sy; reflexivity.
  - destruct sx; reflexivity.
  - cbn [valid_binary] in Hvx, Hvy.
    destruct (canonical_exponent _ _ Hvx) as [_ Hex].
    destruct (canonical_exponent _ _ Hvy) as [_ Hey].
    unfold fsub, SFsub, feqb.
    set (ez := Z.min ex ey).
    assert (Hez : emin prec emax <= ez) by (subst ez; lia).
    pose proof (shl_align_value mx ex ez ltac:(subst ez; lia)) as [Hvx' _].
    pose proof (shl_align_value my ey ez ltac:(subst ez; lia)) as [Hvy' _].
    set (ax := fst (shl_align mx ex ez)) in *.
    set (ay := fst (shl_align my ey ez)) in *.
    destruct (SFeqb (S754_finite sx mx ex) (S754_finite sy my ey)) eqn:Heq.
    + apply SFeqb_finite_inv in Heq as (-> & -> & ->).
      replace (cond_Zopp sy (Z.pos ax) - cond_Zopp sy (Z.pos ay)) with 0
        by (destruct sy; cbn [cond_Zopp]; lia).
      reflexivity.
    + destruct (cond_Zopp sx (Z.pos ax) - cond_Zopp sy (Z.pos ay))
        as [|d|d] eqn:Hd; cbn [binary_normalize].
      * exfalso.
        assert (Hs : sx = sy)
          by (destruct sx, sy; cbn [cond_Zopp] in Hd; try reflexivity; lia).
        subst sy.
        assert (Ha : Z.pos ax = Z.pos ay)
          by (destruct sx; cbn [cond_Zopp] in Hd; lia).
        assert (ex = ey /\ mx = my) as [-> ->].
        { destruct (Z.le_ge_cases ex ey) as [Hle|Hge].
          - apply (aligned_equal mx ex my ey Hvx Hvy Hle).
            replace ez with ex in * by (subst ez; lia).
            rewrite Z.sub_diag in Hvx'. change (2 ^ 0) with 1 in Hvx'. lia.
          - assert (ey = ex /\ my = mx) as [-> ->]; [|split; reflexivity].
            apply (aligned_equal my ey mx ex Hvy Hvx Hge).
            replace ez with ey in * by (subst ez; lia).
            rewrite Z.sub_diag in Hvy'. change (2 ^ 0) with 1 in Hvy'. lia. }
        rewrite SFeqb_finite_refl in Heq. discriminate.
      * destruct (binary_round_nonzero false d ez Hez) as [(m' & e' & ->)| ->];
          reflexivity.
      * destruct (binary_round_nonzero true d ez Hez) as [(m' & e' & ->)| ->];
          reflexivity.
Qed.

End Binary64.

(** ** One pass of the worker loop *)

Section Pass.

Lemma loop_body_eq token st w :
  loop_body token st w =
    match classify_fetch (next_fetch w) with
    | RateLimited => (Ok (Continue st), pause 3000 (after_fetch token w))
    | Success task => compute_and_submit token st task (after_fetch token w)
    | AuthExpired | GenericFailure _ => (Ok (Break st), after_fetch token w)
    end.
Proof.
  unfold loop_body, after_fetch.
  change ((fetch_task token ≫= ?k) w)
    with (match fetch_task token w with
          | (Ok a, w') => k a w'
          | (Raise e, w') => (Raise e, w')
          end).
  rewrite fetch_task_eq.
  destruct (classify_fetch (next_fetch w)) as [| |task|[e|]];
    try reflexivity.
  unfold compute_and_submit. cbn [negb].
  change ((process_task token task ≫= ?k) ?w1)
    with (match process_task token task w1 with
          | (Ok a, w') => k a w'
          | (Raise e, w') => (Raise e, w')
          end).
  destruct (process_task token task (fetched token w)) as [[[[[r1 r2] dur]|]|e] w1];
    try reflexivity.
  change ((lift ?r ≫= ?k) ?w1)
    with (match r with
          | Ok a => k a w1
          | Raise e => (Raise e, w1)
          end).
  destruct (py_getitem task "task_id") as [task_id|e]; [|reflexivity].
  change ((submit_results token r1 r2 task_id ≫= ?k) ?w1)
    with (match submit_results token r1 r2 task_id w1 with
          | (Ok a, w') => k a w'
          | (Raise e, w') => (Raise e, w')
          end).
  destruct (submit_results token r1 r2 task_id w1) as [[[[|] [|]]|e] w2];
    reflexivity.
Qed.

Lemma submission_values_zero t0 t1 :
  submission_values t0 t1 0 = Raise ZeroDivisionError.
Proof. reflexivity. Qed.

Lemma task_fingerprint_range td f :
  task_fingerprint td = Ok f -> 0 <= f < 10 ^ 7.
Proof.
  unfold task_fingerprint. cbv [mbind result_bind].
  destruct (py_getitem td "seed1") as [sv1|]; [|discriminate].
  destruct (py_getitem td "seed2") as [sv2|]; [|discriminate].
  destruct (py_getitem td "matrix_size") as [sz|]; [|discriminate].
  destruct (generate_matrix_on sv1 sz) as [A|]; [|discriminate].
  destruct (generate_matrix_on sv2 sz) as [B|]; [|discriminate].
  destruct (multiply_matrices A B) as [C|]; [|discriminate].
  apply compute_hash_mod_range. reflexivity.
Qed.

Lemma submission_values_positive t0 t1 f :
  0 < f < 2 ^ 53 ->
  finite64 t0 = true -> finite64 t1 = true ->
  submission_values t0 t1 f =
    Ok (fdiv t0 (float_of_Z f),
        (if feqb t1 t0 then PyInt 0
         else PyFloat (fdiv (float_of_Z f) (fsub t1 t0))),
        fdiv (fsub t1 t0) (float_of_Z 1000)).
Proof.
  intros Hf Ht0 Ht1.
  destruct (py_float_small_int f Hf) as [Hpf Hnz].
  destruct (py_float_small_int 1000 ltac:(lia)) as [Hp1000 Hnz1000].
  pose proof (fsub_zero_iff t1 t0 Ht1 Ht0) as Hsub.
  unfold submission_values, float_div_int, int_div_float.
  rewrite Hpf, Hp1000. cbv [mbind result_bind].
  rewrite Hnz, Hnz1000, Hsub.
  destruct (feqb t1 t0); reflexivity.
Qed.

End Pass.

(** ** Claims about the compute pipeline *)

(** C1. A task whose fingerprint is 0 makes [process_task] log a compute
    error (the division raises) and return [None], in whatever world it
    runs: no value, infinite or NaN, is produced for [result_1]. The
    worker loop counts one failure for it ([fail] goes up by one, the
    other counters stay), posts nothing, and goes on to the next pass,
    that is, to the next fetch. *)
Theorem zero_fingerprint_is_compute_error token st task w :
  classify_fetch (next_fetch w) = Success task ->
  task_fingerprint task = Ok 0 ->
  (forall w0,
     process_task token task w0 =
       (Ok None,
        log [LogComputeError (tok8 token) ZeroDivisionError]
          (set_ticks (S (S (ticks w0))) w0))) /\
  (let w' := log [LogComputeError (tok8 token) ZeroDivisionError]
               (set_ticks (S (S (ticks w))) (fetched token w)) in
   let st' := mk_stats (success st) (fail st + 1) (total st)
                (total_time st) in
   loop_body token st w = (Ok (Continue st'), w') /\
   sent w' = sent w ++ [mk_request token (JObj [])] /\
   console w' =
     console w ++ [LogComputeError (tok8 token) ZeroDivisionError] /\
   sleeps w' = sleeps w /\
   forall fuel,
     iterate (S fuel) token st w = iterate fuel token st' w').
Proof.
  intros Hfetch Hzero.
  assert (Hproc : forall w0,
     process_task token task w0 =
       (Ok None,
        log [LogComputeError (tok8 token) ZeroDivisionError]
          (set_ticks (S (S (ticks w0))) w0))).
  { intros w0. rewrite (process_task_eq token task 0 w0 Hzero).
    rewrite submission_values_zero. reflexivity. }
  split; [exact Hproc|].
  assert (Hbody : loop_body token st w =
            (Ok (Continue (count_failure st)),
             log [LogComputeError (tok8 token) ZeroDivisionError]
               (set_ticks (S (S (ticks w))) (fetched token w)))).
  { rewrite loop_body_eq. unfold after_fetch. rewrite Hfetch.
    unfold compute_and_submit. rewrite Hproc.
    destruct w; reflexivity. }
  split; [exact Hbody|].
  split; [destruct w; reflexivity|].
  split; [destruct w; reflexivity|].
  split; [destruct w; reflexivity|].
  intros fuel. cbn [iterate]. rewrite Hbody. reflexivity.
Qed.

Lemma zero_fingerprint_is_compute_error_witness :
  classify_fetch (next_fetch (sample_world [answer_task zero_task] [])) =
    Success zero_task /\
  task_fingerprint zero_task = Ok 0 /\
  loop_body sample_token initial_stats
      (sample_world [answer_task zero_task] []) =
    (Ok (Continue (mk_stats 0 1 0 fzero)),
     mk_world [] [] sample_clock 2 [mk_request sample_token (JObj [])] [] []
       [LogComputeError "tok-0001" ZeroDivisionError]).
Proof.
  assert (H1 : classify_fetch
                 (next_fetch (sample_world [answer_task zero_task] [])) =
               Success zero_task) by reflexivity.
  assert (H2 : task_fingerprint zero_task = Ok 0)
    by (vm_compute; reflexivity).
  split; [exact H1|]. split; [exact H2|].
  exact (proj1 (proj2 (zero_fingerprint_is_compute_error
                         sample_token initial_stats zero_task
                         (sample_world [answer_task zero_task] []) H1 H2))).
Defined.

(** ** Frames: what each step leaves alone *)

Section Frames.

Lemma tally_app p l1 l2 : tally p (l1 ++ l2) = tally p l1 + tally p l2.
Proof.
  induction l1 as [|l l1 IH]; [reflexivity|].
  rewrite <- app_comm_cons. cbn [tally]. rewrite IH. lia.
Qed.

Lemma tally_snoc p l x :
  tally p (l ++ [x]) = tally p l + (if p x then 1 else 0).
Proof. rewrite tally_app. cbn [tally]. lia. Qed.

(** A result of [submission_values] can always be formatted. *)
Lemma submission_values_format t0 t1 f r1 r2 dur :
  submission_values t0 t1 f = Ok (r1, r2, dur) ->
  exists s2, format_num 10 r2 = Ok s2.
Proof.
  unfold submission_values. cbv [mbind result_bind].
  destruct (float_div_int t0 f); [|discriminate].
  destruct (negb _).
  - destruct (int_div_float f _); [|discriminate].
    destruct (float_div_int _ 1000); [|discriminate].
    intros [= <- <- <-]. eexists. reflexivity.
  - destruct (float_div_int _ 1000); [|discriminate].
    intros [= <- <- <-]. eexists. reflexivity.
Qed.

(** [process_task] by cases, with the shape of what it returns. *)
Lemma process_task_cases token td w :
  (exists e, process_task token td w = (Raise e, w)) \/
  (exists e n,
     process_task token td w =
       (Ok None, log [LogComputeError (tok8 token) e] (set_ticks (ticks w + n) w))) \/
  (exists r1 r2 dur s2,
     process_task token td w =
       (Ok (Some (r1, r2, dur)), set_ticks (S (S (ticks w))) w) /\
     format_num 10 r2 = Ok s2).
Proof.
  destruct w as [fs ss clk tk snt sl ex con].
  unfold process_task.
  destruct (py_getitem td "seed1") as [sv1|e];
    [|left; exists e; reflexivity].
  destruct (py_getitem td "seed2") as [sv2|e];
    [|left; exists e; reflexivity].
  destruct (py_getitem td "matrix_size") as [sz|e];
    [|left; exists e; reflexivity].
  right. run_io.
  assert (H1 : (tk + 1 = S tk)%nat) by lia.
  assert (H2 : (tk + 2 = S (S tk))%nat) by lia.
  destruct (generate_matrix_on sv1 sz) as [A|e];
    [|left; exists e, 1%nat; rewrite H1; reflexivity].
  destruct (generate_matrix_on sv2 sz) as [B|e];
    [|left; exists e, 1%nat; rewrite H1; reflexivity].
  destruct (multiply_matrices A B) as [C|e];
    [|left; exists e, 1%nat; rewrite H1; reflexivity].
  destruct (compute_hash_mod C default_mod) as [f|e];
    [|left; exists e, 1%nat; rewrite H1; reflexivity].
  destruct (float_div_int _ f) as [r1|e];
    [|left; exists e, 2%nat; rewrite H2; reflexivity].
  destruct (negb _).
  - destruct (int_div_float f _) as [x|e];
      [|left; exists e, 2%nat; rewrite H2; reflexivity].
    destruct (float_div_int _ 1000) as [d|e];
      [|left; exists e, 2%nat; rewrite H2; reflexivity].
    right. do 4 eexists. split; reflexivity.
  - destruct (float_div_int _ 1000) as [d|e];
      [|left; exists e, 2%nat; rewrite H2; reflexivity].
    right. do 4 eexists. split; reflexivity.
Qed.

(** What a pass with a task in hand can do to the counters, the console
    and the fetch script. *)
Lemma compute_and_submit_effects token st task w step w' :
  compute_and_submit token st task w = (Ok step, w') ->
  fetch_script w' = fetch_script w /\
  exists line,
    console w' = console w ++ [line] /\
    ((is_compute_error line = true /\ step = Continue (count_failure st)) \/
     exists dur,
       (is_submit_429 line = true /\
        step = Continue (count_attempt dur st)) \/
       (is_submit_ok line = true /\
        step = Continue (count_success (count_attempt dur st))) \/
       (is_submit_refused line = true /\
        step = Continue (count_failure (count_attempt dur st)))).
Proof.
  unfold compute_and_submit.
  destruct (process_task_cases token task w)
    as [(e & ->)|[(e & n & ->)|(r1 & r2 & dur & s2 & -> & Hfmt)]].
  - discriminate.
  - intros [= <- <-]. split; [destruct w; reflexivity|].
    exists (LogComputeError (tok8 token) e).
    split; [destruct w; reflexivity|]. left. split; reflexivity.
  - destruct (py_getitem task "task_id") as [task_id|e]; [|discriminate].
    rewrite (submit_results_eq token r1 r2 task_id _ s2 Hfmt). cbv zeta.
    destruct (classify_submit _) as [|loops|data|e];
      intros [= <- <-]; (split; [destruct w; reflexivity|]).
    + exists (LogSubmit429 (tok8 token)).
      split; [destruct w; reflexivity|]. right. exists dur. left.
      split; reflexivity.
    + exists (LogSubmitOK (tok8 token) loops).
      split; [destruct w; reflexivity|]. right. exists dur. right. left.
      split; reflexivity.
    + exists (LogSubmitFailed (tok8 token) data).
      split; [destruct w; reflexivity|]. right. exists dur. right. right.
      split; reflexivity.
    + exists (LogSubmitError (tok8 token) e).
      split; [destruct w; reflexivity|]. right. exists dur. right. right.
      split; reflexivity.
Qed.

End Frames.

(** ** Runs of the worker loop *)

Section Runs.

Lemma after_fetch_console token w :
  exists lines,
    console (after_fetch token w) = console w ++ lines /\
    tally is_submit_line lines = 0 /\ tally is_submit_ok lines = 0 /\
    tally is_compute_error lines = 0 /\ tally is_submit_refused lines = 0.
Proof.
  unfold after_fetch.
  destruct (classify_fetch (next_fetch w)) as [| |task|[e|]].
  - exists [LogJwtExpired (tok8 token)]. split; [destruct w|]; repeat split.
  - exists [LogFetch429 (tok8 token)]. split; [destruct w|]; repeat split.
  - exists []. split; [destruct w; cbn; rewrite app_nil_r|]; repeat split.
  - exists [LogFetchError (tok8 token) e]. split; [destruct w|]; repeat split.
  - exists []. split; [destruct w; cbn; rewrite app_nil_r|]; repeat split.
Qed.

Lemma after_fetch_script token w :
  fetch_script (after_fetch token w) = tail (fetch_script w).
Proof.
  unfold after_fetch.
  destruct (classify_fetch (next_fetch w)) as [| |task|[e|]];
    destruct w; reflexivity.
Qed.

(** A pass preserves the ledger. *)
Lemma loop_body_ledger token st w step w' :
  loop_body token st w = (Ok step, w') ->
  ledger (stats_of step) w' = ledger st w.
Proof.
  rewrite loop_body_eq.
  destruct (after_fetch_console token w)
    as (lines & Hcon & Hl1 & Hl2 & Hl3 & Hl4).
  assert (Hsame : forall st0 w0, console w0 = console w ++ lines ->
                    ledger st0 w0 = ledger st0 w).
  { intros st0 w0 Hw0. unfold ledger. rewrite Hw0, !tally_app. 
    rewrite Hl1, Hl2, Hl3, Hl4. repeat f_equal; lia. }
  destruct (classify_fetch (next_fetch w)) as [| |task|e] eqn:Hc.
  - intros [= <- <-]. apply Hsame, Hcon.
  - intros [= <- <-]. apply Hsame. rewrite <- Hcon.
    destruct (after_fetch token w); reflexivity.
  - intros Hrun.
    apply compute_and_submit_effects in Hrun
      as (_ & line & Hline & Hcases).
    rewrite <- (Hsame st (after_fetch token w) Hcon).
    destruct Hcases as [[Hce ->]|(dur & [[Hl ->]|[[Hl ->]|[Hl ->]]])];
      destruct line; try discriminate;
      unfold ledger; rewrite Hline, !tally_snoc;
      cbv [stats_of count_failure count_attempt count_success
           total success fail is_submit_line is_submit_429 is_submit_ok
           is_submit_refused is_compute_error orb];
      (f_equal; [f_equal|]); lia.
  - intros [= <- <-]. apply Hsame, Hcon.
Qed.

(** A pass that goes on has used up one answer of the fetch script. *)
Lemma loop_body_consumes token st w st' w' :
  loop_body token st w = (Ok (Continue st'), w') ->
  (length (fetch_script w') < length (fetch_script w))%nat.
Proof.
  rewrite loop_body_eq.
  pose proof (after_fetch_script token w) as Hscript.
  assert (Hshort : fetch_script w <> [] ->
            (length (tail (fetch_script w)) < length (fetch_script w))%nat)
    by (destruct (fetch_script w); [congruence|cbn; lia]).
  destruct (classify_fetch (next_fetch w)) as [| |task|e] eqn:Hc;
    try discriminate.
  - intros [= <- <-].
    replace (fetch_script (pause 3000 (after_fetch token w)))
      with (fetch_script (after_fetch token w))
      by (destruct (after_fetch token w); reflexivity).
    rewrite Hscript. apply Hshort. intros Hnil.
    unfold next_fetch in Hc. rewrite Hnil in Hc. discriminate.
  - intros Hrun. apply compute_and_submit_effects in Hrun as (-> & _).
    rewrite Hscript. apply Hshort. intros Hnil.
    unfold next_fetch in Hc. rewrite Hnil in Hc. discriminate.
Qed.

(** The loop ends within one pass more than the fetch script is long. *)
Lemma iterate_total token : forall fuel st w,
  (length (fetch_script w) < fuel)%nat ->
  exists r w', iterate fuel token st w = Some (r, w').
Proof.
  induction fuel as [|fuel IH]; intros st w Hfuel; [lia|].
  cbn [iterate].
  destruct (loop_body token st w) as [[[st'|st']|e] w'] eqn:Hbody; eauto.
  apply IH. apply loop_body_consumes in Hbody. lia.
Qed.

Lemma iterate_ledger token : forall fuel st w st' w',
  iterate fuel token st w = Some (Ok st', w') ->
  ledger st' w' = ledger st w.
Proof.
  induction fuel as [|fuel IH]; intros st w st' w' Hrun; [discriminate|].
  cbn [iterate] in Hrun.
  destruct (loop_body token st w) as [[[st1|st1]|e] w1] eqn:Hbody.
  - rewrite (IH _ _ _ _ Hrun).
    apply (loop_body_ledger token st w (Continue st1) w1 Hbody).
  - injection Hrun as <- <-.
    apply (loop_body_ledger token st w (Break st1) w1 Hbody).
  - discriminate.
Qed.

(** [worker_loop] unfolded: the start reading, the loop, the report. *)
Lemma worker_loop_eq token w :
  worker_loop token w =
    match iterate (S (length (fetch_script w))) token initial_stats
            (set_ticks (S (ticks w)) w) with
    | Some (Ok st, w2) =>
        Some (Ok st,
              log [LogSummary (tok8 token) (success st) (fail st) (total st)
                     (fsub (clock w2 (ticks w2)) (clock w (ticks w)))
                     (fmul (float_of_Z (success st)) reward)]
                (set_ticks (S (ticks w2)) w2))
    | other => other
    end.
Proof.
  unfold worker_loop, time_time.
  replace (fetch_script (set_ticks (S (ticks w)) w)) with (fetch_script w)
    by (destruct w; reflexivity).
  destruct (iterate _ token initial_stats _) as [[[st|e] w2]|]; reflexivity.
Qed.

Lemma worker_loop_total token w :
  exists r w', worker_loop token w = Some (r, w').
Proof.
  rewrite worker_loop_eq.
  destruct (iterate_total token (S (length (fetch_script w))) initial_stats
              (set_ticks (S (ticks w)) w)) as (r & w2 & ->).
  - destruct w; cbn; lia.
  - destruct r; eauto.
Qed.

Lemma worker_loop_ledger token w st w' :
  worker_loop token w = Some (Ok st, w') ->
  ledger st w' = ledger initial_stats w.
Proof.
  rewrite worker_loop_eq.
  destruct (iterate _ token initial_stats _) as [[[st2|e] w2]|] eqn:Hrun;
    try discriminate.
  intros [= <- <-].
  apply iterate_ledger in Hrun.
  transitivity (ledger st2 w2).
  - unfold ledger. destruct w2; cbn. rewrite !tally_snoc. cbn.
    repeat f_equal; lia.
  - rewrite Hrun. destruct w; reflexivity.
Qed.

End Runs.

(** ** Passes that reach the submission, and runs of backoffs *)

Section Submission.

Lemma loop_body_submit token st w task f r1 r2 dur tid :
  classify_fetch (next_fetch w) = Success task ->
  task_fingerprint task = Ok f ->
  submission_values (stamp w (ticks w)) (stamp w (S (ticks w))) f =
    Ok (r1, r2, dur) ->
  py_getitem task "task_id" = Ok tid ->
  exists s2,
    format_num 10 r2 = Ok s2 /\
    let w2 := posted token (payload (format_f 10 r1) s2 tid) w in
    let st1 := count_attempt dur st in
    loop_body token st w =
      match classify_submit (next_submit w) with
      | SubmitRateLimited =>
          (Ok (Continue st1),
           pause 3000 (log [LogSubmit429 (tok8 token)] w2))
      | Accepted loops =>
          (Ok (Continue (count_success st1)),
           pause 50 (log [LogSubmitOK (tok8 token) loops] w2))
      | Rejected data =>
          (Ok (Continue (count_failure st1)),
           pause 50 (log [LogSubmitFailed (tok8 token) data] w2))
      | SubmitFailure e =>
          (Ok (Continue (count_failure st1)),
           pause 50 (log [LogSubmitError (tok8 token) e] w2))
      end.
Proof.
  intros Hc Hf Hsv Htid.
  destruct (submission_values_format _ _ _ _ _ _ Hsv) as [s2 Hfmt].
  exists s2. split; [exact Hfmt|]. cbv zeta.
  rewrite loop_body_eq, Hc. unfold after_fetch. rewrite Hc.
  unfold compute_and_submit.
  rewrite (process_task_eq token task f _ Hf).
  replace (stamp (fetched token w) (ticks (fetched token w)))
    with (stamp w (ticks w)) by (destruct w; reflexivity).
  replace (stamp (fetched token w) (S (ticks (fetched token w))))
    with (stamp w (S (ticks w))) by (destruct w; reflexivity).
  rewrite Hsv, Htid.
  rewrite (submit_results_eq token r1 r2 tid _ s2 Hfmt). cbv zeta.
  replace (next_submit (set_ticks (S (S (ticks (fetched token w))))
                          (fetched token w)))
    with (next_submit w) by (destruct w; reflexivity).
  unfold posted.
  replace (ticks (fetched token w)) with (ticks w) by (destruct w; reflexivity).
  destruct (classify_submit (next_submit w)); reflexivity.
Qed.



End Submission.

(** ** Claims about the worker loop *)

Lemma classify_jwt_expired w fields rest :
  fetch_script w = Ok (JObj fields) :: rest ->
  assoc "error" fields = Some (JStr "jwt auth err") ->
  classify_fetch (next_fetch w) = AuthExpired.
Proof.
  intros Hscript Herr. unfold next_fetch. rewrite Hscript.
  cbn [classify_fetch]. rewrite Herr. reflexivity.
Qed.

Lemma iterate_stops token st w fuel :
  classify_fetch (next_fetch w) = AuthExpired \/
  (exists e, classify_fetch (next_fetch w) = GenericFailure e) ->
  iterate (S fuel) token st w = Some (Ok st, after_fetch token w).
Proof.
  intros Hc. cbn [iterate]. rewrite loop_body_eq.
  destruct Hc as [->|[e ->]]; reflexivity.
Qed.

(** C8. When a fetch is answered with [error == "jwt auth err"], the loop
    stops in that very pass with its counters unchanged: the fetch is the
    only request posted, nothing is computed or submitted afterwards, and
    the token is appended exactly once to the expired-token file. For a
    worker whose first fetch is answered so, [worker_loop] ends after one
    request and two clock readings (start and report) with all counters at
    zero. *)
Theorem jwt_expiry_stops_worker token w fields rest :
  fetch_script w = Ok (JObj fields) :: rest ->
  assoc "error" fields = Some (JStr "jwt auth err") ->
  (forall st fuel,
     exists w',
       iterate (S fuel) token st w = Some (Ok st, w') /\
       sent w' = sent w ++ [fetch_request token] /\
       expired_file w' = expired_file w ++ [(token ++ newline)%string] /\
       fetch_script w' = rest /\
       submit_script w' = submit_script w /\
       ticks w' = ticks w /\
       sleeps w' = sleeps w /\
       console w' = console w ++ [LogJwtExpired (tok8 token)]) /\
  (exists w',
     worker_loop token w = Some (Ok initial_stats, w') /\
     sent w' = sent w ++ [fetch_request token] /\
     expired_file w' = expired_file w ++ [(token ++ newline)%string] /\
     fetch_script w' = rest /\
     submit_script w' = submit_script w /\
     ticks w' = S (S (ticks w)) /\
     sleeps w' = sleeps w /\
     console w' =
       console w ++ [LogJwtExpired (tok8 token);
                     LogSummary (tok8 token) 0 0 0
                       (fsub (clock w (S (ticks w))) (clock w (ticks w)))
                       (fmul (float_of_Z 0) reward)]).
Proof.
  intros Hscript Herr.
  pose proof (classify_jwt_expired w fields rest Hscript Herr) as Hauth.
  split.
  - intros st fuel. exists (after_fetch token w).
    split; [apply iterate_stops; left; exact Hauth|].
    unfold after_fetch. rewrite Hauth.
    destruct w as [fs ss clk tk snt sl ex con]. cbn in Hscript. subst fs.
    repeat split.
  - rewrite worker_loop_eq.
    assert (Hauth' : classify_fetch
                       (next_fetch (set_ticks (S (ticks w)) w)) = AuthExpired)
      by (destruct w; exact Hauth).
    rewrite iterate_stops by (left; exact Hauth').
    eexists. split; [reflexivity|].
    unfold after_fetch. rewrite Hauth'.
    destruct w as [fs ss clk tk snt sl ex con]. cbn in Hscript. subst fs.
    repeat split.
    cbn. rewrite <- app_assoc. reflexivity.
Qed.

Lemma jwt_expiry_stops_worker_witness :
  let w := sample_world [answer_jwt_expired; answer_task small_task]
                        [answer_accepted] in
  fetch_script w =
    Ok (JObj [("error", JStr "jwt auth err")]) :: [answer_task small_task] /\
  assoc "error" [("error", JStr "jwt auth err")] =
    Some (JStr "jwt auth err") /\
  exists w',
    worker_loop sample_token w = Some (Ok initial_stats, w') /\
    sent w' = [fetch_request sample_token] /\
    expired_file w' = [(sample_token ++ newline)%string] /\
    fetch_script w' = [answer_task small_task] /\
    submit_script w' = [answer_accepted] /\
    ticks w' = 2%nat /\
    sleeps w' = [].
Proof.
  intros w. split; [reflexivity|]. split; [reflexivity|].
  destruct (jwt_expiry_stops_worker sample_token w
              [("error", JStr "jwt auth err")] [answer_task small_task]
              eq_refl eq_refl)
    as [_ (w' & Hrun & Hsent & Hexp & Hfs & Hss & Htk & Hsl & _)].
  exists w'. repeat split; assumption.
Defined.




(** C7, as the code has it. An exception raised during a fetch or a
    submission is caught inside the client, which returns its failure
    value: the worker never crashes on it. On a submission the failure is
    counted and the loop goes on to its next pass after the pacing sleep.
    On a fetch the failure is not counted and the loop ends there, as
    for any fetch that brings no task. *)
Theorem client_errors_are_absorbed token st e :
  (forall raised : exn, classify_fetch (Raise raised) = GenericFailure (Some raised)) /\
  (forall raised : exn, classify_submit (Raise raised) = SubmitFailure raised) /\
  (forall w fuel,
     classify_fetch (next_fetch w) = GenericFailure (Some e) ->
     let w' := log [LogFetchError (tok8 token) e] (fetched token w) in
     fetch_task token w = (Ok (JNull, false, false), w') /\
     loop_body token st w = (Ok (Break st), w') /\
     iterate (S fuel) token st w = Some (Ok st, w')) /\
  (forall w r1 r2 tid s2,
     format_num 10 r2 = Ok s2 ->
     classify_submit (next_submit w) = SubmitFailure e ->
     submit_results token r1 r2 tid w =
       (Ok (false, false),
        log [LogSubmitError (tok8 token) e]
          (submitted token (payload (format_f 10 r1) s2 tid) w))) /\
  (forall w task f r1 r2 dur tid,
     classify_fetch (next_fetch w) = Success task ->
     task_fingerprint task = Ok f ->
     submission_values (stamp w (ticks w)) (stamp w (S (ticks w))) f =
       Ok (r1, r2, dur) ->
     py_getitem task "task_id" = Ok tid ->
     classify_submit (next_submit w) = SubmitFailure e ->
     exists w',
       loop_body token st w =
         (Ok (Continue (count_failure (count_attempt dur st))), w') /\
       (forall fuel,
          iterate (S fuel) token st w =
            iterate fuel token (count_failure (count_attempt dur st)) w') /\
       sleeps w' = sleeps w ++ [50]).
Proof.
  split; [reflexivity|]. split; [reflexivity|]. split; [|split].
  - intros w fuel Hc w'. subst w'.
    split; [rewrite fetch_task_eq, Hc; reflexivity|].
    assert (Hbody : loop_body token st w =
              (Ok (Break st),
               log [LogFetchError (tok8 token) e] (fetched token w)))
      by (rewrite loop_body_eq, Hc; unfold after_fetch; rewrite Hc;
          reflexivity).
    split; [exact Hbody|]. cbn [iterate]. rewrite Hbody. reflexivity.
  - intros w r1 r2 tid s2 Hfmt Hc.
    rewrite (submit_results_eq token r1 r2 tid w s2 Hfmt). cbv zeta.
    rewrite Hc. reflexivity.
  - intros w task f r1 r2 dur tid Hc Hf Hsv Htid Hs.
    destruct (loop_body_submit token st w task f r1 r2 dur tid Hc Hf Hsv Htid)
      as (s2 & Hfmt & Hbody).
    cbv zeta in Hbody. rewrite Hs in Hbody.
    eexists. split; [exact Hbody|].
    split; [intros fuel; cbn [iterate]; rewrite Hbody; reflexivity|].
    destruct w; reflexivity.
Qed.

Lemma client_errors_are_absorbed_witness :
  let w := sample_world [Raise TimeoutError; answer_task small_task]
                        [answer_accepted] in
  classify_fetch (next_fetch w) = GenericFailure (Some TimeoutError) /\
  fetch_task sample_token w =
    (Ok (JNull, false, false),
     log [LogFetchError (tok8 sample_token) TimeoutError]
       (fetched sample_token w)) /\
  iterate 1 sample_token initial_stats w =
    Some (Ok initial_stats,
          log [LogFetchError (tok8 sample_token) TimeoutError]
            (fetched sample_token w)).
Proof.
  intros w.
  assert (H1 : classify_fetch (next_fetch w) =
               GenericFailure (Some TimeoutError)) by reflexivity.
  split; [exact H1|].
  destruct (proj1 (proj2 (proj2 (client_errors_are_absorbed
                                   sample_token initial_stats TimeoutError)))
              w 0%nat H1) as (Hfetch & _ & Hrun).
  split; assumption.
Defined.

(** C7 fails as stated for fetches: a timeout on the first fetch ends the
    worker with no failure counted and no further request posted, although
    the service had a task ready for the next fetch. *)
Lemma fetch_error_ends_loop_uncounted :
  ~ fetch_error_counted_and_passed sample_token
      (sample_world [Raise TimeoutError; answer_task small_task]
                    [answer_accepted]).
Proof.
  intros Hclaim.
  assert (Hview :
    option_map (fun rw : result stats * world =>
                  (option_map fail
                     (match fst rw with Ok st => Some st | Raise _ => None end),
                   sent (snd rw), fetch_script (snd rw)))
      (worker_loop sample_token
         (sample_world [Raise TimeoutError; answer_task small_task]
                       [answer_accepted]))
    = Some (Some 0, [fetch_request sample_token], [answer_task small_task]))
    by (vm_compute; reflexivity).
  destruct (worker_loop sample_token _) as [[[st|e] w']|] eqn:Hrun;
    cbn in Hview; try discriminate Hview.
  destruct (Hclaim st w' Hrun) as [Hfail _]. clear Hrun Hclaim.
  injection Hview as Hf _ _. lia.
Qed.

(** C10, as the code has it. [fetch_task] returns [(None, False, False)]
    both on auth expiry and on a generic failure, and the loop leaves
    through the same [break] in the world [fetch_task] left behind: the
    loop itself writes nothing. The two cases differ in what [fetch_task]
    did before returning: on auth expiry it printed the expiry line and
    appended the token to the expired-token file; on a generic failure it
    left the file alone and printed the fetch-error line if an exception
    was caught, nothing otherwise. *)
Theorem auth_expiry_and_failure_share_the_exit token st w :
  classify_fetch (next_fetch w) = AuthExpired \/
  (exists e, classify_fetch (next_fetch w) = GenericFailure e) ->
  let w' := snd (fetch_task token w) in
  fst (fetch_task token w) = Ok (JNull, false, false) /\
  loop_body token st w = (Ok (Break st), w') /\
  fetch_script w' = tail (fetch_script w) /\
  submit_script w' = submit_script w /\
  clock w' = clock w /\
  ticks w' = ticks w /\
  sent w' = sent w ++ [fetch_request token] /\
  sleeps w' = sleeps w /\
  (classify_fetch (next_fetch w) = AuthExpired ->
   expired_file w' = expired_file w ++ [(token ++ newline)%string] /\
   console w' = console w ++ [LogJwtExpired (tok8 token)]) /\
  (forall e,
     classify_fetch (next_fetch w) = GenericFailure e ->
     expired_file w' = expired_file w /\
     console w' = console w ++ match e with
                               | Some raised => [LogFetchError (tok8 token) raised]
                               | None => []
                               end).
Proof.
  intros Hc w'. subst w'.
  rewrite loop_body_eq, fetch_task_eq. unfold after_fetch.
  destruct Hc as [Hc|[e Hc]]; rewrite Hc.
  - destruct w as [fs ss clk tk snt sl ex con].
    repeat split; try discriminate.
  - destruct e as [e|]; destruct w as [fs ss clk tk snt sl ex con];
      repeat split; try discriminate;
      match goal with
      | H : GenericFailure _ = GenericFailure _ |- _ => injection H as <-
      end;
      cbn; rewrite ?app_nil_r; reflexivity.
Qed.

Lemma auth_expiry_and_failure_share_the_exit_witness :
  let w := sample_world [answer_jwt_expired] [] in
  (classify_fetch (next_fetch w) = AuthExpired \/
   (exists e, classify_fetch (next_fetch w) = GenericFailure e)) /\
  fst (fetch_task sample_token w) = Ok (JNull, false, false) /\
  loop_body sample_token initial_stats w =
    (Ok (Break initial_stats), snd (fetch_task sample_token w)).
Proof.
  intros w.
  assert (H1 : classify_fetch (next_fetch w) = AuthExpired \/
               (exists e, classify_fetch (next_fetch w) = GenericFailure e))
    by (left; reflexivity).
  split; [exact H1|].
  destruct (auth_expiry_and_failure_share_the_exit
              sample_token initial_stats w H1) as (Hret & Hbody & _).
  split; assumption.
Defined.

(** C10 fails as stated: next to the file, the console tells the two
    cases apart, since only the auth-expiry path prints its line. *)
Lemma auth_expiry_also_prints :
  ~ differ_in_expired_file_only
      (snd (fetch_task sample_token (sample_world [answer_jwt_expired] [])))
      (snd (fetch_task sample_token (sample_world [answer_unexpected] []))).
Proof.
  intros (_ & _ & _ & _ & _ & Hconsole).
  vm_compute in Hconsole. discriminate Hconsole.
Qed.

Lemma tally_submit_line_split lines :
  tally is_submit_line lines =
    tally is_submit_429 lines + tally is_submit_ok lines
    + tally is_submit_refused lines.
Proof.
  induction lines as [|l lines IH]; [reflexivity|].
  cbn [tally]. rewrite IH. destruct l; cbn; lia.
Qed.




(** * Further properties of the code *)

(** ** The task client *)

(** X1. [fetch_task] never raises. It posts one request with the worker's
    token and an empty body and takes one answer; it returns a task only
    together with [ok], never [ok] and [rate_limit] together; and it leaves
    the expired-token file alone unless it returns [(None, False, False)]
    after appending the token. *)
Theorem fetch_task_total token w :
  exists task ok rate_limit w',
    fetch_task token w = (Ok (task, ok, rate_limit), w') /\
    sent w' = sent w ++ [fetch_request token] /\
    fetch_script w' = tail (fetch_script w) /\
    submit_script w' = submit_script w /\
    ticks w' = ticks w /\
    sleeps w' = sleeps w /\
    (ok = true -> rate_limit = false) /\
    (ok = false -> task = JNull) /\
    (expired_file w' = expired_file w \/
     expired_file w' = expired_file w ++ [(token ++ newline)%string] /\
     ok = false /\ rate_limit = false).
Proof.
  rewrite fetch_task_eq.
  destruct (classify_fetch (next_fetch w)) as [| |task|[e|]];
    do 4 eexists; (split; [reflexivity|]);
    destruct w as [fs ss clk tk snt sl ex con]; cbn;
    repeat split; try discriminate; auto.
Qed.



(** X3. The [loops] lookup comes before the rate-limit test: an answer whose
    ["data"] is present but is not an object makes the submission fail
    with an attribute error whatever its code, [-429] included. It is then
    reported as not submitted and not rate-limited. *)
Theorem submit_data_must_be_object token r1 r2 tid w s2 fields v :
  format_num 10 r2 = Ok s2 ->
  next_submit w = Ok (JObj fields) ->
  assoc "data" fields = Some v ->
  (forall inner, v <> JObj inner) ->
  submit_results token r1 r2 tid w =
    (Ok (false, false),
     log [LogSubmitError (tok8 token) AttributeError]
       (submitted token (payload (format_f 10 r1) s2 tid) w)).
Proof.
  intros Hfmt Hnext Hdata Hobj.
  rewrite (submit_results_eq token r1 r2 tid w s2 Hfmt). cbv zeta.
  rewrite Hnext. cbn [classify_submit]. rewrite Hdata. cbn [from_option id].
  destruct v; try reflexivity. exfalso. eapply Hobj. reflexivity.
Qed.

Lemma submit_data_must_be_object_witness :
  let w := sample_world []
             [Ok (JObj [("code", JInt (-429)); ("data", JNull)])] in
  format_num 10 (PyInt 0) = Ok "0.0000000000"%string /\
  submit_results sample_token (float_of_Z 7) (PyInt 0) (JStr "task-1") w =
    (Ok (false, false),
     log [LogSubmitError (tok8 sample_token) AttributeError]
       (submitted sample_token
          (payload (format_f 10 (float_of_Z 7)) "0.0000000000" (JStr "task-1"))
          w)).
Proof.
  intros w.
  assert (H : format_num 10 (PyInt 0) = Ok "0.0000000000"%string)
    by reflexivity.
  split; [exact H|].
  apply (submit_data_must_be_object sample_token (float_of_Z 7) (PyInt 0)
           (JStr "task-1") w "0.0000000000"
           [("code", JInt (-429)); ("data", JNull)] JNull H eq_refl eq_refl).
  intros inner. discriminate.
Defined.

(** ** Every pass of the loop *)

Section Passes.

(** [process_task] by cases, telling a missing key from a compute
    error. *)
Lemma process_task_outcomes token td w :
  match seed_keys_error td with
  | Some e => process_task token td w = (Raise e, w)
  | None =>
      (exists e n, (1 <= n <= 2)%nat /\
         process_task token td w =
           (Ok None,
            log [LogComputeError (tok8 token) e] (set_ticks (ticks w + n) w))) \/
      (exists r1 r2 dur s2,
         process_task token td w =
           (Ok (Some (r1, r2, dur)), set_ticks (S (S (ticks w))) w) /\
         format_num 10 r2 = Ok s2)
  end.
Proof.
  destruct w as [fs ss clk tk snt sl ex con].
  unfold seed_keys_error, process_task.
  destruct (py_getitem td "seed1") as [sv1|e]; [|reflexivity].
  destruct (py_getitem td "seed2") as [sv2|e]; [|reflexivity].
  destruct (py_getitem td "matrix_size") as [sz|e]; [|reflexivity].
  run_io.
  assert (H1 : (tk + 1 = S tk)%nat) by lia.
  assert (H2 : (tk + 2 = S (S tk))%nat) by lia.
  destruct (generate_matrix_on sv1 sz) as [A|e];
    [|left; exists e, 1%nat; rewrite H1; split; [lia|reflexivity]].
  destruct (generate_matrix_on sv2 sz) as [B|e];
    [|left; exists e, 1%nat; rewrite H1; split; [lia|reflexivity]].
  destruct (multiply_matrices A B) as [C|e];
    [|left; exists e, 1%nat; rewrite H1; split; [lia|reflexivity]].
  destruct (compute_hash_mod C default_mod) as [f|e];
    [|left; exists e, 1%nat; rewrite H1; split; [lia|reflexivity]].
  destruct (float_div_int _ f) as [r1|e];
    [|left; exists e, 2%nat; rewrite H2; split; [lia|reflexivity]].
  destruct (negb _).
  - destruct (int_div_float f _) as [x|e];
      [|left; exists e, 2%nat; rewrite H2; split; [lia|reflexivity]].
    destruct (float_div_int _ 1000) as [d|e];
      [|left; exists e, 2%nat; rewrite H2; split; [lia|reflexivity]].
    right. do 4 eexists. split; reflexivity.
  - destruct (float_div_int _ 1000) as [d|e];
      [|left; exists e, 2%nat; rewrite H2; split; [lia|reflexivity]].
    right. do 4 eexists. split; reflexivity.
Qed.

Lemma loop_body_pass token st w : pass token st w (loop_body token st w).
Proof.
  rewrite loop_body_eq. unfold after_fetch.
  destruct (classify_fetch (next_fetch w)) as [| |task|raised] eqn:Hc.
  - apply pass_auth_expired, Hc.
  - apply pass_rate_limited, Hc.
  - unfold compute_and_submit.
    pose proof (process_task_outcomes token task (fetched token w)) as Hp.
    destruct (seed_keys_error task) as [e|] eqn:Hkeys.
    + rewrite Hp. eapply pass_bad_task; eassumption.
    + replace (ticks (fetched token w)) with (ticks w) in Hp
        by (destruct w; reflexivity).
      destruct Hp as [(e & n & Hn & ->)|(r1 & r2 & dur & s2 & -> & Hfmt)].
      * eapply pass_compute_error; eassumption.
      * destruct (py_getitem task "task_id") as [tid|e] eqn:Htid.
        -- rewrite (submit_results_eq token r1 r2 tid _ s2 Hfmt). cbv zeta.
           replace (next_submit (set_ticks (S (S (ticks w))) (fetched token w)))
             with (next_submit w) by (destruct w; reflexivity).
           pose proof (pass_submitted token st w task tid r1 s2 dur
                         Hc Hkeys Htid) as Hpass.
           cbv zeta in Hpass. unfold posted in Hpass.
           destruct (classify_submit (next_submit w)); exact Hpass.
        -- eapply pass_no_task_id; eassumption.
  - replace (match raised with
             | Some e => log [LogFetchError (tok8 token) e] (fetched token w)
             | None => fetched token w
             end)
      with (log (fetch_lines token raised) (fetched token w)).
    + apply pass_no_task, Hc.
    + destruct raised; [reflexivity|].
      destruct w. unfold fetch_lines. run_io. rewrite app_nil_r. reflexivity.
Qed.

End Passes.

(** ** Whole runs: sleeps, requests, the expired-token file, crashes *)

Section Books.

Lemma count_ms_app v l1 l2 : count_ms v (l1 ++ l2) = count_ms v l1 + count_ms v l2.
Proof.
  induction l1 as [|x l1 IH]; [reflexivity|].
  rewrite <- app_comm_cons. cbn [count_ms]. rewrite IH. lia.
Qed.

Lemma count_submissions_app l1 l2 :
  count_submissions (l1 ++ l2) = count_submissions l1 + count_submissions l2.
Proof.
  induction l1 as [|x l1 IH]; [reflexivity|].
  rewrite <- app_comm_cons. cbn [count_submissions]. rewrite IH. lia.
Qed.

Ltac open_world w :=
  destruct w as [fs ss clk tk snt sl ex con];
  cbv [pause log fetched submitted posted set_fetch_script set_submit_script
       set_ticks set_sent set_sleeps set_expired_file set_console
       clock ticks fetch_script submit_script sent sleeps expired_file console].

Lemma books_eq_intro (a b c d a' b' c' d' : Z) :
  a = a' -> b = b' -> c = c' -> d = d' -> (a, b, c, d) = (a', b', c', d').
Proof. congruence. Qed.

Ltac books_eq := cbn; apply books_eq_intro; lia.

Lemma pass_books token st w r w' :
  pass token st w (r, w') -> books w' = books w.
Proof.
  intros Hp. inversion Hp; subst; clear Hp; try subst o; open_world w;
    unfold books;
    cbv [clock ticks fetch_script submit_script sent sleeps expired_file console];
    rewrite ?length_app, ?count_ms_app, ?count_submissions_app, ?tally_app.
  - books_eq.
  - books_eq.
  - destruct raised; books_eq.
  - books_eq.
  - books_eq.
  - books_eq.
  - destruct (classify_submit _); books_eq.
Qed.

Lemma pass_script token st w r w' :
  pass token st w (r, w') -> fetch_script w' = tail (fetch_script w).
Proof.
  intros Hp. inversion Hp; subst; clear Hp; destruct w; reflexivity.
Qed.

Lemma pass_expired token st w r w' :
  pass token st w (r, w') ->
  expired_file w' = expired_file w \/
  expired_file w' = expired_file w ++ [(token ++ newline)%string] /\
  r = Ok (Break st).
Proof.
  intros Hp. inversion Hp; subst; clear Hp;
    try (left; destruct w; reflexivity).
  right. split; [destruct w; reflexivity|reflexivity].
Qed.

Lemma pass_sent token st w r w' :
  pass token st w (r, w') ->
  exists new, sent w' = sent w ++ new /\
              Forall (fun rq => req_token rq = token) new.
Proof.
  intros Hp. inversion Hp; subst; clear Hp;
    try (exists [fetch_request token];
         split; [destruct w; reflexivity|repeat constructor]).
  eexists [fetch_request token; _].
  split; [destruct w; cbn; rewrite <- app_assoc; reflexivity|repeat constructor].
Qed.

Lemma pass_raise token st w e w' :
  pass token st w (Raise e, w') ->
  exists task,
    classify_fetch (next_fetch w) = Success task /\ unreadable_task task e.
Proof.
  intros Hp. inversion Hp; subst; clear Hp; exists task;
    (split; [assumption|]); [left|right]; assumption.
Qed.

Lemma iterate_books token : forall fuel st w r w',
  iterate fuel token st w = Some (r, w') -> books w' = books w.
Proof.
  induction fuel as [|fuel IH]; intros st w r w' Hrun; [discriminate|].
  cbn [iterate] in Hrun.
  pose proof (loop_body_pass token st w) as Hp.
  destruct (loop_body token st w) as [[[st1|st1]|e] w1].
  - rewrite (IH _ _ _ _ Hrun). eapply pass_books, Hp.
  - injection Hrun as <- <-. eapply pass_books, Hp.
  - injection Hrun as <- <-. eapply pass_books, Hp.
Qed.

Lemma iterate_expired token : forall fuel st w r w',
  iterate fuel token st w = Some (r, w') ->
  expired_file w' = expired_file w \/
  expired_file w' = expired_file w ++ [(token ++ newline)%string] /\
  is_ok r = true.
Proof.
  induction fuel as [|fuel IH]; intros st w r w' Hrun; [discriminate|].
  cbn [iterate] in Hrun.
  pose proof (loop_body_pass token st w) as Hp.
  destruct (loop_body token st w) as [[[st1|st1]|e] w1].
  - destruct (pass_expired _ _ _ _ _ Hp) as [Heq|[_ Hbreak]];
      [|discriminate].
    rewrite <- Heq. eapply IH, Hrun.
  - injection Hrun as <- <-.
    destruct (pass_expired _ _ _ _ _ Hp) as [Heq|[Heq _]]; auto.
  - injection Hrun as <- <-.
    destruct (pass_expired _ _ _ _ _ Hp) as [Heq|[_ Hbreak]];
      [auto|discriminate].
Qed.

Lemma iterate_sent token : forall fuel st w r w',
  iterate fuel token st w = Some (r, w') ->
  exists new, sent w' = sent w ++ new /\
              Forall (fun rq => req_token rq = token) new.
Proof.
  induction fuel as [|fuel IH]; intros st w r w' Hrun; [discriminate|].
  cbn [iterate] in Hrun.
  pose proof (loop_body_pass token st w) as Hp.
  destruct (loop_body token st w) as [[[st1|st1]|e] w1];
    destruct (pass_sent _ _ _ _ _ Hp) as (new1 & Hs1 & Hall1).
  - destruct (IH _ _ _ _ Hrun) as (new2 & Hs2 & Hall2).
    exists (new1 ++ new2). rewrite Hs2, Hs1, app_assoc.
    split; [reflexivity|]. apply Forall_app. split; assumption.
  - injection Hrun as <- <-. eauto.
  - injection Hrun as <- <-. eauto.
Qed.

Lemma iterate_raise token : forall fuel st w e w',
  iterate fuel token st w = Some (Raise e, w') ->
  exists answer task,
    In answer (fetch_script w) /\
    classify_fetch answer = Success task /\ unreadable_task task e.
Proof.
  induction fuel as [|fuel IH]; intros st w e w' Hrun; [discriminate|].
  cbn [iterate] in Hrun.
  pose proof (loop_body_pass token st w) as Hp.
  destruct (loop_body token st w) as [[[st1|st1]|e1] w1].
  - destruct (IH _ _ _ _ Hrun) as (answer & task & Hin & Hc & Hbad).
    rewrite (pass_script _ _ _ _ _ Hp) in Hin.
    exists answer, task. split; [|split; assumption].
    destruct (fetch_script w); [exact Hin|right; exact Hin].
  - discriminate.
  - injection Hrun as <- <-.
    destruct (pass_raise _ _ _ _ _ Hp) as (task & Hc & Hbad).
    exists (next_fetch w), task. split; [|split; assumption].
    unfold next_fetch in *. destruct (fetch_script w) as [|r rest].
    + discriminate.
    + left. reflexivity.
Qed.

End Books.

Section WorkerRuns.

Lemma pass_summary token st w r w' :
  pass token st w (r, w') ->
  tally is_summary (console w') = tally is_summary (console w).
Proof.
  intros Hp. inversion Hp; subst; clear Hp; try subst o;
    destruct w as [fs ss clk tk snt sl ex con];
    cbv [pause log fetched submitted posted set_fetch_script set_submit_script
         set_ticks set_sent set_sleeps set_expired_file set_console
         clock ticks fetch_script submit_script sent sleeps expired_file console];
    rewrite ?tally_app; try (cbn; lia).
  - destruct raised; cbn; lia.
  - destruct (classify_submit _); cbn; lia.
Qed.

Lemma iterate_summary token : forall fuel st w r w',
  iterate fuel token st w = Some (r, w') ->
  tally is_summary (console w') = tally is_summary (console w).
Proof.
  induction fuel as [|fuel IH]; intros st w r w' Hrun; [discriminate|].
  cbn [iterate] in Hrun.
  pose proof (loop_body_pass token st w) as Hp.
  destruct (loop_body token st w) as [[[st1|st1]|e] w1].
  - rewrite (IH _ _ _ _ Hrun). eapply pass_summary, Hp.
  - injection Hrun as <- <-. eapply pass_summary, Hp.
  - injection Hrun as <- <-. eapply pass_summary, Hp.
Qed.

(** A run of [worker_loop] in terms of the loop: the world the loop
    leaves, then the report when the loop ended without an exception. *)
Lemma worker_loop_run token w r w' :
  worker_loop token w = Some (r, w') ->
  exists w2,
    iterate (S (length (fetch_script w))) token initial_stats
      (set_ticks (S (ticks w)) w) = Some (r, w2) /\
    match r with
    | Ok st =>
        exists runtime earned,
          w' = log [LogSummary (tok8 token) (success st) (fail st) (total st)
                      runtime earned]
                 (set_ticks (S (ticks w2)) w2)
    | Raise _ => w' = w2
    end.
Proof.
  rewrite worker_loop_eq.
  destruct (iterate _ token initial_stats _) as [[[st|e] w2]|];
    intros [= <- <-]; exists w2; (split; [reflexivity|]); eauto.
Qed.

End WorkerRuns.

(** ** The worker loop as a whole *)

(** X4. In any run, crashed or not, the worker sleeps 3 s once for every
    rate-limited answer, to a fetch or to a submission, 50 ms once for
    every other answered submission, and at no other time: not after a
    failed compute step, and not before the fetch that ends the loop. *)
Theorem sleeps_follow_answers token w r w' :
  worker_loop token w = Some (r, w') ->
  count_ms 3000 (sleeps w') - count_ms 3000 (sleeps w) =
    added is_fetch_429 w w' + added is_submit_429 w w' /\
  count_ms 50 (sleeps w') - count_ms 50 (sleeps w) =
    added is_submit_ok w w' + added is_submit_refused w w' /\
  Z.of_nat (length (sleeps w')) - Z.of_nat (length (sleeps w)) =
    added is_fetch_429 w w' + added is_submit_line w w'.
Proof.
  intros Hrun.
  destruct (worker_loop_run token w r w' Hrun) as (w2 & Hloop & Hw').
  apply iterate_books in Hloop.
  assert (Hb : books w' = books w).
  { transitivity (books w2); [|rewrite Hloop; destruct w; reflexivity].
    destruct r as [st|e].
    - destruct Hw' as (runtime & earned & ->).
      destruct w2. unfold books. cbn. rewrite !tally_snoc. cbn.
      apply books_eq_intro; lia.
    - subst w'. reflexivity. }
  unfold books in Hb. injection Hb as H1 H2 H3 _. unfold added.
  rewrite !tally_submit_line_split. lia.
Qed.

Lemma sleeps_follow_answers_witness :
  exists r w',
    worker_loop sample_token
      (sample_world [answer_429; answer_task zero_task]
                    [answer_accepted]) = Some (r, w') /\
    Z.of_nat (length (sleeps w')) - 0 =
      added is_fetch_429
        (sample_world [answer_429; answer_task zero_task] [answer_accepted]) w'
      + added is_submit_line
          (sample_world [answer_429; answer_task zero_task] [answer_accepted]) w'.
Proof.
  destruct (worker_loop_total sample_token
              (sample_world [answer_429; answer_task zero_task]
                            [answer_accepted])) as (r & w' & Hrun).
  exists r, w'. split; [exact Hrun|].
  exact (proj2 (proj2 (sleeps_follow_answers sample_token _ r w' Hrun))).
Defined.

(** X5. In any run every request the worker posts carries its own token, and
    the results it posts are as many as the submission lines it prints;
    when the run ends with a report, that number is the reported
    [total]. *)
Theorem requests_are_accounted_for token w r w' :
  worker_loop token w = Some (r, w') ->
  (exists new, sent w' = sent w ++ new /\
               Forall (fun rq => req_token rq = token) new) /\
  count_submissions (sent w') - count_submissions (sent w) =
    added is_submit_line w w' /\
  (forall st, r = Ok st ->
     count_submissions (sent w') - count_submissions (sent w) = total st).
Proof.
  intros Hrun.
  destruct (worker_loop_run token w r w' Hrun) as (w2 & Hloop & Hw').
  assert (Hsent : sent w' = sent w2 /\
                  tally is_submit_line (console w') =
                    tally is_submit_line (console w2)).
  { destruct r as [st|e].
    - destruct Hw' as (runtime & earned & ->). destruct w2. cbn.
      rewrite tally_snoc. cbn. split; [reflexivity|lia].
    - subst w'. split; reflexivity. }
  destruct Hsent as [Hsent Hlines].
  pose proof (iterate_books _ _ _ _ _ _ Hloop) as Hb.
  unfold books in Hb. injection Hb as _ _ _ H4.
  replace (sent (set_ticks (S (ticks w)) w)) with (sent w) in H4
    by (destruct w; reflexivity).
  replace (console (set_ticks (S (ticks w)) w)) with (console w) in H4
    by (destruct w; reflexivity).
  assert (Hcount : count_submissions (sent w') - count_submissions (sent w) =
                   added is_submit_line w w')
    by (unfold added; rewrite Hsent, Hlines; lia).
  split; [|split; [exact Hcount|]].
  - destruct (iterate_sent _ _ _ _ _ _ Hloop) as (new & Hnew & Hall).
    exists new. rewrite Hsent, Hnew. split; [destruct w; reflexivity|exact Hall].
  - intros st ->. rewrite Hcount.
    apply worker_loop_ledger in Hrun. unfold ledger in Hrun.
    cbn [initial_stats total success fail] in Hrun.
    injection Hrun as Ht _ _. unfold added. lia.
Qed.

Lemma requests_are_accounted_for_witness :
  exists r w',
    worker_loop sample_token
      (sample_world [answer_task small_task] [answer_429]) = Some (r, w') /\
    exists new, sent w' = [] ++ new /\
                Forall (fun rq => req_token rq = sample_token) new.
Proof.
  destruct (worker_loop_total sample_token
              (sample_world [answer_task small_task] [answer_429]))
    as (r & w' & Hrun).
  exists r, w'. split; [exact Hrun|].
  exact (proj1 (requests_are_accounted_for sample_token _ r w' Hrun)).
Defined.

(** X6. A run writes to the expired-token file at most once, the worker's own
    token on a line of its own, and only in a run that ends with a
    report. *)
Theorem expired_file_written_at_most_once token w r w' :
  worker_loop token w = Some (r, w') ->
  expired_file w' = expired_file w \/
  expired_file w' = expired_file w ++ [(token ++ newline)%string] /\
  is_ok r = true.
Proof.
  intros Hrun.
  destruct (worker_loop_run token w r w' Hrun) as (w2 & Hloop & Hw').
  apply iterate_expired in Hloop.
  replace (expired_file (set_ticks (S (ticks w)) w)) with (expired_file w)
    in Hloop by (destruct w; reflexivity).
  replace (expired_file w') with (expired_file w2); [exact Hloop|].
  destruct r as [st|e].
  - destruct Hw' as (runtime & earned & ->). destruct w2; reflexivity.
  - subst w'. reflexivity.
Qed.

Lemma expired_file_written_at_most_once_witness :
  exists r w',
    worker_loop sample_token
      (sample_world [answer_task small_task; answer_jwt_expired]
                    [answer_accepted]) = Some (r, w') /\
    (expired_file w' = [] \/
     expired_file w' = [] ++ [(sample_token ++ newline)%string] /\
     is_ok r = true).
Proof.
  destruct (worker_loop_total sample_token
              (sample_world [answer_task small_task; answer_jwt_expired]
                            [answer_accepted])) as (r & w' & Hrun).
  exists r, w'. split; [exact Hrun|].
  exact (expired_file_written_at_most_once sample_token _ r w' Hrun).
Defined.

(** X7. The worker raises only when a fetch was answered with code 0 and a
    task it cannot read: the task is not an object, or lacks a seed, the
    matrix size or the task id. The exception is the one of the failed
    lookup. The report line is printed exactly when the worker does not
    raise. *)
Theorem worker_raises_only_on_unreadable_task token w r w' :
  worker_loop token w = Some (r, w') ->
  (forall e, r = Raise e ->
     exists answer task,
       In answer (fetch_script w) /\
       classify_fetch answer = Success task /\ unreadable_task task e) /\
  added is_summary w w' = if is_ok r then 1 else 0.
Proof.
  intros Hrun.
  destruct (worker_loop_run token w r w' Hrun) as (w2 & Hloop & Hw').
  split.
  - intros e ->.
    destruct (iterate_raise _ _ _ _ _ _ Hloop) as (answer & task & Hin & H).
    exists answer, task. split; [|exact H]. destruct w; exact Hin.
  - apply iterate_summary in Hloop.
    replace (console (set_ticks (S (ticks w)) w)) with (console w) in Hloop
      by (destruct w; reflexivity).
    unfold added. destruct r as [st|e]; cbn [is_ok].
    + destruct Hw' as (runtime & earned & ->). destruct w2. cbn in *.
      rewrite tally_snoc. cbn. lia.
    + subst w'. lia.
Qed.

Lemma worker_raises_only_on_unreadable_task_witness :
  exists r w',
    worker_loop sample_token
      (sample_world [answer_task JNull] []) = Some (r, w') /\
    added is_summary (sample_world [answer_task JNull] []) w' =
      if is_ok r then 1 else 0.
Proof.
  destruct (worker_loop_total sample_token
              (sample_world [answer_task JNull] [])) as (r & w' & Hrun).
  exists r, w'. split; [exact Hrun|].
  exact (proj2 (worker_raises_only_on_unreadable_task sample_token _ r w' Hrun)).
Defined.

(** X8. A fetched task whose seeds or size cannot be read makes the loop
    raise at once: nothing is computed, printed or counted, and the worker
    ends without a report. A task that lacks only its id is computed
    first, with both clock readings, and the lookup then raises before
    anything is posted. *)
Theorem unreadable_task_stops_worker token st w task e :
  classify_fetch (next_fetch w) = Success task ->
  (seed_keys_error task = Some e ->
   forall fuel,
     iterate (S fuel) token st w = Some (Raise e, fetched token w)) /\
  (forall f v,
     task_fingerprint task = Ok f ->
     submission_values (stamp w (ticks w)) (stamp w (S (ticks w))) f = Ok v ->
     py_getitem task "task_id" = Raise e ->
     forall fuel,
       iterate (S fuel) token st w =
         Some (Raise e, set_ticks (S (S (ticks w))) (fetched token w))).
Proof.
  intros Hc. split.
  - intros Hkeys fuel. cbn [iterate].
    rewrite loop_body_eq, Hc. unfold after_fetch. rewrite Hc.
    unfold compute_and_submit.
    pose proof (process_task_outcomes token task (fetched token w)) as Hp.
    rewrite Hkeys in Hp. rewrite Hp. reflexivity.
  - intros f [[r1 r2] dur] Hf Hsv Htid fuel. cbn [iterate].
    rewrite loop_body_eq, Hc. unfold after_fetch. rewrite Hc.
    unfold compute_and_submit.
    rewrite (process_task_eq token task f _ Hf).
    replace (stamp (fetched token w) (ticks (fetched token w)))
      with (stamp w (ticks w)) by (destruct w; reflexivity).
    replace (stamp (fetched token w) (S (ticks (fetched token w))))
      with (stamp w (S (ticks w))) by (destruct w; reflexivity).
    rewrite Hsv, Htid. destruct w; reflexivity.
Qed.

Lemma unreadable_task_stops_worker_witness :
  let w := sample_world [answer_task JNull; answer_task small_task] [] in
  classify_fetch (next_fetch w) = Success JNull /\
  seed_keys_error JNull = Some TypeError /\
  iterate 1 sample_token initial_stats w =
    Some (Raise TypeError, fetched sample_token w).
Proof.
  intros w.
  assert (H1 : classify_fetch (next_fetch w) = Success JNull) by reflexivity.
  assert (H2 : seed_keys_error JNull = Some TypeError) by reflexivity.
  split; [exact H1|]. split; [exact H2|].
  exact (proj1 (unreadable_task_stops_worker sample_token initial_stats w
                  JNull TypeError H1) H2 0%nat).
Defined.

(** ** The compute pipeline *)

(** X9. [process_task] works on the clock and the console only: it posts
    nothing, sleeps never and leaves both scripts and the expired-token
    file alone. It reads the clock twice when it returns values, at least
    once when it reports a compute error (with exactly one line printed),
    and not at all when a seed or the size cannot be read, in which case
    the lookup's exception escapes it. *)
Theorem process_task_is_local token td w :
  exists r w',
    process_task token td w = (r, w') /\
    fetch_script w' = fetch_script w /\
    submit_script w' = submit_script w /\
    sent w' = sent w /\
    sleeps w' = sleeps w /\
    expired_file w' = expired_file w /\
    match r with
    | Ok (Some _) =>
        console w' = console w /\ ticks w' = S (S (ticks w))
    | Ok None =>
        (exists e, console w' = console w ++ [LogComputeError (tok8 token) e]) /\
        (ticks w < ticks w' <= ticks w + 2)%nat
    | Raise e => w' = w /\ seed_keys_error td = Some e
    end.
Proof.
  pose proof (process_task_outcomes token td w) as Hp.
  destruct (seed_keys_error td) as [e|].
  - exists (Raise e), w. repeat split; assumption.
  - destruct Hp as [(e & n & Hn & Hp)|(r1 & r2 & dur & s2 & Hp & _)];
      do 2 eexists; (split; [exact Hp|]);
      destruct w as [fs ss clk tk snt sl ex con]; cbn; repeat split;
      try lia.
    exists e. reflexivity.
Qed.

(** ** The fingerprint's modulus *)

(** X10. [compute_hash_mod] takes the sign of its result from the modulus, as
    [%] does: a zero modulus raises [ZeroDivisionError], a negative one
    gives a result in [(m, 0]]. *)
Theorem compute_hash_mod_modulus (M : matrix) (m : Z) :
  (m = 0 -> compute_hash_mod M m = Raise ZeroDivisionError) /\
  (m < 0 ->
   exists f, compute_hash_mod M m = Ok f /\ m < f <= 0).
Proof.
  split.
  - intros ->. unfold compute_hash_mod.
    rewrite flatten_matrix_spec, encode_ascii7.
    + rewrite int_of_hexdigest. reflexivity.
    + apply ascii7_join. intros p Hp.
      apply in_map_iff in Hp as [x [<- _]]. apply ascii7_integer_text.
  - intros Hm. exists (fingerprint_spec M m).
    split; [apply compute_hash_mod_eq; lia|].
    unfold fingerprint_spec. apply Z.mod_neg_bound. exact Hm.
Qed.

Lemma compute_hash_mod_modulus_witness :
  compute_hash_mod [[float_of_Z 1]] 0 = Raise ZeroDivisionError /\
  exists f, compute_hash_mod [[float_of_Z 1]] (-10) = Ok f /\ -10 < f <= 0.
Proof.
  destruct (compute_hash_mod_modulus [[float_of_Z 1]] 0) as [H0 _].
  destruct (compute_hash_mod_modulus [[float_of_Z 1]] (-10)) as [_ Hneg].
  split; [apply H0; reflexivity|apply Hneg; lia].
Defined.

(** ** The matrix engine *)

Section Engine.

Lemma lcg_step_mod s : lcg_step (s mod 1000) = lcg_step s.
Proof.
  unfold lcg_step.
  rewrite (Z.add_mod (lcg_a * (s mod 1000))), (Z.add_mod (lcg_a * s)) by lia.
  rewrite Z.mul_mod_idemp_r by lia. reflexivity.
Qed.

(** The multiplier is invertible modulo 1000, so a step tells residues
    apart. *)
Lemma lcg_step_injective s1 s2 :
  lcg_step s1 = lcg_step s2 -> s1 mod 1000 = s2 mod 1000.
Proof.
  unfold lcg_step. intros Hstep.
  assert (Hinv : (973 * lcg_a) mod 1000 = 1) by reflexivity.
  assert (Hs : forall s, s mod 1000 =
                 (973 * ((lcg_a * s + lcg_b) mod 1000) - 973 * lcg_b) mod 1000).
  { intros s.
    rewrite Zminus_mod, Z.mul_mod_idemp_r, <- Zminus_mod by lia.
    replace (973 * (lcg_a * s + lcg_b) - 973 * lcg_b)
      with (973 * lcg_a * s) by lia.
    rewrite <- Z.mul_mod_idemp_l, Hinv by lia. f_equal. lia. }
  rewrite (Hs s1), (Hs s2), Hstep. reflexivity.
Qed.

Lemma row_vals_step s s' len :
  lcg_step s = lcg_step s' -> row_vals s len = row_vals s' len.
Proof.
  intros Hstep. destruct len as [|len]; [reflexivity|].
  cbn [row_vals]. rewrite Hstep. reflexivity.
Qed.

Lemma rows_vals_step n : forall r s s',
  lcg_step s = lcg_step s' -> rows_vals s n r = rows_vals s' n r.
Proof.
  induction r as [|r IH]; intros s s' Hstep; [reflexivity|].
  cbn [rows_vals]. rewrite (row_vals_step s s' n Hstep). f_equal.
  apply IH. destruct n as [|n]; [exact Hstep|].
  rewrite <- !lcg_iterate_shift, Hstep. reflexivity.
Qed.

End Engine.

(** X11. A generated matrix depends on its seed modulo 1000 only, and on
    all of that: two matrices that [generate_matrix] returns for one size
    of at least 1 are equal exactly when their seeds are congruent modulo
    1000. *)
Theorem generate_matrix_seed_residue (seed1 seed2 size : Z) (A B : matrix) :
  1 <= size ->
  generate_matrix seed1 size = Ok A ->
  generate_matrix seed2 size = Ok B ->
  (A = B <-> seed1 mod 1000 = seed2 mod 1000).
Proof.
  intros Hsize HA HB.
  apply generate_matrix_returned in HA as [_ ->].
  apply generate_matrix_returned in HB as [_ ->]. split.
  - intros Heq.
    assert (Hn : exists n, Z.to_nat size = S n)
      by (exists (Z.to_nat size - 1)%nat; lia).
    destruct Hn as [n Hn]. rewrite Hn in Heq.
    cbn [rows_vals row_vals] in Heq. injection Heq as Hfirst _ _.
    apply lcg_step_injective.
    assert (Hw : float_whole (float_of_Z (lcg_step seed1)) =
                 float_whole (float_of_Z (lcg_step seed2)))
      by (rewrite Hfirst; reflexivity).
    rewrite !float_whole_small in Hw by apply lcg_step_range.
    injection Hw as Hw. exact Hw.
  - intros Hmod. apply rows_vals_step.
    rewrite <- (lcg_step_mod seed1), <- (lcg_step_mod seed2), Hmod.
    reflexivity.
Qed.

Lemma generate_matrix_seed_residue_witness :
  1 <= 3 /\
  generate_matrix 7 3 = Ok (rows_vals 7 3 3) /\
  generate_matrix (-2993) 3 = Ok (rows_vals (-2993) 3 3) /\
  (rows_vals 7 3 3 = rows_vals (-2993) 3 3 <->
   7 mod 1000 = (-2993) mod 1000).
Proof.
  assert (H0 : 1 <= 3) by lia.
  assert (H1 : generate_matrix 7 3 = Ok (rows_vals 7 3 3))
    by (vm_compute; reflexivity).
  assert (H2 : generate_matrix (-2993) 3 = Ok (rows_vals (-2993) 3 3))
    by (vm_compute; reflexivity).
  split; [exact H0|]. split; [exact H1|]. split; [exact H2|].
  exact (generate_matrix_seed_residue 7 (-2993) 3 _ _ H0 H1 H2).
Defined.

(** X12. [generate_matrix] raises [ValueError] for a negative size and
    for a size from [2^30] on, before anything is generated; a matrix it
    returns is square of the size asked for, and is the empty matrix for
    size 0. *)
Theorem generate_matrix_shape (seed size : Z) :
  (size < 0 \/ 2 ^ 30 <= size ->
   generate_matrix seed size = Raise ValueError) /\
  (forall M : matrix,
     generate_matrix seed size = Ok M ->
     0 <= size < 2 ^ 30 /\
     length M = Z.to_nat size /\
     (forall row, row ∈ M -> length row = Z.to_nat size) /\
     (size = 0 -> M = [])).
Proof.
  split; [apply generate_matrix_refused|].
  intros M HM. apply generate_matrix_returned in HM as [Hsize ->].
  split; [exact Hsize|].
  split; [apply rows_vals_length|].
  split; [intros row; apply rows_vals_row|].
  intros ->. reflexivity.
Qed.

Lemma generate_matrix_shape_witness :
  generate_matrix 5 (-1) = Raise ValueError /\
  generate_matrix 5 (2 ^ 30) = Raise ValueError /\
  generate_matrix 5 0 = Ok [] /\
  generate_matrix 5 2 = Ok [[float_of_Z 387; float_of_Z 521];
                            [float_of_Z 479; float_of_Z 925]] /\
  length [[float_of_Z 387; float_of_Z 521];
          [float_of_Z 479; float_of_Z 925]] = Z.to_nat 2.
Proof.
  assert (H0 : generate_matrix 5 0 = Ok []) by (vm_compute; reflexivity).
  assert (H2 : generate_matrix 5 2 =
                 Ok [[float_of_Z 387; float_of_Z 521];
                     [float_of_Z 479; float_of_Z 925]])
    by (vm_compute; reflexivity).
  split; [apply (proj1 (generate_matrix_shape 5 (-1))); left; lia|].
  split; [apply (proj1 (generate_matrix_shape 5 (2 ^ 30))); right; lia|].
  split; [exact H0|]. split; [exact H2|].
  exact (proj1 (proj2 (proj2 (generate_matrix_shape 5 2) _ H2))).
Defined.

(** X13. Two generated matrices of one size always multiply, to a square
    matrix of that size; two of different sizes never do:
    [multiply_matrices] raises [ValueError] on them. *)
Theorem multiply_matrices_shape (seed1 seed2 size1 size2 : Z) (A B : matrix) :
  generate_matrix seed1 size1 = Ok A ->
  generate_matrix seed2 size2 = Ok B ->
  (size1 = size2 ->
   exists C : matrix,
     multiply_matrices A B = Ok C /\
     length C = Z.to_nat size1 /\
     (forall row, row ∈ C -> length row = Z.to_nat size1)) /\
  (size1 <> size2 -> multiply_matrices A B = Raise ValueError).
Proof.
  intros HA HB.
  apply generate_matrix_returned in HA as [Hpos1 ->].
  apply generate_matrix_returned in HB as [Hpos2 ->].
  assert (Hcols : forall s n, ncols (rows_vals s n n) = n).
  { intros s n. destruct n as [|n']; [reflexivity|].
    cbn [rows_vals ncols]. apply row_vals_length. }
  unfold multiply_matrices. rewrite !Hcols, rows_vals_length.
  split.
  - intros <-.
    destruct (decide (Z.to_nat size1 = Z.to_nat size1)) as [_|];
      [|contradiction].
    eexists. split; [reflexivity|].
    split; [rewrite length_map; apply rows_vals_length|].
    intros row Hrow. apply list_elem_of_fmap in Hrow as (r & -> & _).
    rewrite length_map, length_seq. reflexivity.
  - intros Hne.
    destruct (decide (Z.to_nat size1 = Z.to_nat size2)); [lia|reflexivity].
Qed.

Lemma multiply_matrices_shape_witness :
  generate_matrix 1 2 = Ok (rows_vals 1 2 2) /\
  generate_matrix 2 3 = Ok (rows_vals 2 3 3) /\
  multiply_matrices (rows_vals 1 2 2) (rows_vals 2 3 3) = Raise ValueError.
Proof.
  assert (H1 : generate_matrix 1 2 = Ok (rows_vals 1 2 2))
    by (vm_compute; reflexivity).
  assert (H2 : generate_matrix 2 3 = Ok (rows_vals 2 3 3))
    by (vm_compute; reflexivity).
  split; [exact H1|]. split; [exact H2|].
  apply (proj2 (multiply_matrices_shape 1 2 2 3 _ _ H1 H2)). lia.
Defined.

(** ** Exact arithmetic on whole numbers *)

Section Exact.

Lemma iter_xO_unique m m' k :
  Z.pos m = Z.pos m' * 2 ^ Z.pos k -> m = Pos.iter xO m' k.
Proof.
  intros H. rewrite <- iter_xO_value in H. injection H as H. exact H.
Qed.

(** Shifting out zeros loses nothing. *)
Lemma shr_iter_exact k : forall m,
  SpecFloat.iter_pos shr_1 k
    (Build_shr_record (Z.pos (Pos.iter xO m k)) false false) =
  Build_shr_record (Z.pos m) false false.
Proof.
  induction k as [k IH|k IH|]; intros m; cbn [SpecFloat.iter_pos Pos.iter].
  - cbn [shr_1 orb]. rewrite IH, IH. reflexivity.
  - rewrite IH, IH. reflexivity.
  - reflexivity.
Qed.

Lemma digits2_pos_scaled m m' k :
  0 <= k -> Z.pos m = Z.pos m' * 2 ^ k ->
  Z.pos (digits2_pos m) = Z.pos (digits2_pos m') + k.
Proof.
  intros Hk Hval. apply digits2_pos_unique. rewrite Hval.
  pose proof (digits2_pos_bounds m') as [Hlo Hhi].
  assert (Hp : 0 < 2 ^ k) by (apply Z.pow_pos_nonneg; lia).
  replace (Z.pos (digits2_pos m') + k - 1)
    with ((Z.pos (digits2_pos m') - 1) + k) by lia.
  rewrite !Z.pow_add_r by lia. nia.
Qed.

(** A value that a canonical mantissa and exponent represent rounds to
    them. *)
Lemma binary_round_aux_exact s m e m' e' :
  bounded prec emax m' e' = true ->
  e <= e' ->
  Z.pos m = Z.pos m' * 2 ^ (e' - e) ->
  binary_round_aux prec emax s (Z.pos m) e loc_Exact = S754_finite s m' e'.
Proof.
  intros Hb Hle Hval.
  destruct (canonical_exponent _ _ Hb) as [Hc _].
  pose proof (digits2_pos_scaled m m' (e' - e) ltac:(lia) Hval) as Hd.
  destruct (Z.eq_dec e e') as [->|Hne].
  - rewrite Z.sub_diag in Hval. change (2 ^ 0) with 1 in Hval.
    assert (m = m') by lia. subst m'.
    apply binary_round_aux_canonical, Hb.
  - assert (Hle' : (e' <=? emax - prec) = true)
      by (unfold bounded in Hb; apply andb_true_iff in Hb as [_ H]; exact H).
    unfold binary_round_aux. unfold shr_fexp at 1. cbn [Zdigits2].
    rewrite Hd.
    replace (Z.pos (digits2_pos m') + (e' - e) + e)
      with (Z.pos (digits2_pos m') + e') by lia.
    rewrite Hc.
    destruct (e' - e) as [|k|k] eqn:Hk; try lia.
    cbn [shr shr_record_of_loc].
    rewrite (iter_xO_unique m m' k Hval), shr_iter_exact.
    cbn [shr_m loc_of_shr_record round_nearest_even].
    replace (e + Z.pos k) with e' by lia.
    unfold shr_fexp. cbn [Zdigits2]. rewrite Hc, Z.sub_diag.
    cbn [shr shr_record_of_loc shr_m]. rewrite Hle'. reflexivity.
Qed.

Lemma binary_round_exact s m e m' e' :
  bounded prec emax m' e' = true ->
  e <= e' ->
  Z.pos m = Z.pos m' * 2 ^ (e' - e) ->
  binary_round prec emax s m e = S754_finite s m' e'.
Proof.
  intros Hb Hle Hval.
  destruct (canonical_exponent _ _ Hb) as [Hc _].
  pose proof (digits2_pos_scaled m m' (e' - e) ltac:(lia) Hval) as Hd.
  unfold binary_round. rewrite Hd.
  replace (Z.pos (digits2_pos m') + (e' - e) + e)
    with (Z.pos (digits2_pos m') + e') by lia.
  rewrite Hc, shl_align_keep by exact Hle.
  apply binary_round_aux_exact; assumption.
Qed.

(** The float of a positive integer below [2^53], in full. *)
Lemma float_of_Z_repr p :
  Z.pos p < 2 ^ 53 ->
  exists m,
    float_of_Z (Z.pos p) = S754_finite false m (Z.pos (digits2_pos p) - 53) /\
    bounded prec emax m (Z.pos (digits2_pos p) - 53) = true /\
    Z.pos (digits2_pos p) <= 53 /\
    Z.pos m = Z.pos p * 2 ^ (53 - Z.pos (digits2_pos p)).
Proof.
  intros Hlt.
  pose proof (digits2_pos_bounds p) as [Hlo Hhi].
  set (d := Z.pos (digits2_pos p)) in *.
  assert (Hd : 0 < d <= 53).
  { split; [subst d; lia|].
    destruct (Z.le_gt_cases d 53) as [H|H]; [exact H|].
    assert (2 ^ 53 <= 2 ^ (d - 1)) by (apply Z.pow_le_mono_r; lia). lia. }
  destruct (Z.eq_dec d 53) as [Heq|Hne].
  - exists p.
    assert (Hb : bounded prec emax p (d - 53) = true).
    { unfold bounded, canonical_mantissa. fold d.
      apply andb_true_iff. split; [apply Z.eqb_eq|apply Z.leb_le];
        unfold fexp, emin, prec, emax; lia. }
    split; [|split; [exact Hb|split; [lia|]]].
    + unfold float_of_Z, binary_normalize.
      apply binary_round_exact; [exact Hb|lia|].
      rewrite Heq. change (2 ^ (53 - 53 - 0)) with 1. lia.
    + rewrite Heq. change (2 ^ (53 - 53)) with 1. lia.
  - pose proof (shl_align_value p 0 (d - 53) ltac:(lia)) as [Hval _].
    set (mz := fst (shl_align p 0 (d - 53))) in *.
    replace (0 - (d - 53)) with (53 - d) in Hval by lia.
    exists mz.
    assert (Hdz : Z.pos (digits2_pos mz) = 53)
      by (rewrite (digits2_pos_scaled mz p (53 - d) ltac:(lia) Hval);
          fold d; lia).
    assert (Hb : bounded prec emax mz (d - 53) = true).
    { unfold bounded, canonical_mantissa. rewrite Hdz.
      apply andb_true_iff. split; [apply Z.eqb_eq|apply Z.leb_le];
        unfold fexp, emin, prec, emax; lia. }
    split; [|split; [exact Hb|split; [lia|exact Hval]]].
    unfold float_of_Z, binary_normalize, binary_round. fold d.
    replace (fexp prec emax (d + 0)) with (d - 53)
      by (unfold fexp, emin, prec, emax; lia).
    destruct (shl_align p 0 (d - 53)) as [mz' ez] eqn:Hsh.
    pose proof (shl_align_value p 0 (d - 53) ltac:(lia)) as [_ Hsnd].
    rewrite Hsh in Hsnd. cbn [snd] in Hsnd. subst ez.
    subst mz. cbn [fst] in *.
    apply binary_round_aux_canonical, Hb.
Qed.

Lemma digits2_pos_mono p q :
  Z.pos p <= Z.pos q -> Z.pos (digits2_pos p) <= Z.pos (digits2_pos q).
Proof.
  intros Hle.
  pose proof (digits2_pos_bounds p) as [Hlo _].
  pose proof (digits2_pos_bounds q) as [_ Hhi].
  destruct (Z.le_gt_cases (Z.pos (digits2_pos p)) (Z.pos (digits2_pos q)))
    as [H|H]; [exact H|].
  assert (2 ^ Z.pos (digits2_pos q) <= 2 ^ (Z.pos (digits2_pos p) - 1))
    by (apply Z.pow_le_mono_r; lia).
  lia.
Qed.

Lemma digits2_pos_mul p q :
  Z.pos (digits2_pos p) + Z.pos (digits2_pos q) - 1
    <= Z.pos (digits2_pos (p * q)).
Proof.
  pose proof (digits2_pos_bounds p) as [Hp _].
  pose proof (digits2_pos_bounds q) as [Hq _].
  pose proof (digits2_pos_bounds (p * q)) as [_ Hpq].
  set (dp := Z.pos (digits2_pos p)) in *.
  set (dq := Z.pos (digits2_pos q)) in *.
  set (d := Z.pos (digits2_pos (p * q))) in *.
  assert (0 < dp) by (subst dp; lia). assert (0 < dq) by (subst dq; lia).
  destruct (Z.le_gt_cases (dp + dq - 1) d) as [H1|H1]; [exact H1|].
  assert (2 ^ d <= 2 ^ (dp + dq - 2))
    by (apply Z.pow_le_mono_r; lia).
  assert (2 ^ (dp + dq - 2) = 2 ^ (dp - 1) * 2 ^ (dq - 1))
    by (rewrite <- Z.pow_add_r by lia; f_equal; lia).
  assert (0 < 2 ^ (dp - 1)) by (apply Z.pow_pos_nonneg; lia).
  assert (0 < 2 ^ (dq - 1)) by (apply Z.pow_pos_nonneg; lia).
  rewrite Pos2Z.inj_mul in Hpq. nia.
Qed.


Lemma float_of_Z_zero : float_of_Z 0 = fzero.
Proof. reflexivity. Qed.

(** Products of naturals are exact while they stay below [2^53]. *)
Lemma fmul_exact a b :
  0 <= a < 2 ^ 53 -> 0 <= b < 2 ^ 53 -> a * b < 2 ^ 53 ->
  fmul (float_of_Z a) (float_of_Z b) = float_of_Z (a * b).
Proof.
  intros [Ha Hp] [Hb Hq] Hab.
  destruct a as [|p|p]; [|clear Ha|lia].
  { destruct b as [|q|q]; try lia; [reflexivity|].
    rewrite Z.mul_0_l.
    destruct (float_of_Z_repr q Hq) as (m & -> & _). reflexivity. }
  destruct b as [|q|q]; [|clear Hb|lia].
  { rewrite Z.mul_0_r.
    destruct (float_of_Z_repr p Hp) as (m & -> & _). reflexivity. }
  change (Z.pos p * Z.pos q) with (Z.pos (p * q)) in *.
  destruct (float_of_Z_repr p Hp) as (mp & -> & Hbp & Hdp & Hvp).
  destruct (float_of_Z_repr q Hq) as (mq & -> & Hbq & Hdq & Hvq).
  destruct (float_of_Z_repr (p * q) Hab) as (mr & -> & Hbr & Hdr & Hvr).
  pose proof (digits2_pos_mul p q) as Hmul.
  set (dp := Z.pos (digits2_pos p)) in *.
  set (dq := Z.pos (digits2_pos q)) in *.
  set (dr := Z.pos (digits2_pos (p * q))) in *.
  assert (0 < dp) by (subst dp; lia). assert (0 < dq) by (subst dq; lia).
  unfold fmul, SFmul. cbn [xorb].
  apply binary_round_aux_exact; [exact Hbr|lia|].
  rewrite Pos2Z.inj_mul, Hvp, Hvq, Hvr, Pos2Z.inj_mul.
  replace (dr - 53 - (dp - 53 + (dq - 53)))
    with ((53 - dp) + (53 - dq) - (53 - dr)) by lia.
  assert (H2 : 2 ^ (53 - dp) * 2 ^ (53 - dq) =
               2 ^ (53 - dr) * 2 ^ (53 - dp + (53 - dq) - (53 - dr)))
    by (rewrite <- !Z.pow_add_r by lia; f_equal; lia).
  nia.
Qed.

(** So are sums. *)
Lemma fadd_exact a b :
  0 <= a -> 0 <= b -> a + b < 2 ^ 53 ->
  fadd (float_of_Z a) (float_of_Z b) = float_of_Z (a + b).
Proof.
  intros Ha Hb Hab.
  destruct a as [|p|p]; [|clear Ha|lia].
  { rewrite Z.add_0_l in *. destruct b as [|q|q]; try lia; [reflexivity|].
    destruct (float_of_Z_repr q Hab) as (m & -> & _). reflexivity. }
  destruct b as [|q|q]; [|clear Hb|lia].
  { rewrite Z.add_0_r in *.
    destruct (float_of_Z_repr p Hab) as (m & -> & _). reflexivity. }
  assert (Hp : Z.pos p < 2 ^ 53) by lia.
  assert (Hq : Z.pos q < 2 ^ 53) by lia.
  change (Z.pos p + Z.pos q) with (Z.pos (p + q)) in *.
  destruct (float_of_Z_repr p Hp) as (mp & -> & Hbp & Hdp & Hvp).
  destruct (float_of_Z_repr q Hq) as (mq & -> & Hbq & Hdq & Hvq).
  destruct (float_of_Z_repr (p + q) Hab) as (mr & -> & Hbr & Hdr & Hvr).
  pose proof (digits2_pos_mono p (p + q) ltac:(lia)) as Hmp.
  pose proof (digits2_pos_mono q (p + q) ltac:(lia)) as Hmq.
  set (dp := Z.pos (digits2_pos p)) in *.
  set (dq := Z.pos (digits2_pos q)) in *.
  set (dr := Z.pos (digits2_pos (p + q))) in *.
  assert (0 < dp) by (subst dp; lia). assert (0 < dq) by (subst dq; lia).
  unfold fadd, SFadd. cbn [cond_Zopp].
  set (ez := Z.min (dp - 53) (dq - 53)).
  pose proof (shl_align_value mp (dp - 53) ez ltac:(subst ez; lia)) as [Hap _].
  pose proof (shl_align_value mq (dq - 53) ez ltac:(subst ez; lia)) as [Haq _].
  set (ap := fst (shl_align mp (dp - 53) ez)) in *.
  set (aq := fst (shl_align mq (dq - 53) ez)) in *.
  change (Z.pos ap + Z.pos aq) with (Z.pos (ap + aq)).
  cbn [binary_normalize].
  apply binary_round_exact; [exact Hbr|subst ez; lia|].
  rewrite Pos2Z.inj_add, Hap, Haq, Hvp, Hvq, Hvr, Pos2Z.inj_add.
  assert (Hez : ez <= dp - 53 /\ ez <= dq - 53 /\ -53 < ez)
    by (subst ez; lia).
  assert (H1 : 2 ^ (53 - dp) * 2 ^ (dp - 53 - ez) = 2 ^ (- ez))
    by (rewrite <- Z.pow_add_r by lia; f_equal; lia).
  assert (H2 : 2 ^ (53 - dq) * 2 ^ (dq - 53 - ez) = 2 ^ (- ez))
    by (rewrite <- Z.pow_add_r by lia; f_equal; lia).
  assert (H3 : 2 ^ (53 - dr) * 2 ^ (dr - 53 - ez) = 2 ^ (- ez))
    by (rewrite <- Z.pow_add_r by lia; f_equal; lia).
  nia.
Qed.

Lemma nearest_even_multiple z d : 0 <= z -> 0 < d -> nearest_even (z * d) d = z.
Proof.
  intros Hz Hd. unfold nearest_even.
  destruct (Z.eq_dec d 1) as [->|Hd1].
  - rewrite Z.mul_1_r. replace (2 * z + 1) with (1 + z * (2 * 1)) by lia.
    rewrite Z.div_add, Z.mod_add by lia. reflexivity.
  - replace (2 * (z * d) + d) with (d + z * (2 * d)) by lia.
    rewrite Z.div_add, Z.mod_add by lia.
    rewrite Z.div_small, Z.mod_small by lia.
    destruct (Z.eqb_spec d 0); [lia|]. reflexivity.
Qed.

(** A natural below [2^53] prints as itself. *)
Lemma format_f_0_nat z :
  0 <= z < 2 ^ 53 -> format_f 0 (float_of_Z z) = dec_text z.
Proof.
  intros [Hz Hlt]. rewrite format_f_0.
  destruct z as [|p|p]; [reflexivity| |lia].
  destruct (float_of_Z_repr p Hlt) as (m & -> & _ & Hd & Hv).
  cbn [integer_text sign_text]. change ("" ++ ?s)%string with s.
  f_equal. unfold nearest_integer.
  set (d := Z.pos (digits2_pos p)) in *.
  destruct (Z.leb_spec 0 (d - 53)) as [H0|H0].
  - assert (d = 53) by lia.
    replace (53 - d) with 0 in Hv by lia. replace (d - 53) with 0 by lia.
    change (2 ^ 0) with 1 in *. lia.
  - replace (- (d - 53)) with (53 - d) by lia. rewrite Hv.
    apply nearest_even_multiple; [lia|]. apply Z.pow_pos_nonneg; lia.
Qed.

(** A natural below [2^53] is converted exactly. *)
Lemma float_whole_of_Z z :
  0 <= z < 2 ^ 53 -> float_whole (float_of_Z z) = Some z.
Proof.
  intros [Hz Hlt]. destruct z as [|p|p]; [reflexivity| |lia].
  destruct (float_of_Z_repr p Hlt) as (m & -> & _ & Hd & Hv).
  cbn [float_whole]. set (d := Z.pos (digits2_pos p)) in *.
  assert (Hpow : 0 < 2 ^ (53 - d)) by (apply Z.pow_pos_nonneg; lia).
  destruct (Z.leb_spec 0 (d - 53)) as [H0|H0].
  - replace (53 - d) with 0 in Hv by lia. replace (d - 53) with 0 by lia.
    change (2 ^ 0) with 1 in *. f_equal. lia.
  - replace (- (d - 53)) with (53 - d) by lia. rewrite Hv.
    rewrite Z.mod_mul by lia. cbn [Z.eqb]. rewrite Z.div_mul by lia.
    reflexivity.
Qed.

End Exact.

(** ** The values of a submission *)

(** C4. With a fingerprint [f > 0] and finite millisecond timestamps [t0]
    and [t1], [process_task] returns [result_1 = t0 / f]; [result_2 =
    f / (t1 - t0)] when [t1 != t0] and the integer [0] when [t1 = t0]; and
    the elapsed time [(t1 - t0) / 1000]. The quotients and the difference
    are those of IEEE binary64 arithmetic, and [f] enters them exactly:
    its float denotes [f] itself. *)
Theorem process_task_values token task f w :
  task_fingerprint task = Ok f ->
  0 < f ->
  let t0 := stamp w (ticks w) in
  let t1 := stamp w (S (ticks w)) in
  finite64 t0 = true ->
  finite64 t1 = true ->
  float_whole (float_of_Z f) = Some f /\
  process_task token task w =
    (Ok (Some (SFdiv 53 1024 t0 (float_of_Z f),
               (if SFeqb t1 t0 then PyInt 0
                else PyFloat (SFdiv 53 1024 (float_of_Z f)
                                (SFsub 53 1024 t1 t0))),
               SFdiv 53 1024 (SFsub 53 1024 t1 t0) (float_of_Z 1000))),
     set_ticks (S (S (ticks w))) w).
Proof.
  intros Hf Hpos t0 t1 Ht0 Ht1.
  pose proof (task_fingerprint_range task f Hf) as Hrange.
  assert (H53 : 10 ^ 7 < 2 ^ 53) by reflexivity.
  split; [apply float_whole_of_Z; lia|].
  rewrite (process_task_eq token task f w Hf). fold t0 t1.
  rewrite submission_values_positive; [reflexivity| |exact Ht0|exact Ht1].
  lia.
Qed.

(** At 1762209300123 ms and 250 ms later, with fingerprint 9527532:
    184959.6831711507, 38110.128 and 0.25. *)
Lemma process_task_values_witness :
  task_fingerprint small_task = Ok 9527532 /\
  0 < 9527532 /\
  stamp (sample_world [] []) 0 = S754_finite false 7218009293303808 (-12) /\
  stamp (sample_world [] []) 1 = S754_finite false 7218009294327808 (-12) /\
  process_task sample_token small_task (sample_world [] []) =
    (Ok (Some (S754_finite false 6355166322388911 (-35),
               PyFloat (S754_finite false 5237816109003964 (-37)),
               S754_finite false 4503599627370496 (-54))),
     set_ticks 2 (sample_world [] [])).
Proof.
  assert (H1 : task_fingerprint small_task = Ok 9527532)
    by (vm_compute; reflexivity).
  assert (H2 : 0 < 9527532) by lia.
  assert (H3 : finite64 (stamp (sample_world [] []) 0) = true)
    by (vm_compute; reflexivity).
  assert (H4 : finite64 (stamp (sample_world [] []) 1) = true)
    by (vm_compute; reflexivity).
  assert (T0 : stamp (sample_world [] []) 0 =
               S754_finite false 7218009293303808 (-12))
    by (vm_compute; reflexivity).
  assert (T1 : stamp (sample_world [] []) 1 =
               S754_finite false 7218009294327808 (-12))
    by (vm_compute; reflexivity).
  split; [exact H1|]. split; [exact H2|]. split; [exact T0|].
  split; [exact T1|].
  assert (R1 : SFdiv 53 1024 (S754_finite false 7218009293303808 (-12))
                 (float_of_Z 9527532) =
               S754_finite false 6355166322388911 (-35))
    by (vm_compute; reflexivity).
  assert (E : SFeqb (S754_finite false 7218009294327808 (-12))
                (S754_finite false 7218009293303808 (-12)) = false)
    by (vm_compute; reflexivity).
  assert (D : SFsub 53 1024 (S754_finite false 7218009294327808 (-12))
                (S754_finite false 7218009293303808 (-12)) =
              float_of_Z 250)
    by (vm_compute; reflexivity).
  assert (R2 : SFdiv 53 1024 (float_of_Z 9527532) (float_of_Z 250) =
               S754_finite false 5237816109003964 (-37))
    by (vm_compute; reflexivity).
  assert (R3 : SFdiv 53 1024 (float_of_Z 250) (float_of_Z 1000) =
               S754_finite false 4503599627370496 (-54))
    by (vm_compute; reflexivity).
  rewrite (proj2 (process_task_values sample_token small_task 9527532
                    (sample_world [] []) H1 H2 H3 H4)).
  change (ticks (sample_world [] [])) with 0%nat.
  rewrite T0, T1, R1, E, D, R2, R3. reflexivity.
Defined.

(** ** The pipeline in integer arithmetic *)

Section Integers.

Lemma row_vals_int s len : row_vals s len = map float_of_Z (int_row s len).
Proof.
  revert s. induction len as [|len IH]; intros s; [reflexivity|].
  cbn [row_vals int_row map]. now rewrite IH.
Qed.

Lemma rows_vals_int s n r : rows_vals s n r = to_floats (int_rows s n r).
Proof.
  revert s. induction r as [|r IH]; intros s; [reflexivity|].
  cbn [rows_vals int_rows]. unfold to_floats in *. cbn [map].
  now rewrite IH, row_vals_int.
Qed.

Lemma int_row_small s len : Forall small_entry (int_row s len).
Proof.
  revert s. induction len as [|len IH]; intros s; constructor.
  - apply lcg_step_range.
  - apply IH.
Qed.

Lemma int_row_length s len : length (int_row s len) = len.
Proof.
  revert s. induction len as [|len IH]; intros s; [reflexivity|].
  cbn [int_row length]. now rewrite IH.
Qed.

Lemma int_rows_small s n r : Forall (Forall small_entry) (int_rows s n r).
Proof.
  revert s. induction r as [|r IH]; intros s; constructor.
  - apply int_row_small.
  - apply IH.
Qed.

Lemma int_rows_width s n r :
  Forall (fun row => length row = n) (int_rows s n r).
Proof.
  revert s. induction r as [|r IH]; intros s; constructor.
  - apply int_row_length.
  - apply IH.
Qed.

Lemma int_rows_length s n r : length (int_rows s n r) = r.
Proof.
  revert s. induction r as [|r IH]; intros s; [reflexivity|].
  cbn [int_rows length]. now rewrite IH.
Qed.

Lemma int_ncols_rows s n : int_ncols (int_rows s n n) = n.
Proof.
  destruct n as [|n]; [reflexivity|].
  cbn [int_rows int_ncols]. apply int_row_length.
Qed.

Lemma column_int j M :
  column j (to_floats M) = map float_of_Z (int_column j M).
Proof.
  unfold column, int_column, to_floats. rewrite !map_map.
  apply map_ext. intros row.
  change fzero with (float_of_Z 0). apply map_nth.
Qed.

Lemma int_column_small j M :
  Forall (Forall small_entry) M -> Forall small_entry (int_column j M).
Proof.
  intros HM. unfold int_column. induction HM as [|row M Hrow _ IH].
  - constructor.
  - cbn [map]. constructor; [|exact IH].
    destruct (nth_in_or_default j row 0) as [Hin| ->].
    + rewrite List.Forall_forall in Hrow. apply Hrow, Hin.
    + unfold small_entry. lia.
Qed.

Lemma combine_floats u : forall v,
  combine (map float_of_Z u) (map float_of_Z v) =
  map (fun xy => (float_of_Z (fst xy), float_of_Z (snd xy))) (combine u v).
Proof.
  induction u as [|x u IH]; intros [|y v]; try reflexivity.
  cbn [map combine fst snd]. now rewrite IH.
Qed.

Lemma combine_small u : forall v,
  Forall small_entry u -> Forall small_entry v ->
  Forall (fun xy => small_entry (fst xy) /\ small_entry (snd xy)) (combine u v).
Proof.
  induction u as [|x u IH]; intros [|y v] Hu Hv; try constructor.
  - inversion Hu; inversion Hv; subst. split; assumption.
  - inversion Hu; inversion Hv; subst. apply IH; assumption.
Qed.

(** The running sum of a dot product never rounds. *)
Lemma dot_fold l : forall acc,
  0 <= acc ->
  Forall (fun xy => small_entry (fst xy) /\ small_entry (snd xy)) l ->
  acc + 10 ^ 6 * Z.of_nat (length l) < 2 ^ 53 ->
  fold_left (fun a xy => fadd a (fmul (fst xy) (snd xy)))
    (map (fun xy => (float_of_Z (fst xy), float_of_Z (snd xy))) l)
    (float_of_Z acc) =
  float_of_Z (fold_left (fun a xy => a + fst xy * snd xy) l acc) /\
  acc <= fold_left (fun a xy => a + fst xy * snd xy) l acc
      <= acc + 998001 * Z.of_nat (length l).
Proof.
  induction l as [|[x y] l IH]; intros acc Hacc Hl Hlt.
  - cbn [map fold_left length]. split; [reflexivity|lia].
  - inversion Hl as [|? ? [Hx Hy] Hl']; subst. cbn [fst snd] in Hx, Hy.
    unfold small_entry in Hx, Hy.
    cbn [map fold_left fst snd]. cbn [length] in Hlt.
    assert (Hxy : 0 <= x * y <= 998001) by nia.
    assert (H53 : 2 ^ 53 = 9007199254740992) by reflexivity.
    assert (H6 : 10 ^ 6 = 1000000) by reflexivity.
    rewrite H53, H6 in *.
    rewrite fmul_exact by (rewrite ?H53; lia).
    rewrite fadd_exact by (rewrite ?H53; lia).
    destruct (IH (acc + x * y)) as [-> Hb]; [lia|exact Hl'|rewrite ?H53, ?H6; lia|].
    split; [reflexivity|]. cbn [length]. lia.
Qed.

Lemma dot_exact u v :
  Forall small_entry u -> Forall small_entry v ->
  10 ^ 6 * Z.of_nat (length u) < 2 ^ 53 ->
  dot (map float_of_Z u) (map float_of_Z v) = float_of_Z (int_dot u v) /\
  0 <= int_dot u v <= 998001 * Z.of_nat (length u).
Proof.
  intros Hu Hv Hlen. unfold dot, int_dot. rewrite combine_floats.
  assert (Hc : (length (combine u v) <= length u)%nat)
    by (rewrite length_combine; lia).
  change fzero with (float_of_Z 0).
  destruct (dot_fold (combine u v) 0) as [-> Hb];
    [lia|apply combine_small; assumption|lia|].
  split; [reflexivity|]. lia.
Qed.

Lemma ncols_floats M : ncols (to_floats M) = int_ncols M.
Proof. destruct M; [reflexivity|]. cbn. apply length_map. Qed.

(** The float product of whole matrices is the integer product. *)
Lemma multiply_matrices_int A B (n : nat) :
  Forall (Forall small_entry) A -> Forall (Forall small_entry) B ->
  Forall (fun row => length row = n) A ->
  10 ^ 6 * Z.of_nat n < 2 ^ 53 ->
  int_ncols A = length B ->
  multiply_matrices (to_floats A) (to_floats B) =
    Ok (to_floats (int_product A B)) /\
  Forall (Forall (fun x => 0 <= x <= 998001 * Z.of_nat n)) (int_product A B).
Proof.
  intros HA HB Hw Hn Hdim. unfold multiply_matrices.
  rewrite !ncols_floats.
  destruct (decide (int_ncols A = length (to_floats B))) as [_|Hne];
    [|exfalso; apply Hne; unfold to_floats; rewrite length_map; exact Hdim].
  clear Hdim. unfold int_product.
  induction HA as [|row A Hrow HA IH].
  - split; [reflexivity|constructor].
  - inversion Hw as [|? ? Hlen Hw']; subst.
    destruct (IH Hw') as [IH1 IH2]. injection IH1 as IH1.
    split.
    + f_equal. unfold to_floats in *. cbn [map]. rewrite IH1. f_equal.
      rewrite map_map. apply map_ext. intros j.
      fold (to_floats B). rewrite column_int.
      apply dot_exact; [exact Hrow|apply int_column_small; exact HB|exact Hn].
    + cbn [map]. constructor; [|exact IH2].
      rewrite List.Forall_forall. intros x Hx.
      apply in_map_iff in Hx as (j & <- & _).
      apply dot_exact; [exact Hrow|apply int_column_small; exact HB|exact Hn].
Qed.

Lemma flatten_matrix_int C :
  Forall (Forall (fun x => 0 <= x < 2 ^ 53)) C ->
  flatten_matrix (to_floats C) = join (map dec_text (concat C)).
Proof.
  intros HC. unfold flatten_matrix, flat, to_floats.
  rewrite <- concat_map, map_map. f_equal.
  apply map_ext_in. intros x Hx. apply format_f_0_nat.
  apply in_concat in Hx as (row & Hrow & Hx).
  rewrite List.Forall_forall in HC. specialize (HC row Hrow).
  rewrite List.Forall_forall in HC. apply HC, Hx.
Qed.

End Integers.

(** X14. The matrix pipeline is exact integer arithmetic. Two matrices
    that [generate_matrix] returns for one size are the float images of
    the integer matrices; their float product is the image of the integer
    product, every entry of which lies between 0 and 998001 * size;
    [flatten_matrix] prints the plain decimal digits of those integers;
    and the fingerprint, of the product and of a task with these seeds
    and this size, is the hash of that digit text reduced modulo 10^7.
    No entry is ever rounded. *)
Theorem pipeline_is_exact seed1 seed2 size tid (MA MB : matrix) :
  generate_matrix seed1 size = Ok MA ->
  generate_matrix seed2 size = Ok MB ->
  let n := Z.to_nat size in
  let A := int_rows seed1 n n in
  let B := int_rows seed2 n n in
  MA = to_floats A /\
  MB = to_floats B /\
  multiply_matrices MA MB = Ok (to_floats (int_product A B)) /\
  Forall (Forall (fun x => 0 <= x <= 998001 * size)) (int_product A B) /\
  flatten_matrix (to_floats (int_product A B)) =
    join (map dec_text (concat (int_product A B))) /\
  compute_hash_mod (to_floats (int_product A B)) default_mod =
    Ok (exact_fingerprint seed1 seed2 size) /\
  task_fingerprint (make_task seed1 seed2 size tid) =
    Ok (exact_fingerprint seed1 seed2 size).
Proof.
  intros HgA HgB n A B.
  assert (H53 : 2 ^ 53 = 9007199254740992) by reflexivity.
  assert (H6 : 10 ^ 6 = 1000000) by reflexivity.
  assert (H30 : 2 ^ 30 = 1073741824) by reflexivity.
  pose proof HgA as HA. pose proof HgB as HB.
  apply generate_matrix_returned in HA as [Hsize HA].
  apply generate_matrix_returned in HB as [_ HB].
  rewrite rows_vals_int in HA, HB. fold n in HA, HB. fold A in HA.
  fold B in HB. rewrite H30 in Hsize.
  destruct (multiply_matrices_int A B n) as [Hmul Hbound].
  { apply int_rows_small. } { apply int_rows_small. }
  { apply int_rows_width. } { rewrite H53, H6. lia. }
  { subst A B. rewrite int_ncols_rows, int_rows_length. reflexivity. }
  replace (Z.of_nat n) with size in Hbound by lia.
  assert (Hflat : flatten_matrix (to_floats (int_product A B)) =
                  join (map dec_text (concat (int_product A B)))).
  { apply flatten_matrix_int.
    eapply Forall_impl; [exact Hbound|]. intros row Hrow.
    eapply Forall_impl; [exact Hrow|]. intros x Hx. cbv beta in Hx.
    rewrite H53. lia. }
  assert (Hhash : compute_hash_mod (to_floats (int_product A B)) default_mod =
                  Ok (exact_fingerprint seed1 seed2 size)).
  { rewrite compute_hash_mod_eq by (unfold default_mod; lia).
    unfold fingerprint_spec, exact_fingerprint.
    change (concat (to_floats (int_product A B)))
      with (flat (to_floats (int_product A B))).
    rewrite <- flatten_matrix_spec, Hflat. reflexivity. }
  split; [exact HA|]. split; [exact HB|].
  split; [rewrite HA, HB; exact Hmul|].
  repeat (split; [assumption|]).
  unfold task_fingerprint.
  change (py_getitem (make_task seed1 seed2 size tid) "seed1")
    with (Ok (JInt seed1) : result json).
  change (py_getitem (make_task seed1 seed2 size tid) "seed2")
    with (Ok (JInt seed2) : result json).
  change (py_getitem (make_task seed1 seed2 size tid) "matrix_size")
    with (Ok (JInt size) : result json).
  cbn [mbind result_bind]. rewrite !generate_matrix_on_int.
  rewrite HgA, HgB. cbn [mbind result_bind]. rewrite HA, HB, Hmul.
  cbn [mbind result_bind]. exact Hhash.
Qed.

Lemma pipeline_is_exact_witness :
  generate_matrix 1 2 =
    Ok [[float_of_Z 239; float_of_Z 45]; [float_of_Z 867; float_of_Z 281]] /\
  generate_matrix 2 2 =
    Ok [[float_of_Z 276; float_of_Z 414]; [float_of_Z 520; float_of_Z 442]] /\
  int_product (int_rows 1 2 2) (int_rows 2 2 2) =
    [[89364; 118836]; [385412; 483140]] /\
  exact_fingerprint 1 2 2 = 9527532 /\
  task_fingerprint small_task = Ok (exact_fingerprint 1 2 2).
Proof.
  assert (H1 : generate_matrix 1 2 =
    Ok [[float_of_Z 239; float_of_Z 45]; [float_of_Z 867; float_of_Z 281]])
    by (vm_compute; reflexivity).
  assert (H2 : generate_matrix 2 2 =
    Ok [[float_of_Z 276; float_of_Z 414]; [float_of_Z 520; float_of_Z 442]])
    by (vm_compute; reflexivity).
  split; [exact H1|]. split; [exact H2|].
  split; [vm_compute; reflexivity|]. split; [vm_compute; reflexivity|].
  exact (proj2 (proj2 (proj2 (proj2 (proj2 (proj2
    (pipeline_is_exact 1 2 2 "task-1" _ _ H1 H2))))))).
Defined.

(** ** The order of the additions *)

Section Orders.

Lemma int_fold_shift l : forall acc,
  fold_left (fun a xy => a + fst xy * snd xy) l acc = acc + int_sum l.
Proof.
  unfold int_sum. induction l as [|xy l IH]; intros acc; cbn [fold_left].
  - lia.
  - rewrite IH, (IH (0 + _)). lia.
Qed.

Lemma int_sum_cons xy l : int_sum (xy :: l) = fst xy * snd xy + int_sum l.
Proof. unfold int_sum at 1. cbn [fold_left]. rewrite int_fold_shift. lia. Qed.

Lemma int_sum_app l1 l2 : int_sum (l1 ++ l2) = int_sum l1 + int_sum l2.
Proof.
  induction l1 as [|xy l1 IH]; [reflexivity|].
  cbn [app]. rewrite !int_sum_cons, IH. lia.
Qed.

Lemma int_sum_perm l1 l2 : Permutation l1 l2 -> int_sum l1 = int_sum l2.
Proof.
  induction 1; rewrite ?int_sum_cons in *; lia.
Qed.

Lemma int_sum_bound l :
  Forall (fun xy => small_entry (fst xy) /\ small_entry (snd xy)) l ->
  0 <= int_sum l <= 998001 * Z.of_nat (length l).
Proof.
  induction 1 as [|[x y] l [Hx Hy] _ IH].
  - cbn. lia.
  - rewrite int_sum_cons. cbn [fst snd length] in *.
    unfold small_entry in Hx, Hy. nia.
Qed.

(** Whatever the grouping, the sum of the terms is the exact one. *)
Lemma sum_in_order_exact t : forall l,
  terms t = map (fun xy => (float_of_Z (fst xy), float_of_Z (snd xy))) l ->
  Forall (fun xy => small_entry (fst xy) /\ small_entry (snd xy)) l ->
  10 ^ 6 * Z.of_nat (length l) < 2 ^ 53 ->
  sum_in_order t = float_of_Z (int_sum l).
Proof.
  assert (H53 : 2 ^ 53 = 9007199254740992) by reflexivity.
  assert (H6 : 10 ^ 6 = 1000000) by reflexivity.
  induction t as [|x y|t1 IH1 t2 IH2]; intros l Hl Hsmall Hlen;
    cbn [terms sum_in_order] in *.
  - destruct l; [reflexivity|discriminate].
  - destruct l as [|[a b] [|? ?]]; try discriminate.
    cbn [map fst snd] in Hl. injection Hl as -> ->.
    inversion Hsmall as [|? ? [Ha Hb] _]; subst. cbn [fst snd] in Ha, Hb.
    unfold small_entry in Ha, Hb.
    rewrite int_sum_cons. cbn [fst snd]. change (int_sum []) with 0.
    rewrite Z.add_0_r. apply fmul_exact; rewrite ?H53; nia.
  - symmetry in Hl. apply map_eq_app in Hl as (l1 & l2 & -> & H1 & H2).
    apply Forall_app in Hsmall as [Hs1 Hs2].
    rewrite length_app, Nat2Z.inj_add in Hlen.
    pose proof (int_sum_bound l1 Hs1). pose proof (int_sum_bound l2 Hs2).
    rewrite (IH1 l1), (IH2 l2); try (symmetry; assumption); try assumption;
      try lia.
    rewrite int_sum_app. apply fadd_exact; rewrite ?H53 in *; rewrite ?H6 in *; lia.
Qed.

End Orders.

(** X15. The inner product of two rows of generated values does not
    depend on how its terms are added up: any order and any grouping of
    the additions gives the value the left-to-right sum gives. *)
Theorem dot_order_irrelevant u v t :
  Forall small_entry u -> Forall small_entry v ->
  10 ^ 6 * Z.of_nat (length u) < 2 ^ 53 ->
  Permutation (terms t) (combine (map float_of_Z u) (map float_of_Z v)) ->
  sum_in_order t = dot (map float_of_Z u) (map float_of_Z v).
Proof.
  intros Hu Hv Hlen Hperm.
  destruct (dot_exact u v Hu Hv Hlen) as [-> _].
  rewrite combine_floats in Hperm.
  apply Permutation_map_inv in Hperm as (l & Hl & Hp).
  assert (Hc : (length (combine u v) <= length u)%nat)
    by (rewrite length_combine; lia).
  rewrite (sum_in_order_exact t l Hl).
  - f_equal. unfold int_dot. symmetry. apply int_sum_perm, Hp.
  - eapply Permutation_Forall; [exact Hp|]. apply combine_small; assumption.
  - rewrite <- (Permutation_length Hp). lia.
Qed.

Lemma dot_order_irrelevant_witness :
  sum_in_order
    (Plus (Term (float_of_Z 5) (float_of_Z 6))
          (Plus NoTerm (Term (float_of_Z 3) (float_of_Z 4)))) =
  dot (map float_of_Z [3; 5]) (map float_of_Z [4; 6]).
Proof.
  apply (dot_order_irrelevant [3; 5] [4; 6]).
  - repeat constructor; discriminate.
  - repeat constructor; discriminate.
  - reflexivity.
  - apply perm_swap.
Defined.

Section Edges.

(** X16. A task with a negative size is a compute error, whatever its
    seeds are: [np.empty] raises after the first reading of the clock,
    [process_task] logs the [ValueError] and returns [None], and the
    worker loop adds one to [fail] and to nothing else, posts nothing and
    goes on. *)
Theorem negative_size_is_compute_error token td v1 v2 size st w :
  py_getitem td "seed1" = Ok v1 ->
  py_getitem td "seed2" = Ok v2 ->
  py_getitem td "matrix_size" = Ok (JInt size) ->
  size < 0 ->
  classify_fetch (next_fetch w) = Success td ->
  (forall w0,
     process_task token td w0 =
       (Ok None,
        log [LogComputeError (tok8 token) ValueError]
          (set_ticks (S (ticks w0)) w0))) /\
  loop_body token st w =
    (Ok (Continue
           (mk_stats (success st) (fail st + 1) (total st) (total_time st))),
     log [LogComputeError (tok8 token) ValueError]
       (set_ticks (S (ticks w)) (fetched token w))).
Proof.
  intros H1 H2 H3 Hneg Hfetch.
  assert (Hproc : forall w0,
     process_task token td w0 =
       (Ok None,
        log [LogComputeError (tok8 token) ValueError]
          (set_ticks (S (ticks w0)) w0))).
  { intros w0. destruct w0 as [fs ss clk tk snt sl ex con].
    unfold process_task. rewrite H1, H2, H3. run_io.
    rewrite generate_matrix_on_refused by (left; exact Hneg).
    replace (tk + 1)%nat with (S tk) by lia. reflexivity. }
  split; [exact Hproc|].
  rewrite loop_body_eq. unfold after_fetch. rewrite Hfetch.
  unfold compute_and_submit. rewrite Hproc. destruct w; reflexivity.
Qed.

Lemma negative_size_is_compute_error_witness :
  -3 < 0 /\
  loop_body sample_token initial_stats
      (sample_world
         [answer_task (JObj [("seed1", JNull); ("seed2", JInt 2);
                             ("matrix_size", JInt (-3));
                             ("task_id", JStr "task-3")])] []) =
    (Ok (Continue (mk_stats 0 1 0 fzero)),
     log [LogComputeError (tok8 sample_token) ValueError]
       (set_ticks 1
          (fetched sample_token
             (sample_world
                [answer_task (JObj [("seed1", JNull); ("seed2", JInt 2);
                                    ("matrix_size", JInt (-3));
                                    ("task_id", JStr "task-3")])] [])))).
Proof.
  assert (H : -3 < 0) by reflexivity.
  split; [exact H|].
  exact (proj2 (negative_size_is_compute_error sample_token
                  (JObj [("seed1", JNull); ("seed2", JInt 2);
                         ("matrix_size", JInt (-3));
                         ("task_id", JStr "task-3")])
                  JNull (JInt 2) (-3) initial_stats
                  (sample_world
                     [answer_task (JObj [("seed1", JNull); ("seed2", JInt 2);
                                         ("matrix_size", JInt (-3));
                                         ("task_id", JStr "task-3")])] [])
                  eq_refl eq_refl eq_refl H eq_refl)).
Defined.

(** X17. A task of size 0 is not an error, whatever its seeds are, numbers
    or not: no cell is computed, so the seeds are never used; the
    matrices are empty, so is the text that is hashed, and the
    fingerprint is that of the empty text, 5086549. *)
Theorem empty_task_fingerprint td v1 v2 :
  py_getitem td "seed1" = Ok v1 ->
  py_getitem td "seed2" = Ok v2 ->
  py_getitem td "matrix_size" = Ok (JInt 0) ->
  generate_matrix_on v1 (JInt 0) = Ok [] /\
  generate_matrix_on v2 (JInt 0) = Ok [] /\
  multiply_matrices [] [] = Ok [] /\
  flatten_matrix [] = EmptyString /\
  task_fingerprint td = Ok 5086549.
Proof.
  intros H1 H2 H3.
  split; [apply generate_matrix_on_empty|].
  split; [apply generate_matrix_on_empty|].
  split; [reflexivity|]. split; [reflexivity|].
  unfold task_fingerprint. rewrite H1, H2, H3.
  cbn [mbind result_bind]. rewrite !generate_matrix_on_empty.
  vm_compute. reflexivity.
Qed.

Lemma empty_task_fingerprint_witness :
  task_fingerprint
    (JObj [("seed1", JNull); ("seed2", JStr "x"); ("matrix_size", JInt 0);
           ("task_id", JStr "task-2")]) = Ok 5086549.
Proof.
  exact (proj2 (proj2 (proj2 (proj2
    (empty_task_fingerprint
       (JObj [("seed1", JNull); ("seed2", JStr "x"); ("matrix_size", JInt 0);
              ("task_id", JStr "task-2")])
       JNull (JStr "x") eq_refl eq_refl eq_refl))))).
Defined.

End Edges.

(** ** Start-up *)

Section Startup.

Lemma isspace_newline : isspace "010" = true.
Proof. reflexivity. Qed.

Lemma newline_char c : (c =? "010")%char = true -> c = "010"%char.
Proof. apply Ascii.eqb_eq. Qed.

Lemma lstrip_idem s : lstrip (lstrip s) = lstrip s.
Proof.
  induction s as [|c s IH]; [reflexivity|].
  cbn [lstrip]. destruct (isspace c) eqn:Hc; [exact IH|].
  cbn [lstrip]. now rewrite Hc.
Qed.

Lemma rstrip_idem s : rstrip (rstrip s) = rstrip s.
Proof.
  induction s as [|c s IH]; [reflexivity|].
  cbn [rstrip]. destruct (rstrip s) as [|d r] eqn:Hr.
  - destruct (isspace c) eqn:Hc; [reflexivity|].
    cbn [rstrip]. now rewrite Hc.
  - change (rstrip (String c (String d r)))
      with (match rstrip (String d r) with
            | EmptyString =>
                if isspace c then EmptyString else String c EmptyString
            | kept => String c kept
            end).
    now rewrite IH.
Qed.

Lemma rstrip_fixed_tail c r : rstrip (String c r) = String c r -> rstrip r = r.
Proof.
  cbn [rstrip]. destruct (rstrip r) as [|d r'] eqn:Hr.
  - destruct (isspace c); [discriminate|]. intros H. now injection H as <-.
  - intros H. now injection H as <-.
Qed.

Lemma lstrip_keeps_rstrip s : rstrip s = s -> rstrip (lstrip s) = lstrip s.
Proof.
  induction s as [|c s IH]; [reflexivity|]. intros H.
  cbn [lstrip]. destruct (isspace c); [|exact H].
  apply IH. eapply rstrip_fixed_tail, H.
Qed.

Lemma strip_idem s : strip (strip s) = strip s.
Proof.
  unfold strip.
  rewrite (lstrip_keeps_rstrip (rstrip s)) by apply rstrip_idem.
  apply lstrip_idem.
Qed.

Lemma lstrip_blank s : nonempty (lstrip s) = negb (blank s).
Proof.
  unfold blank. induction s as [|c s IH]; [reflexivity|].
  cbn [lstrip list_ascii_of_string forallb].
  destruct (isspace c); [exact IH|reflexivity].
Qed.

Lemma rstrip_blank s : blank (rstrip s) = blank s.
Proof.
  unfold blank. induction s as [|c s IH]; [reflexivity|].
  cbn [rstrip list_ascii_of_string forallb].
  destruct (rstrip s) as [|d r] eqn:Hr.
  - rewrite <- IH. cbn [list_ascii_of_string forallb].
    destruct (isspace c) eqn:Hc; cbn [list_ascii_of_string forallb];
      rewrite ?Hc; reflexivity.
  - cbn [list_ascii_of_string forallb]. rewrite <- IH. reflexivity.
Qed.

(** A line gives a token exactly when it is not blank. *)
Lemma strip_blank s : nonempty (strip s) = negb (blank s).
Proof. unfold strip. now rewrite lstrip_blank, rstrip_blank. Qed.

Lemma lstrip_chars a s :
  In a (list_ascii_of_string (lstrip s)) -> In a (list_ascii_of_string s).
Proof.
  induction s as [|c s IH]; [tauto|].
  cbn [lstrip]. destruct (isspace c); [|tauto].
  intros H. right. now apply IH.
Qed.

Lemma rstrip_chars a s :
  In a (list_ascii_of_string (rstrip s)) -> In a (list_ascii_of_string s).
Proof.
  induction s as [|c s IH]; [tauto|].
  cbn [rstrip]. destruct (rstrip s) as [|d r].
  - destruct (isspace c); cbn; tauto.
  - cbn [list_ascii_of_string]. intros [H|H]; [now left|right; now apply IH].
Qed.

Lemma rstrip_line body :
  rstrip (body ++ newline) = rstrip body.
Proof.
  induction body as [|c s IH]; [reflexivity|].
  rewrite append_cons. cbn [rstrip]. now rewrite IH.
Qed.

(** Every line is free of line feeds, but for the one that ends it. *)
Lemma readlines_shape text line :
  In line (readlines text) ->
  exists body,
    (line = body \/ line = (body ++ newline)%string) /\
    ~ In "010"%char (list_ascii_of_string body).
Proof.
  revert line. induction text as [|c s IH]; intros line; [intros []|].
  cbn [readlines]. destruct (c =? "010")%char eqn:Hc.
  - apply newline_char in Hc as ->. intros [<-|H]; [|now apply IH].
    exists EmptyString. split; [right; reflexivity|intros []].
  - assert (Hne : c <> "010"%char)
      by (intros ->; rewrite Ascii.eqb_refl in Hc; discriminate).
    destruct (readlines s) as [|l ls] eqn:Hr.
    + intros [<-|[]]. exists (String c EmptyString).
      split; [now left|]. intros [H|[]]. now apply Hne.
    + intros [<-|H]; [|apply IH; now right].
      destruct (IH l (or_introl eq_refl)) as (body & Hbody & Hfree).
      exists (String c body). split.
      * destruct Hbody as [->| ->]; [now left|right; now rewrite append_cons].
      * intros [H|H]; [now apply Hne|now apply Hfree].
Qed.

Lemma readlines_chars a text line :
  In line (readlines text) -> In a (list_ascii_of_string line) ->
  In a (list_ascii_of_string text).
Proof.
  revert line. induction text as [|c s IH]; intros line; [intros []|].
  cbn [readlines]. destruct (c =? "010")%char.
  - intros [<-|H] Ha.
    + destruct Ha as [<-|[]]. now left.
    + right. eapply IH; eassumption.
  - destruct (readlines s) as [|l ls] eqn:Hr.
    + intros [<-|[]] [<-|[]]. now left.
    + intros [<-|H] Ha.
      * destruct Ha as [<-|Ha]; [now left|right].
        apply (IH l); [now left|exact Ha].
      * right. apply (IH line); [now right|exact Ha].
Qed.

(** The decoder delivers no carriage return. *)
Lemma newline_decoder_no_cr s : forall pending,
  ~ In "013"%char (list_ascii_of_string (newline_decoder pending s)).
Proof.
  induction s as [|c s IH]; intros pending; [intros []|].
  cbn [newline_decoder]. destruct (c =? "013")%char eqn:Hc.
  - intros [H|H]; [discriminate H|exact (IH _ H)].
  - destruct ((c =? "010")%char && pending); [apply IH|].
    intros [H|H]; [|exact (IH _ H)].
    subst c. rewrite Ascii.eqb_refl in Hc. discriminate.
Qed.

(** It leaves white space white space, and the rest alone. *)
Lemma newline_decoder_blank s : forall pending,
  blank (newline_decoder pending s) = blank s.
Proof.
  unfold blank. induction s as [|c s IH]; intros pending; [reflexivity|].
  cbn [newline_decoder]. destruct (c =? "013")%char eqn:Hc.
  - apply Ascii.eqb_eq in Hc as ->.
    cbn [list_ascii_of_string forallb]. rewrite IH. reflexivity.
  - destruct (c =? "010")%char eqn:Hl; cbn [andb].
    + apply Ascii.eqb_eq in Hl as ->. destruct pending.
      * cbn [list_ascii_of_string forallb]. rewrite IH. reflexivity.
      * cbn [list_ascii_of_string forallb]. rewrite IH. reflexivity.
    + cbn [list_ascii_of_string forallb]. rewrite IH. reflexivity.
Qed.

Lemma newline_decoder_plain s :
  ~ In "013"%char (list_ascii_of_string s) -> newline_decoder false s = s.
Proof.
  induction s as [|c s IH]; intros Hfree; [reflexivity|].
  cbn [newline_decoder]. destruct (c =? "013")%char eqn:Hc.
  - apply Ascii.eqb_eq in Hc as ->. exfalso. apply Hfree. now left.
  - rewrite andb_false_r. rewrite IH by (intros H; apply Hfree; now right).
    reflexivity.
Qed.

(** A line followed by more text, its end being a line feed or a
    carriage return and a line feed. *)
Lemma newline_decoder_line t eol rest :
  ~ In "013"%char (list_ascii_of_string t) ->
  eol = newline \/ eol = (carriage_return ++ newline)%string ->
  newline_decoder false (t ++ eol ++ rest) =
    (t ++ newline ++ newline_decoder false rest)%string.
Proof.
  intros Hfree Heol. induction t as [|c s IH].
  - destruct Heol as [-> | ->]; reflexivity.
  - rewrite !append_cons. cbn [newline_decoder].
    destruct (c =? "013")%char eqn:Hc.
    + apply Ascii.eqb_eq in Hc as ->. exfalso. apply Hfree. now left.
    + rewrite andb_false_r.
      rewrite IH by (intros H; apply Hfree; now right). reflexivity.
Qed.

Lemma strip_line_clean content line :
  In line (readlines (universal_newlines content)) ->
  nonempty (strip line) = true ->
  clean_token (strip line).
Proof.
  intros Hin Hne. split; [|split; [|split]].
  - intros H. rewrite H in Hne. discriminate.
  - apply strip_idem.
  - intros Hnl. unfold strip in Hnl. apply lstrip_chars in Hnl.
    destruct (readlines_shape _ line Hin) as (body & [->| ->] & Hfree).
    + now apply rstrip_chars in Hnl.
    + rewrite rstrip_line in Hnl. now apply rstrip_chars in Hnl.
  - intros Hcr. unfold strip in Hcr.
    apply lstrip_chars, rstrip_chars in Hcr.
    apply (newline_decoder_no_cr content false).
    eapply readlines_chars; eassumption.
Qed.

Lemma readlines_nil text : readlines text = [] -> text = EmptyString.
Proof.
  destruct text as [|c s]; [reflexivity|]. cbn [readlines].
  destruct (c =? "010")%char; [discriminate|].
  destruct (readlines s); discriminate.
Qed.

Lemma readlines_blank text :
  forallb blank (readlines text) = blank text.
Proof.
  induction text as [|c s IH]; [reflexivity|].
  cbn [readlines]. destruct (c =? "010")%char eqn:Hc.
  - apply newline_char in Hc as ->. cbn [forallb]. rewrite IH. reflexivity.
  - destruct (readlines s) as [|l ls] eqn:Hr.
    + apply readlines_nil in Hr as ->. unfold blank. cbn.
      now rewrite !andb_true_r.
    + cbn [forallb] in *. unfold blank in *.
      cbn [list_ascii_of_string forallb]. rewrite <- IH.
      now rewrite andb_assoc.
Qed.

Lemma readlines_cons t rest :
  ~ In "010"%char (list_ascii_of_string t) ->
  readlines (t ++ newline ++ rest) = (t ++ newline)%string :: readlines rest.
Proof.
  induction t as [|c s IH]; intros Hfree; [reflexivity|].
  rewrite !append_cons. cbn [readlines].
  destruct (c =? "010")%char eqn:Hc.
  - apply newline_char in Hc as ->. exfalso. apply Hfree. now left.
  - rewrite IH by (intros H; apply Hfree; now right). reflexivity.
Qed.

Lemma strip_token_line t : strip (t ++ newline) = strip t.
Proof. unfold strip. now rewrite rstrip_line. Qed.

Lemma filter_none {A} (p : A -> bool) l :
  List.filter p l = [] <-> forallb (fun x => negb (p x)) l = true.
Proof.
  induction l as [|x l IH]; [easy|].
  cbn [List.filter forallb]. destruct (p x); cbn [negb andb]; [easy|exact IH].
Qed.

Lemma append_assoc (a b c : string) : ((a ++ b) ++ c = a ++ (b ++ c))%string.
Proof.
  induction a as [|x a IH]; [reflexivity|].
  rewrite !append_cons. now rewrite IH.
Qed.

End Startup.

(** X18. Every token [main] starts a worker for is clean: it is not
    empty, has no white space at either end and contains no line feed and
    no carriage return; and [main] starts workers only when there is at
    least one token. *)
Theorem main_launches_clean_tokens file tokens :
  main file = Ok (Launch tokens) ->
  tokens <> [] /\ Forall clean_token tokens.
Proof.
  unfold main. destruct file as [[content|e]|]; try discriminate.
  cbn [mbind result_bind].
  destruct (map strip _) as [|t ts] eqn:Hmap; [discriminate|].
  intros H. injection H as <-. split; [discriminate|].
  rewrite <- Hmap. rewrite List.Forall_forall. intros t' Ht.
  apply in_map_iff in Ht as (line & <- & Hline).
  apply filter_In in Hline as [Hin Hne].
  eapply strip_line_clean; eassumption.
Qed.

Lemma main_launches_clean_tokens_witness :
  main (Some (Ok ("  abc " ++ carriage_return ++ newline ++ newline ++
                  " def" ++ carriage_return ++ "ghi")%string)) =
    Ok (Launch ["abc"; "def"; "ghi"]%string) /\
  Forall clean_token ["abc"; "def"; "ghi"]%string.
Proof.
  assert (H : main (Some (Ok ("  abc " ++ carriage_return ++ newline ++
                              newline ++ " def" ++ carriage_return ++
                              "ghi")%string))
              = Ok (Launch ["abc"; "def"; "ghi"]%string)) by reflexivity.
  split; [exact H|].
  exact (proj2 (main_launches_clean_tokens _ _ H)).
Defined.

(** X19. A file that holds clean tokens, one per line, the lines ended by
    a line feed or by a carriage return and a line feed, is read back as
    that very list: same tokens, same order, repetitions kept; an empty
    list gives the no-token message. *)
Theorem main_reads_back_token_list tokens eol :
  Forall clean_token tokens ->
  eol = newline \/ eol = (carriage_return ++ newline)%string ->
  main (Some (Ok (token_lines eol tokens))) =
    Ok (match tokens with [] => NoValidTokens | _ :: _ => Launch tokens end).
Proof.
  intros Hclean Heol. unfold main. cbn [mbind result_bind].
  assert (Hkeep : map strip
            (List.filter (fun line => nonempty (strip line))
               (map (fun t => (t ++ newline)%string) tokens)) = tokens).
  { induction Hclean as [|t ts (Hne & Hfix & _) _ IH]; [reflexivity|].
    cbn [map List.filter]. rewrite strip_token_line, Hfix.
    destruct t; [now destruct Hne|]. cbn [nonempty map].
    rewrite strip_token_line, Hfix, IH. reflexivity. }
  assert (Hlines : readlines (universal_newlines (token_lines eol tokens)) =
                   map (fun t => (t ++ newline)%string) tokens).
  { clear Hkeep. unfold token_lines, universal_newlines.
    induction Hclean as [|t ts (_ & _ & Hfree & Hcr) _ IH]; [reflexivity|].
    cbn [map join fold_right].
    fold (join (map (fun t => (t ++ eol)%string) ts)).
    rewrite append_assoc, newline_decoder_line by assumption.
    rewrite readlines_cons by exact Hfree. now rewrite IH. }
  rewrite Hlines, Hkeep. destruct tokens; reflexivity.
Qed.

Lemma main_reads_back_token_list_witness :
  main (Some (Ok (token_lines (carriage_return ++ newline)
                    ["tok-1"; "tok-2"; "tok-1"]%string))) =
    Ok (Launch ["tok-1"; "tok-2"; "tok-1"]%string).
Proof.
  apply (main_reads_back_token_list ["tok-1"; "tok-2"; "tok-1"]%string).
  - repeat constructor; try discriminate;
      intros H; cbn in H;
      repeat (destruct H as [H|H]; [discriminate H|]); exact H.
  - now right.
Defined.

(** X20. [main] reports that there is no valid token exactly when the
    file holds nothing but white space (the empty file included). *)
Theorem main_finds_no_token_iff_blank text :
  main (Some (Ok text)) = Ok NoValidTokens <-> blank text = true.
Proof.
  unfold main. cbn [mbind result_bind].
  rewrite <- (newline_decoder_blank text false).
  fold (universal_newlines text).
  rewrite <- readlines_blank.
  replace (forallb blank (readlines (universal_newlines text)))
    with (forallb (fun l => negb (nonempty (strip l)))
            (readlines (universal_newlines text))).
  2:{ induction (readlines (universal_newlines text)) as [|l ls IH];
        [reflexivity|].
      cbn [forallb]. now rewrite IH, strip_blank, negb_involutive. }
  rewrite <- filter_none.
  destruct (List.filter _ _) as [|l ls]; cbn [map]; split; try easy.
Qed.

Lemma main_finds_no_token_iff_blank_witness :
  main (Some (Ok (" " ++ carriage_return ++ newline ++ "  ")%string)) =
    Ok NoValidTokens.
Proof.
  apply (proj2 (main_finds_no_token_iff_blank
                  (" " ++ carriage_return ++ newline ++ "  ")%string)).
  reflexivity.
Defined.
